(** * Bid pricing engine of the Akash provider pricing script (Go)

    A shallow embedding of the [pricing] package: [gpu.go], [cache.go],
    [whitelist.go], [types.go] and [pricing.go], followed by the properties
    of the engine that the specification states.

    Conventions of the embedding:
    - [float64] is IEEE-754 binary64, taken from the Standard Library's
      executable specification [SpecFloat] at precision 53 and [emax] 1024;
      every operation is rounded on its own (to nearest, ties to even), as
      on amd64, where the Go compiler fuses no multiplication and addition;
    - [int64] quantities are [Z] with the two's-complement wrap-around
      written out ([Int64.wrap]);
    - a Go [map[string]float64] is a [gmap string float64];
    - [(T, error)] results are [result T]; the error is its message;
    - code that touches the environment, the file system, the network or
      standard output runs in the state-and-error monad [M] over [World]. *)

From Stdlib Require Import ZArith List String Ascii Lia.
From Stdlib Require Import Reals Lra Psatz.
From Stdlib Require Import Floats.SpecFloat.
From stdpp Require Import gmap strings list.

Open Scope string_scope.
Open Scope Z_scope.

(** ** IEEE-754 binary64 *)

Module Float64.

Definition prec : Z := 53.
Definition emax : Z := 1024.

Definition float64 : Type := spec_float.

Definition add : float64 -> float64 -> float64 := SFadd prec emax.
Definition mul : float64 -> float64 -> float64 := SFmul prec emax.
Definition div : float64 -> float64 -> float64 := SFdiv prec emax.

(** [x < y] and [x > y] of Go; both are false when an operand is NaN. *)
Definition ltb (x y : float64) : bool := SFltb x y.
Definition gtb (x y : float64) : bool := ltb y x.

(** [float64(n)] for an integer [n]: round to nearest, ties to even. *)
Definition of_int (n : Z) : float64 := binary_normalize prec emax n 0 false.

(** The float64 nearest to the decimal constant [n / d]; both [n] and [d]
    are exactly representable wherever this is used, so the division's
    single rounding is the rounding of the constant. *)
Definition of_ratio (n d : Z) : float64 := div (of_int n) (of_int d).

Definition zero : float64 := S754_zero false.

Definition is_nan (x : float64) : bool :=
  match x with S754_nan => true | _ => false end.

End Float64.

Export Float64.

(** ** int64 arithmetic *)

Module Int64.

Definition modulus : Z := 2 ^ 64.
Definition half : Z := 2 ^ 63.

(** The signed 64-bit value congruent to [z]. *)
Definition wrap (z : Z) : Z := (z + half) mod modulus - half.

Definition add (x y : Z) : Z := wrap (x + y).
Definition mul (x y : Z) : Z := wrap (x * y).

(** Go's [/] on integers truncates toward zero. *)
Definition quot (x y : Z) : Z := wrap (Z.quot x y).

End Int64.

(** ** Results *)

Inductive result (A : Type) : Type :=
| Ok (a : A)
| Err (msg : string).

Arguments Ok {A} a.
Arguments Err {A} msg.

Definition is_err {A} (r : result A) : bool :=
  match r with Ok _ => false | Err _ => true end.

(** ** The parts of Go's library that the package calls

    [strconv.ParseFloat(s, 64)], [fmt.Sprintf] with the verb [%.*f] and the
    cosmos-sdk conversion [Dec.MustFloat64] are not code of this package;
    the embedding is parametric in them. *)

(** [sdk.Dec]: a fixed-point decimal, the integer [dec_i] scaled by 10^18. *)
Record Dec : Type := mkDec { dec_i : Z }.

Definition Dec_IsZero (d : Dec) : bool := dec_i d =? 0.

Class GoLib : Type := {
  ParseFloat : string -> result float64;
  FormatFloat : Z -> float64 -> string;
  MustFloat64 : Dec -> float64
}.

(** ** [strings.Split] with a one-byte separator *)

Fixpoint Split (s : string) (sep : ascii) : list string :=
  match s with
  | EmptyString => [EmptyString]
  | String c s' =>
      if Ascii.eqb c sep then EmptyString :: Split s' sep
      else match Split s' sep with
           | [] => [String c EmptyString]
           | h :: t => String c h :: t
           end
  end.

(** [strings.Join] with a one-byte separator, the inverse used to say what a
    separated segment is. *)
Fixpoint Join (l : list string) (sep : ascii) : string :=
  match l with
  | [] => EmptyString
  | [x] => x
  | x :: rest => x ++ String sep (Join rest sep)
  end.

Fixpoint contains (s : string) (c : ascii) : bool :=
  match s with
  | EmptyString => false
  | String d s' => Ascii.eqb d c || contains s' c
  end.

(** ** gpu.go *)

Section GPU_mappings.
Context {lib : GoLib}.

(** The body of the loop of [ParseGPUPriceMappings], one pair at a time. *)
Fixpoint parsePairs (pairs : list string) (gpuMappings : gmap string float64)
  : result (gmap string float64) :=
  match pairs with
  | [] => Ok gpuMappings
  | pair_ :: rest =>
      if decide (pair_ = "") then parsePairs rest gpuMappings
      else match Split pair_ "=" with
           | [key; v] =>
               match ParseFloat v with
               | Err e => Err ("invalid GPU price for " ++ key ++ ": " ++ e)
               | Ok value => parsePairs rest (<[key := value]> gpuMappings)
               end
           | _ => Err ("invalid GPU mapping: " ++ pair_)
           end
  end.

Definition ParseGPUPriceMappings (mappingStr : string)
  : result (gmap string float64) :=
  if decide (mappingStr = "") then Ok ∅
  else parsePairs (Split mappingStr ",") ∅.

End GPU_mappings.

(** [MaxGPUPrice]: Go visits the entries of a map in an unspecified order;
    [MaxGPUPrice_visit] is the loop over the entries in the order visited,
    [MaxGPUPrice] runs it in the order of [map_to_list]. *)
Definition defaultMaxPrice : float64 := of_int 100.

Definition maxStep (maxPrice price : float64) : float64 :=
  if gtb price maxPrice then price else maxPrice.

Definition MaxGPUPrice_visit (entries : list (string * float64)) : float64 :=
  fold_left (fun maxPrice kv => maxStep maxPrice (snd kv)) entries defaultMaxPrice.

Definition MaxGPUPrice (gpuMappings : gmap string float64) : float64 :=
  MaxGPUPrice_visit (map_to_list gpuMappings).

(** ** The deployment types of the Akash API that the package reads

    Only the fields the package touches.  A [ResourceValue] is kept as the
    [int64] that [Val.Int64()] returns, [Count] is a [uint32]. *)

Record Attribute : Type := mkAttribute {
  attr_Key : string;
  attr_Value : string
}.

Record CPU : Type := mkCPU {
  cpu_Units : Z;
  cpu_Attributes : list Attribute
}.

Record Memory : Type := mkMemory {
  mem_Quantity : Z;
  mem_Attributes : list Attribute
}.

Record Storage : Type := mkStorage {
  sto_Name : string;
  sto_Quantity : Z;
  sto_Attributes : list Attribute
}.

Record GPU : Type := mkGPU {
  gpu_Units : Z;
  gpu_Attributes : list Attribute
}.

Inductive Endpoint_Kind : Type :=
| Endpoint_SHARED_HTTP
| Endpoint_RANDOM_PORT
| Endpoint_LEASED_IP.

Record Endpoint : Type := mkEndpoint {
  ep_Kind : Endpoint_Kind;
  ep_SequenceNumber : Z
}.

(** [CPU], [Memory] and [GPU] are pointers in Go: [None] is [nil]. *)
Record Resources : Type := mkResources {
  res_ID : Z;
  res_CPU : option CPU;
  res_Memory : option Memory;
  res_Storage : list Storage;
  res_GPU : option GPU;
  res_Endpoints : list Endpoint
}.

Record DecCoin : Type := mkDecCoin {
  coin_Denom : string;
  coin_Amount : Dec
}.

Record ResourceUnit : Type := mkResourceUnit {
  ru_Resources : Resources;
  ru_Count : Z;
  ru_Price : DecCoin
}.

Record GroupSpec : Type := mkGroupSpec {
  gs_Name : string;
  gs_Resources : list ResourceUnit
}.

(** ** types.go *)

Record ResourceRequests : Type := mkResourceRequests {
  CPURequested : float64;
  MemoryRequested : float64;
  EphemeralStorageRequested : Z;
  HDDPersStorageRequested : Z;
  SSDPersStorageRequested : Z;
  NVMePersStorageRequested : Z;
  IPsRequested : Z;
  EndpointsRequested : Z
}.

Record PriceTargets : Type := mkPriceTargets {
  CPUTarget : float64;
  MemoryTarget : float64;
  HDEphemeralTarget : float64;
  HDPersHDDTarget : float64;
  HDPersSSDTarget : float64;
  HDPersNVMETarget : float64;
  EndpointTarget : float64;
  IPTarget : float64;
  GPUMappings : gmap string float64
}.

(** [GSpec] is a pointer: [None] is [nil]. *)
Record Request : Type := mkRequest {
  Owner : string;
  GSpec : option GroupSpec;
  PricePrecision : Z
}.

(** ** gpu.go, continued: [CalculateTotalGPUPrice] *)

Record gpuTokens : Type := mkGpuTokens {
  model : string;
  vram : string;
  interfaceType : string
}.

(** The inner loop over the ["/"]-separated parts of one attribute key:
    [parts[i+1]] exists exactly when the rest of the list is not empty. *)
Fixpoint scanParts (parts : list string) (t : gpuTokens) : gpuTokens :=
  match parts with
  | [] => t
  | part :: rest =>
      let t' :=
        match rest with
        | [] => t
        | next :: _ =>
            if decide (part = "model") then mkGpuTokens next (vram t) (interfaceType t)
            else if decide (part = "ram") then mkGpuTokens (model t) next (interfaceType t)
            else if decide (part = "interface") then mkGpuTokens (model t) (vram t) next
            else t
        end in
      scanParts rest t'
  end.

Definition scanAttributes (attrs : list Attribute) : gpuTokens :=
  fold_left (fun t attr => scanParts (Split (attr_Key attr) "/") t)
            attrs (mkGpuTokens "" "" "").

Definition fullKey (t : gpuTokens) : string :=
  let gpuKey := model t in
  let gpuKey := if decide (vram t = "") then gpuKey else gpuKey ++ "." ++ vram t in
  if decide (interfaceType t = "") then gpuKey else gpuKey ++ "." ++ interfaceType t.

(** The price of one GPU of the unit.  A missed lookup leaves Go's zero
    value in [price]; the fallbacks are inside [if !found && interfaceType != ""]. *)
Definition resolvePrice (t : gpuTokens) (gpuMappings : gmap string float64)
    (maxGPUPrice : float64) : float64 :=
  match gpuMappings !! fullKey t with
  | Some price => price
  | None =>
      if decide (interfaceType t = "") then zero
      else match gpuMappings !! (model t ++ "." ++ vram t) with
           | Some price => price
           | None =>
               match gpuMappings !! model t with
               | Some price => price
               | None => maxGPUPrice
               end
           end
  end.

Definition gpuUnitPrice (resourceUnit : ResourceUnit)
    (gpuMappings : gmap string float64) (maxGPUPrice : float64) : option float64 :=
  match res_GPU (ru_Resources resourceUnit) with
  | None => None
  | Some g =>
      let count := of_int (ru_Count resourceUnit) in
      let gpuUnits := of_int (gpu_Units g) in
      let price := resolvePrice (scanAttributes (gpu_Attributes g)) gpuMappings maxGPUPrice in
      Some (mul (mul count gpuUnits) price)
  end.

Definition CalculateTotalGPUPrice (gSpec : GroupSpec)
    (gpuMappings : gmap string float64) (maxGPUPrice : float64) : float64 :=
  fold_left
    (fun totalGPUPrice resourceUnit =>
       match gpuUnitPrice resourceUnit gpuMappings maxGPUPrice with
       | None => totalGPUPrice
       | Some p => add totalGPUPrice p
       end)
    (gs_Resources gSpec) zero.

(** ** pricing.go: constants and [CalculateRequestedResources] *)

Definition DefaultCPUTarget : float64 := of_ratio 160 100.
Definition DefaultMemoryTarget : float64 := of_ratio 80 100.
Definition DefaultHDEphemeralTarget : float64 := of_ratio 2 100.
Definition DefaultHDPersHDDTarget : float64 := of_ratio 1 100.
Definition DefaultHDPersSSDTarget : float64 := of_ratio 3 100.
Definition DefaultHDPersNVMETarget : float64 := of_ratio 4 100.
Definition DefaultEndpointTarget : float64 := of_ratio 5 100.
Definition DefaultIPTarget : float64 := of_int 5.

(** [(60 / 6.117) * 24 * 60 * 30.437] is an untyped constant expression,
    evaluated exactly and rounded once: 2629756800 / 6117. *)
Definition BlocksPerMonth : float64 := of_ratio 2629756800 6117.

Definition bytesPerGB : Z := 1024 * 1024 * 1024.

(** The class of a storage entry: its name, overridden by the value of the
    first attribute whose key is ["class"]. *)
Fixpoint classAttribute (attrs : list Attribute) : option string :=
  match attrs with
  | [] => None
  | attr :: rest =>
      if decide (attr_Key attr = "class") then Some (attr_Value attr)
      else classAttribute rest
  end.

Definition storageClassOf (storage : Storage) : string :=
  match classAttribute (sto_Attributes storage) with
  | Some c => c
  | None => sto_Name storage
  end.

Definition addStorage (count : Z) (result : ResourceRequests) (storage : Storage)
    : ResourceRequests :=
  let storageClass := storageClassOf storage in
  let storageBytes := sto_Quantity storage in
  let storageGB := Int64.quot storageBytes bytesPerGB in
  let amount := Int64.mul storageGB count in
  if decide (storageClass = "ephemeral" \/ storageClass = "default") then
    mkResourceRequests (CPURequested result) (MemoryRequested result)
      (Int64.add (EphemeralStorageRequested result) amount)
      (HDDPersStorageRequested result) (SSDPersStorageRequested result)
      (NVMePersStorageRequested result) (IPsRequested result) (EndpointsRequested result)
  else if decide (storageClass = "beta1") then
    mkResourceRequests (CPURequested result) (MemoryRequested result)
      (EphemeralStorageRequested result)
      (Int64.add (HDDPersStorageRequested result) amount) (SSDPersStorageRequested result)
      (NVMePersStorageRequested result) (IPsRequested result) (EndpointsRequested result)
  else if decide (storageClass = "beta2") then
    mkResourceRequests (CPURequested result) (MemoryRequested result)
      (EphemeralStorageRequested result)
      (HDDPersStorageRequested result) (Int64.add (SSDPersStorageRequested result) amount)
      (NVMePersStorageRequested result) (IPsRequested result) (EndpointsRequested result)
  else if decide (storageClass = "beta3") then
    mkResourceRequests (CPURequested result) (MemoryRequested result)
      (EphemeralStorageRequested result)
      (HDDPersStorageRequested result) (SSDPersStorageRequested result)
      (Int64.add (NVMePersStorageRequested result) amount)
      (IPsRequested result) (EndpointsRequested result)
  else result.

Definition addEndpoint (count : Z) (result : ResourceRequests) (endpoint : Endpoint)
    : ResourceRequests :=
  let ips :=
    match ep_Kind endpoint with
    | Endpoint_LEASED_IP => Int64.add (IPsRequested result) count
    | _ => IPsRequested result
    end in
  mkResourceRequests (CPURequested result) (MemoryRequested result)
    (EphemeralStorageRequested result) (HDDPersStorageRequested result)
    (SSDPersStorageRequested result) (NVMePersStorageRequested result)
    ips (Int64.add (EndpointsRequested result) count).

Definition addCPU (resourceUnit : ResourceUnit) (result : ResourceRequests)
    : ResourceRequests :=
  match res_CPU (ru_Resources resourceUnit) with
  | None => result
  | Some c =>
      let cpuUnits := cpu_Units c in
      let cpuCores := div (of_int cpuUnits) (of_int 1000) in
      mkResourceRequests
        (add (CPURequested result) (mul cpuCores (of_int (ru_Count resourceUnit))))
        (MemoryRequested result)
        (EphemeralStorageRequested result) (HDDPersStorageRequested result)
        (SSDPersStorageRequested result) (NVMePersStorageRequested result)
        (IPsRequested result) (EndpointsRequested result)
  end.

Definition addMemory (resourceUnit : ResourceUnit) (result : ResourceRequests)
    : ResourceRequests :=
  match res_Memory (ru_Resources resourceUnit) with
  | None => result
  | Some m =>
      let memoryBytes := mem_Quantity m in
      let memoryGB := div (of_int memoryBytes) (of_int bytesPerGB) in
      mkResourceRequests
        (CPURequested result)
        (add (MemoryRequested result) (mul memoryGB (of_int (ru_Count resourceUnit))))
        (EphemeralStorageRequested result) (HDDPersStorageRequested result)
        (SSDPersStorageRequested result) (NVMePersStorageRequested result)
        (IPsRequested result) (EndpointsRequested result)
  end.

(** One iteration of the loop over [gSpec.Resources]. *)
Definition addResourceUnit (result : ResourceRequests) (resourceUnit : ResourceUnit)
    : ResourceRequests :=
  let count := ru_Count resourceUnit in
  let result := addCPU resourceUnit result in
  let result := addMemory resourceUnit result in
  let result := fold_left (addStorage count) (res_Storage (ru_Resources resourceUnit)) result in
  fold_left (addEndpoint count) (res_Endpoints (ru_Resources resourceUnit)) result.

Definition zeroResourceRequests : ResourceRequests :=
  mkResourceRequests zero zero 0 0 0 0 0 0.

Definition CalculateRequestedResources (gSpec : GroupSpec) : ResourceRequests :=
  fold_left addResourceUnit (gs_Resources gSpec) zeroResourceRequests.

(** ** The world outside the process

    Environment variables, the files under [/tmp], the HTTP endpoints and
    what was written to standard output.  Diagnostic lines of the [log]
    package go to standard error and are not recorded. *)

(** A value decoded by [encoding/json] into an [interface{}]: numbers are
    [float64], objects are maps (a key is bound once; lookups take the
    first binding). *)
#[local] Unset Elimination Schemes.
Inductive JSON : Type :=
| JNull
| JBool (b : bool)
| JNumber (f : float64)
| JString (s : string)
| JArray (l : list JSON)
| JObject (fields : list (string * JSON)).
#[local] Set Elimination Schemes.

Fixpoint jsonField (key : string) (fields : list (string * JSON)) : option JSON :=
  match fields with
  | [] => None
  | (k, v) :: rest => if decide (k = key) then Some v else jsonField key rest
  end.

(** What [http.Get] yields: a transport error, or a response with its
    status, its body and the outcome of decoding the body as JSON. *)
Inductive HTTPResult : Type :=
| HTTPError (msg : string)
| HTTPResponse (statusCode : Z) (status : string) (body : string) (decoded : result JSON).

(** [file_age] is [time.Since(fileInfo.ModTime())] in nanoseconds. *)
Record File : Type := mkFile {
  file_age : Z;
  file_data : string
}.

Inductive Event : Type :=
| EvPrintRequest (request : Request)
| EvStdout (line : string)
| EvHttpGet (url : string)
| EvWriteFile (path : string) (data : string).

Record World : Type := mkWorld {
  w_env : gmap string string;
  w_files : gmap string File;
  w_writeError : string -> option string;
  w_http : string -> HTTPResult;
  w_trace : list Event
}.

(** A computation either returns or ends the process ([log.Fatalf]). *)
Inductive outcome (A : Type) : Type :=
| Done (a : A)
| Fatal (msg : string).

Arguments Done {A} a.
Arguments Fatal {A} msg.

Definition M (A : Type) : Type := World -> outcome A * World.

Definition ret {A} (a : A) : M A := fun w => (Done a, w).

Definition bind {A B} (m : M A) (k : A -> M B) : M B :=
  fun w => match m w with
           | (Done a, w') => k a w'
           | (Fatal msg, w') => (Fatal msg, w')
           end.

Declare Scope go_scope.
Delimit Scope go_scope with go.
Notation "x <- m ;; k" := (bind m (fun x => k))
  (at level 100, m at next level, right associativity) : go_scope.
Notation "m ;;; k" := (bind m (fun _ => k))
  (at level 100, right associativity) : go_scope.
Open Scope go_scope.

Definition emit (e : Event) : M unit :=
  fun w => (Done tt, mkWorld (w_env w) (w_files w) (w_writeError w) (w_http w)
                             (w_trace w ++ [e])).

Definition Println (line : string) : M unit := emit (EvStdout line).

Definition Fatalf {A} (msg : string) : M A := fun w => (Fatal msg, w).

(** [os.Getenv]: the empty string when the variable is not set. *)
Definition Getenv (name : string) : M string :=
  fun w => (Done (default "" (w_env w !! name)), w).

Definition LookupEnv (name : string) : M (option string) :=
  fun w => (Done (w_env w !! name), w).

(** [os.Stat]: [None] when the file does not exist. *)
Definition Stat (path : string) : M (option File) :=
  fun w => (Done (w_files w !! path), w).

Definition ReadFile (path : string) : M (result string) :=
  fun w => (Done (match w_files w !! path with
                  | Some f => Ok (file_data f)
                  | None => Err ("open " ++ path ++ ": no such file or directory")
                  end), w).

(** [ioutil.WriteFile]: replaces the file; its modification time is now. *)
Definition WriteFile (path data : string) : M (result unit) :=
  fun w => match w_writeError w path with
           | Some e => (Done (Err e), w)
           | None =>
               (Done (Ok tt),
                mkWorld (w_env w) (<[path := mkFile 0 data]> (w_files w))
                        (w_writeError w) (w_http w)
                        (w_trace w ++ [EvWriteFile path data]))
           end.

Definition HttpGet (url : string) : M HTTPResult :=
  fun w => (Done (w_http w url),
            mkWorld (w_env w) (w_files w) (w_writeError w) (w_http w)
                    (w_trace w ++ [EvHttpGet url])).

Definition Minute : Z := 60 * 1000000000.

(** ** cache.go *)

Definition extractPrice (data : JSON) : float64 :=
  match data with
  | JObject v =>
      match jsonField "price" v with
      | Some (JNumber price) => price
      | _ =>
          match jsonField "akash-network" v with
          | Some (JObject nested) =>
              match jsonField "usd" nested with
              | Some (JNumber price) => price
              | _ => zero
              end
          | _ => zero
          end
      end
  | _ => zero
  end.

Definition fetchPriceFromURL (url : string) : M (result float64) :=
  resp <- HttpGet url ;;
  match resp with
  | HTTPError e => ret (Err e)
  | HTTPResponse _ _ _ (Err e) => ret (Err e)
  | HTTPResponse _ _ _ (Ok data) => ret (Ok (extractPrice data))
  end.

Definition primaryURL : string :=
  "https://api-osmosis.imperator.co/tokens/v2/price/AKT".
Definition fallbackURL : string :=
  "https://api.coingecko.com/api/v3/simple/price?ids=akash-network&vs_currencies=usd".

Definition fetchPriceFromAPI : M (result float64) :=
  r <- fetchPriceFromURL primaryURL ;;
  match r with
  | Err _ =>
      Println "Primary API failed, trying fallback" ;;;
      fetchPriceFromURL fallbackURL
  | Ok price => ret (Ok price)
  end.

Definition cacheFilePath : string := "/tmp/aktprice.cache".

Section Cache.
Context {lib : GoLib}.

Definition readCachedPrice (cacheFile : string) : M (result float64) :=
  fileInfo <- Stat cacheFile ;;
  match fileInfo with
  | None => ret (Err "cache file does not exist or is expired")
  | Some f =>
      if file_age f >? 60 * Minute
      then ret (Err "cache file does not exist or is expired")
      else
        data <- ReadFile cacheFile ;;
        match data with
        | Err e => ret (Err e)
        | Ok data => ret (ParseFloat data)
        end
  end.

Definition cachePrice (cacheFile : string) (price : float64) : M (result unit) :=
  WriteFile cacheFile (FormatFloat 6 price).

Definition GetAKTPrice : M (result float64) :=
  r <- readCachedPrice cacheFilePath ;;
  match r with
  | Ok price => ret (Ok price)
  | Err _ =>
      r <- fetchPriceFromAPI ;;
      match r with
      | Err e => ret (Err e)
      | Ok price =>
          r <- cachePrice cacheFilePath price ;;
          match r with
          | Err e => ret (Err e)
          | Ok _ => ret (Ok price)
          end
      end
  end.

End Cache.

(** ** whitelist.go *)

Definition SpecialPricing (owner : string) : bool :=
  let specialAccounts : gmap string bool :=
    <["akash1fxa9ss3dg6nqyz8aluyaa6svypgprk5tw9fa4q" := true]>
      (<["akash1fhe3uk7d95vvr69pna7cxmwa8777as46uyxcz8" := true]> ∅) in
  default false (specialAccounts !! owner).

Fixpoint trimLeft (p : ascii -> bool) (s : string) : string :=
  match s with
  | EmptyString => EmptyString
  | String c s' => if p c then trimLeft p s' else s
  end.

Definition revString (s : string) : string :=
  string_of_list_ascii (rev (list_ascii_of_string s)).

Definition trimBoth (p : ascii -> bool) (s : string) : string :=
  revString (trimLeft p (revString (trimLeft p s))).

Definition quoteChar : ascii := ascii_of_nat 34.

(** [strings.Trim] with the double-quote character as its cutset. *)
Definition TrimQuotes (s : string) : string :=
  trimBoth (fun c => Ascii.eqb c quoteChar) s.

(** [strings.TrimSpace] on ASCII text. *)
Definition isSpace (c : ascii) : bool :=
  let n := nat_of_ascii c in
  (Nat.eqb n 32 || (Nat.leb 9 n && Nat.leb n 13))%bool.

Definition TrimSpace (s : string) : string := trimBoth isSpace s.

(** The lines a [bufio.Scanner] yields: split at newlines, one trailing
    carriage return dropped from each, no empty last line. *)
Definition dropCR (s : string) : string :=
  match revString s with
  | String c r => if Ascii.eqb c (ascii_of_nat 13) then revString r else s
  | EmptyString => s
  end.

Definition scanLines (data : string) : list string :=
  let parts := Split data (ascii_of_nat 10) in
  let parts := match rev parts with
               | EmptyString :: front => rev front
               | _ => parts
               end in
  map dropCR parts.

Definition whitelistFilePath : string := "/tmp/price-script.whitelist".

Definition shouldFetchWhitelist (whitelistFile : string) : M bool :=
  fileInfo <- Stat whitelistFile ;;
  match fileInfo with
  | None => ret true
  | Some f => ret (file_age f >? 10 * Minute)
  end.

Definition fetchWhitelist (whitelistURL whitelistFile : string) : M (result unit) :=
  resp <- HttpGet whitelistURL ;;
  match resp with
  | HTTPError e => ret (Err e)
  | HTTPResponse statusCode status body _ =>
      if statusCode =? 200 then WriteFile whitelistFile body
      else ret (Err ("HTTP request error: " ++ status))
  end.

Definition verifyInWhitelist (whitelistFile owner : string) : M (result unit) :=
  data <- ReadFile whitelistFile ;;
  match data with
  | Err e => ret (Err e)
  | Ok data =>
      if existsb (fun line => bool_decide (TrimSpace line = owner)) (scanLines data)
      then ret (Ok tt)
      else ret (Err (owner ++ " is not whitelisted"))
  end.

Definition CheckWhitelist (owner : string) : M (result unit) :=
  whitelistURL <- Getenv "WHITELIST_URL" ;;
  let whitelistURL := TrimQuotes whitelistURL in
  if decide (whitelistURL = "") then ret (Ok tt)
  else
    should <- shouldFetchWhitelist whitelistFilePath ;;
    fetched <- (if should : bool then fetchWhitelist whitelistURL whitelistFilePath
                else ret (Ok tt)) ;;
    match fetched with
    | Err e => ret (Err ("error fetching whitelist: " ++ e))
    | Ok _ =>
        envOwner <- Getenv "AKASH_OWNER" ;;
        verifyInWhitelist whitelistFilePath envOwner
    end.

(** ** pricing.go, continued *)

Definition uaktDenom : string := "uakt".
Definition ibcDenom1 : string :=
  "ibc/12C6A0C374171B595A0A9E18B83FA09D295FB1F2D8C6DAA3AC28683471752D84".
Definition ibcDenom2 : string :=
  "ibc/170C677610AC31DF0904FFE09CD3B5C657492170E7E52372E48756B71E56F2F1".

Definition CalculateTotalCostUsdTarget (resourceRequests : ResourceRequests)
    (priceTargets : PriceTargets) : float64 :=
  let totalCostUsdTarget := zero in
  let cpuCost := mul (CPURequested resourceRequests) (CPUTarget priceTargets) in
  let totalCostUsdTarget := add totalCostUsdTarget cpuCost in
  let memoryCost := mul (MemoryRequested resourceRequests) (MemoryTarget priceTargets) in
  let totalCostUsdTarget := add totalCostUsdTarget memoryCost in
  let ephemeralStorageCost :=
    mul (of_int (EphemeralStorageRequested resourceRequests)) (HDEphemeralTarget priceTargets) in
  let totalCostUsdTarget := add totalCostUsdTarget ephemeralStorageCost in
  let hddPersStorageCost :=
    mul (of_int (HDDPersStorageRequested resourceRequests)) (HDPersHDDTarget priceTargets) in
  let totalCostUsdTarget := add totalCostUsdTarget hddPersStorageCost in
  let ssdPersStorageCost :=
    mul (of_int (SSDPersStorageRequested resourceRequests)) (HDPersSSDTarget priceTargets) in
  let totalCostUsdTarget := add totalCostUsdTarget ssdPersStorageCost in
  let nvmePersStorageCost :=
    mul (of_int (NVMePersStorageRequested resourceRequests)) (HDPersNVMETarget priceTargets) in
  let totalCostUsdTarget := add totalCostUsdTarget nvmePersStorageCost in
  let endpointCost :=
    mul (of_int (EndpointsRequested resourceRequests)) (EndpointTarget priceTargets) in
  let totalCostUsdTarget := add totalCostUsdTarget endpointCost in
  let ipCost := mul (of_int (IPsRequested resourceRequests)) (IPTarget priceTargets) in
  add totalCostUsdTarget ipCost.

Section Pricing.
Context {lib : GoLib}.

Definition GetEnvFloat (envVar : string) (defaultValue : float64) : M float64 :=
  v <- LookupEnv envVar ;;
  match v with
  | Some val =>
      match ParseFloat val with
      | Ok floatVal => ret floatVal
      | Err _ => ret defaultValue
      end
  | None => ret defaultValue
  end.

Definition SetPriceTargets : M PriceTargets :=
  gpuMappingsStr <- Getenv "PRICE_TARGET_GPU_MAPPINGS" ;;
  match ParseGPUPriceMappings gpuMappingsStr with
  | Err e => Fatalf ("Error parsing GPU mappings: " ++ e)
  | Ok gpuMappings =>
      cpu <- GetEnvFloat "PRICE_TARGET_CPU" DefaultCPUTarget ;;
      memory <- GetEnvFloat "PRICE_TARGET_MEMORY" DefaultMemoryTarget ;;
      ephemeral <- GetEnvFloat "PRICE_TARGET_HD_EPHEMERAL" DefaultHDEphemeralTarget ;;
      hdd <- GetEnvFloat "PRICE_TARGET_HD_PERS_HDD" DefaultHDPersHDDTarget ;;
      ssd <- GetEnvFloat "PRICE_TARGET_HD_PERS_SSD" DefaultHDPersSSDTarget ;;
      nvme <- GetEnvFloat "PRICE_TARGET_HD_PERS_NVME" DefaultHDPersNVMETarget ;;
      endpoint <- GetEnvFloat "PRICE_TARGET_ENDPOINT" DefaultEndpointTarget ;;
      ip <- GetEnvFloat "PRICE_TARGET_IP" DefaultIPTarget ;;
      ret (mkPriceTargets cpu memory ephemeral hdd ssd nvme endpoint ip gpuMappings)
  end.

Definition CalculateBlockRates (totalCostUsdTarget usdPerAkt : float64) (precision : Z)
    : float64 * float64 * string :=
  let totalCostAktTarget := div totalCostUsdTarget usdPerAkt in
  let totalCostUaktTarget := mul totalCostAktTarget (of_int 1000000) in
  let ratePerBlockUakt := div totalCostUaktTarget BlocksPerMonth in
  let ratePerBlockUsd := div totalCostUsdTarget BlocksPerMonth in
  let totalCostUaktStr := FormatFloat 16 ratePerBlockUakt ++ "uakt" in
  (ratePerBlockUakt, ratePerBlockUsd, totalCostUaktStr).

Definition HandleDenomLogic (denom : string) (ratePerBlockUakt ratePerBlockUsd : float64)
    (precision : Z) (amount : Dec) : result string :=
  if decide (denom = uaktDenom) then
    if gtb ratePerBlockUakt (MustFloat64 amount)
    then Err ("requested rate is too low. min expected "
              ++ FormatFloat precision ratePerBlockUakt ++ denom)
    else Ok (FormatFloat precision ratePerBlockUakt)
  else if decide (denom = ibcDenom1 \/ denom = ibcDenom2) then
    let ratePerBlockUsdNormalized := mul ratePerBlockUsd (of_int 1000000) in
    if gtb ratePerBlockUsdNormalized (MustFloat64 amount)
    then Err ("requested rate is too low. min expected "
              ++ FormatFloat precision ratePerBlockUsdNormalized ++ denom)
    else Ok (FormatFloat precision ratePerBlockUsdNormalized)
  else Err ("denom is not supported: " ++ denom).

Definition requestPrice (request : Request) : string * Dec :=
  match GSpec request with
  | Some g =>
      match gs_Resources g with
      | first :: _ => (coin_Denom (ru_Price first), coin_Amount (ru_Price first))
      | [] => ("", mkDec 0)
      end
  | None => ("", mkDec 0)
  end.

Definition RequestToBidPrice (request : Request) : M (result unit) :=
  emit (EvPrintRequest request) ;;;
  let owner := Owner request in
  if decide (owner = "") then ret (Err "request owner is not specified")
  else
    let '(denom, amount) := requestPrice request in
    if SpecialPricing owner then
      let specialRate := "1.00" in
      Println ("Special pricing rate per block (uakt): " ++ specialRate) ;;;
      ret (Ok tt)
    else
      wl <- CheckWhitelist owner ;;
      match wl with
      | Err e => ret (Err ("whitelist check failed: " ++ e))
      | Ok _ =>
          price <- GetAKTPrice ;;
          match price with
          | Err e => ret (Err ("error getting AKT price: " ++ e))
          | Ok usdPerAkt =>
              if (bool_decide (denom = "") || Dec_IsZero amount)%bool then
                Println "Price information is missing or incomplete" ;;;
                ret (Err "price information is missing or incomplete")
              else
                let precision :=
                  if PricePrecision request =? 0 then 6 else PricePrecision request in
                match GSpec request with
                | None => ret (Err "GroupSpec is nil in the request")
                | Some gSpec =>
                    priceTargets <- SetPriceTargets ;;
                    let maxGPUPrice := MaxGPUPrice (GPUMappings priceTargets) in
                    let totalGPUPrice :=
                      CalculateTotalGPUPrice gSpec (GPUMappings priceTargets) maxGPUPrice in
                    let resourceRequests := CalculateRequestedResources gSpec in
                    let totalCostUsdTarget :=
                      add (CalculateTotalCostUsdTarget resourceRequests priceTargets)
                          totalGPUPrice in
                    let '(_, _, finalRateStr) :=
                      CalculateBlockRates totalCostUsdTarget usdPerAkt precision in
                    Println ("Total cost per block (uakt, formatted): " ++ finalRateStr) ;;;
                    Println ("Total cost in USD: " ++ FormatFloat 2 totalCostUsdTarget
                             ++ "/month") ;;;
                    ret (Ok tt)
                end
          end
      end.

End Pricing.

(** ** An executable instance of the library functions

    Used to run the package on concrete inputs. *)

Module Concrete.

(** The float64 nearest to [n / d], for integers [n] and [d > 0] of any size
    (the division rounds once, from the exact quotient). *)
Definition nearest (n d : Z) : float64 :=
  match n, d with
  | Zpos a, Zpos b => div (S754_finite false a 0) (S754_finite false b 0)
  | Zneg a, Zpos b => div (S754_finite true a 0) (S754_finite false b 0)
  | _, _ => zero
  end.

Definition digitValue (c : ascii) : option Z :=
  let n := Z.of_nat (nat_of_ascii c) in
  if (48 <=? n) && (n <=? 57) then Some (n - 48) else None.

(** Reads decimal digits: the number read so far and how many were read. *)
Fixpoint readDigits (s : string) (acc : Z) (count : Z) : Z * Z * string :=
  match s with
  | EmptyString => (acc, count, s)
  | String c s' =>
      match digitValue c with
      | Some d => readDigits s' (10 * acc + d) (count + 1)
      | None => (acc, count, s)
      end
  end.

Definition syntaxError (s : string) : string :=
  "strconv.ParseFloat: parsing " ++ String quoteChar s
    ++ String quoteChar ": invalid syntax".

(** [strconv.ParseFloat] on plain decimal literals: an optional sign, digits,
    an optional fraction.  Exponents, hexadecimal literals, underscores and
    the spellings of infinity and NaN are not read by this instance. *)
Definition parseDecimal (s : string) : result float64 :=
  let '(neg, body) :=
    match s with
    | String "-" r => (true, r)
    | String "+" r => (false, r)
    | _ => (false, s)
    end in
  let '(ip, ni, rest) := readDigits body 0 0 in
  let '(fp, nf, rest) :=
    match rest with
    | String "." r => readDigits r ip 0
    | _ => (ip, 0, rest)
    end in
  if decide (rest = "") then
    if ni + nf =? 0 then Err (syntaxError s)
    else if fp =? 0 then Ok (S754_zero neg)
    else Ok (nearest (if neg then - fp else fp) (10 ^ nf))
  else Err (syntaxError s).

Definition digitChar (d : Z) : ascii := ascii_of_nat (Z.to_nat (48 + d)).

Fixpoint digitsOf (fuel : nat) (n : Z) (acc : string) : string :=
  match fuel with
  | O => acc
  | S fuel' =>
      let acc' := String (digitChar (n mod 10)) acc in
      if n / 10 =? 0 then acc' else digitsOf fuel' (n / 10) acc'
  end.

Definition showNat (n : Z) : string := digitsOf (S (Z.to_nat (Z.log2 n))) n "".

Fixpoint zeros (k : nat) : string :=
  match k with
  | O => EmptyString
  | S k' => String "0" (zeros k')
  end.

Definition padZeros (width : nat) (s : string) : string :=
  zeros (width - String.length s) ++ s.

(** [a / b] rounded to the nearest integer, ties to even. *)
Definition roundHalfEven (a b : Z) : Z :=
  let q := a / b in
  let r := a mod b in
  if (2 * r >? b) || ((2 * r =? b) && Z.odd q) then q + 1 else q.

(** [fmt.Sprintf] with [%.*f]: the exact decimal value rounded at
    [precision] fractional digits. *)
Definition formatFixed (precision : Z) (x : float64) : string :=
  match x with
  | S754_nan => "NaN"
  | S754_infinity s => if s then "-Inf" else "+Inf"
  | _ =>
      let '(s, a, b) :=
        match x with
        | S754_finite s m e =>
            if 0 <=? e then (s, Zpos m * 2 ^ e, 1) else (s, Zpos m, 2 ^ (- e))
        | S754_zero s => (s, 0, 1)
        | _ => (false, 0, 1)
        end in
      let scaled := roundHalfEven (a * 10 ^ precision) b in
      let ip := showNat (scaled / 10 ^ precision) in
      let fp := padZeros (Z.to_nat precision)
                         (showNat (scaled mod 10 ^ precision)) in
      (if s then "-" else "") ++ ip ++
      (if precision =? 0 then "" else "." ++ fp)
  end.

Definition decToFloat (d : Dec) : float64 := nearest (dec_i d) (10 ^ 18).

#[export] Instance lib : GoLib := {|
  ParseFloat := parseDecimal;
  FormatFloat := formatFixed;
  MustFloat64 := decToFloat
|}.

End Concrete.

(** ** Vocabulary of the properties *)

Section Segments.
Context {lib : GoLib}.

(** A segment of the form [key=number]: one ["="], and the text after it
    is accepted by [strconv.ParseFloat]. *)
Definition wellFormedPair (seg : string) : Prop :=
  exists key v : string,
    seg = (key ++ String "=" v)%string /\
    contains key "=" = false /\ contains v "=" = false /\
    is_err (ParseFloat v) = false.

End Segments.

(** Away from NaN, the order of binary64 values is the lexicographic order
    of [orderKey]. *)
Definition orderKey (x : float64) : Z * Z * Z :=
  match x with
  | S754_nan => (0, 0, 0)
  | S754_zero _ => (0, 0, 0)
  | S754_infinity true => (-2, 0, 0)
  | S754_infinity false => (2, 0, 0)
  | S754_finite true m e => (-1, - e, - Zpos m)
  | S754_finite false m e => (1, e, Zpos m)
  end.

Definition keyLt (a b : Z * Z * Z) : Prop :=
  let '(a1, a2, a3) := a in
  let '(b1, b2, b3) := b in
  a1 < b1 \/ (a1 = b1 /\ (a2 < b2 \/ (a2 = b2 /\ a3 < b3))).

(** [r] is the largest of the fallback constant and the values [vals]. *)
Definition isMaxWithDefault (vals : list float64) (r : float64) : Prop :=
  is_nan r = false /\ ltb r defaultMaxPrice = false /\
  Forall (fun p => gtb p r = false) vals /\
  (r = defaultMaxPrice \/ r ∈ vals).

(** The claim of the specification: [r] is the largest value of the mapping. *)
Definition isMaxOfValues (gpuMappings : gmap string float64) (r : float64) : Prop :=
  (exists k, gpuMappings !! k = Some r) /\
  forall k p, gpuMappings !! k = Some p -> gtb p r = false.

(** Storage totals as the specification words them: every storage entry of
    every unit, its class being the explicit class attribute when there is
    one and its name otherwise, counts [bytes / 2^30] (truncated) times the
    unit's repetition count towards the total of its class. *)
Definition specClass (storage : Storage) : string :=
  match List.find (fun a => bool_decide (attr_Key a = "class")) (sto_Attributes storage) with
  | Some a => attr_Value a
  | None => sto_Name storage
  end.

Definition storageEntries (gSpec : GroupSpec) : list (Z * Storage) :=
  flat_map (fun ru => map (fun s => (ru_Count ru, s)) (res_Storage (ru_Resources ru)))
           (gs_Resources gSpec).

Definition contribution (classes : list string) (entry : Z * Storage) : Z :=
  if bool_decide (specClass (snd entry) ∈ classes)
  then Z.quot (sto_Quantity (snd entry)) (2 ^ 30) * fst entry
  else 0.

Definition sumZ (l : list Z) : Z := fold_right Z.add 0 l.

Definition classTotal (classes : list string) (gSpec : GroupSpec) : Z :=
  Int64.wrap (sumZ (map (contribution classes) (storageEntries gSpec))).

Inductive StorageField : Type := FEphemeral | FHDD | FSSD | FNVMe.

Definition field (f : StorageField) (r : ResourceRequests) : Z :=
  match f with
  | FEphemeral => EphemeralStorageRequested r
  | FHDD => HDDPersStorageRequested r
  | FSSD => SSDPersStorageRequested r
  | FNVMe => NVMePersStorageRequested r
  end.

Definition classesOf (f : StorageField) : list string :=
  match f with
  | FEphemeral => ["ephemeral"; "default"]
  | FHDD => ["beta1"]
  | FSSD => ["beta2"]
  | FNVMe => ["beta3"]
  end.

Definition recognizedClasses : list string :=
  ["ephemeral"; "default"; "beta1"; "beta2"; "beta3"].

(** ** Concrete inputs used in the properties *)

Module Samples.

(** A GPU unit described by [model] and [ram] only, no interface. *)
Definition a100NoInterface : ResourceUnit :=
  mkResourceUnit
    (mkResources 1 None None []
       (Some (mkGPU 1 [mkAttribute "vendor/nvidia/model/a100/ram/80Gi" "true"])) [])
    1 (mkDecCoin "uakt" (mkDec (100000 * 10 ^ 18))).

(** The same unit with an interface attribute. *)
Definition a100Sxm4 : ResourceUnit :=
  mkResourceUnit
    (mkResources 1 None None []
       (Some (mkGPU 1 [mkAttribute "vendor/nvidia/model/a100/ram/80Gi/interface/sxm4" "true"])) [])
    1 (mkDecCoin "uakt" (mkDec (100000 * 10 ^ 18))).

Definition onlyModelPriced : gmap string float64 := {["a100" := of_int 200]}.

(** No endpoint answers. *)
Definition offline (url : string) : HTTPResult := HTTPError "no route to host".

(** The primary source answers with a JSON object that has no price field;
    the fallback source would answer with a price. *)
Definition primaryWithoutPrice (url : string) : HTTPResult :=
  if decide (url = primaryURL)
  then HTTPResponse 200 "200 OK" "{}" (Ok (JObject []))
  else if decide (url = fallbackURL)
  then HTTPResponse 200 "200 OK" "{...}"
         (Ok (JObject [("akash-network", JObject [("usd", JNumber (of_ratio 5 2))])]))
  else offline url.

Definition emptyWorld (http : string -> HTTPResult) : World :=
  mkWorld ∅ ∅ (fun _ => None) http [].

(** A world whose price cache was written [age] nanoseconds ago. *)
Definition cachedWorld (age : Z) (http : string -> HTTPResult) : World :=
  mkWorld ∅ {[cacheFilePath := mkFile age "2.500000"]} (fun _ => None) http [].

(** One unit: 100 milli-cores, 256 MiB of memory, 256 MiB of default
    storage, one endpoint; [denom] and a ceiling of 100000. *)
Definition smallUnit (denom : string) : ResourceUnit :=
  mkResourceUnit
    (mkResources 1 (Some (mkCPU 100 [])) (Some (mkMemory 268435456 []))
       [mkStorage "default" 268435456 []] None
       [mkEndpoint Endpoint_SHARED_HTTP 0])
    1 (mkDecCoin denom (mkDec (100000 * 10 ^ 18))).

Definition request (owner denom : string) : Request :=
  mkRequest owner (Some (mkGroupSpec "g" [smallUnit denom])) 6.

(** One unit of 20,000,000,001 milli-cores. *)
Definition hugeCPU : GroupSpec :=
  mkGroupSpec "g"
    [mkResourceUnit (mkResources 1 (Some (mkCPU 20000000001 [])) None [] None [])
                    1 (mkDecCoin "uakt" (mkDec (10 ^ 18)))].

End Samples.

(** What [GetAKTPrice] does when the cache gives no price: fetch, and on
    success overwrite the cache file. *)
Section Refresh.
Context {lib : GoLib}.

Definition cacheExpired (w : World) : Prop :=
  match w_files w !! cacheFilePath with
  | None => True
  | Some f => 60 * Minute < file_age f
  end.

Definition refresh : M (result float64) :=
  fun w =>
    match fetchPriceFromAPI w with
    | (Done (Ok price), w1) =>
        match w_writeError w1 cacheFilePath with
        | Some e => (Done (Err e), w1)
        | None =>
            (Done (Ok price),
             mkWorld (w_env w1)
                     (<[cacheFilePath := mkFile 0 (FormatFloat 6 price)]> (w_files w1))
                     (w_writeError w1) (w_http w1)
                     (w_trace w1 ++ [EvWriteFile cacheFilePath (FormatFloat 6 price)]))
        end
    | (Done (Err e), w1) => (Done (Err e), w1)
    | (Fatal msg, w1) => (Fatal msg, w1)
    end.

End Refresh.

(** The HTTP requests of a trace, in order. *)
Definition requestsOf (trace : list Event) : list string :=
  flat_map (fun e => match e with EvHttpGet url => [url] | _ => [] end) trace.

(** The rate that is compared with the ceiling, by denomination. *)
Definition comparedRate (denom : string) (ratePerBlockUakt ratePerBlockUsd : float64) : float64 :=
  if decide (denom = uaktDenom) then ratePerBlockUakt
  else mul ratePerBlockUsd (of_int 1000000).

Definition specialAccount1 : string := "akash1fxa9ss3dg6nqyz8aluyaa6svypgprk5tw9fa4q".
Definition specialAccount2 : string := "akash1fhe3uk7d95vvr69pna7cxmwa8777as46uyxcz8".

(** The world after [events] were appended to the trace. *)
Definition traced (w : World) (events : list Event) : World :=
  mkWorld (w_env w) (w_files w) (w_writeError w) (w_http w) (w_trace w ++ events).

(** The lines written to standard output in a trace, in order. *)
Definition stdoutOf (trace : list Event) : list string :=
  flat_map (fun e => match e with EvStdout line => [line] | _ => [] end) trace.

(** The errors [RequestToBidPrice] can return. *)
Definition bidError (e : string) : Prop :=
  e = "request owner is not specified" \/
  (exists e', e = "whitelist check failed: " ++ e') \/
  (exists e', e = "error getting AKT price: " ++ e') \/
  e = "price information is missing or incomplete" \/
  e = "GroupSpec is nil in the request".

(** ** Real values of binary64 numbers *)

Definition emin : Z := SpecFloat.emin prec emax.

Definition pow2 (e : Z) : R := powerRZ 2 e.

(** The real number a finite binary64 value stands for (0 for the others). *)
Definition F2R (x : float64) : R :=
  match x with
  | S754_finite s m e => ((if s then -1 else 1) * IZR (Zpos m) * pow2 e)%R
  | _ => 0%R
  end.

(** The relative error of one rounding that the lemmas below establish. *)
Definition eps : R := (/ IZR (2 ^ 52))%R.

(** A positive finite value whose mantissa has exactly 53 digits. *)
Definition canonical (x : float64) (m : positive) (e : Z) : Prop :=
  x = S754_finite false m e /\ digits2_pos m = 53%positive.

(** ** The CPU total *)

(** The CPU part of one iteration of the loop of
    [CalculateRequestedResources]. *)
Definition cpuStep (acc : float64) (resourceUnit : ResourceUnit) : float64 :=
  CPURequested (addCPU resourceUnit
                  (mkResourceRequests acc zero 0 0 0 0 0 0)).

(** Milli-cores times repetition count, and their sum over the units. *)
Definition milliOf (resourceUnit : ResourceUnit) : Z :=
  match res_CPU (ru_Resources resourceUnit) with
  | None => 0
  | Some c => cpu_Units c * ru_Count resourceUnit
  end.

Definition totalMilli (gSpec : GroupSpec) : Z := sumZ (map milliOf (gs_Resources gSpec)).

(** The invariant of the data model: quantities are not negative and the
    repetition count, a [uint32], is at least 1. *)
Definition wellFormedUnit (resourceUnit : ResourceUnit) : Prop :=
  1 <= ru_Count resourceUnit < 2 ^ 32 /\
  forall c, res_CPU (ru_Resources resourceUnit) = Some c -> 0 <= cpu_Units c.

(** The running total [acc] after [k] units whose exact total is [s]
    milli-cores, [B] bounding every total. *)
Definition cpuInvariant (B : R) (k s : Z) (acc : float64) : Prop :=
  (acc = zero /\ s = 0) \/
  (exists m e, canonical acc m e /\ -200 <= e /\ 0 < s /\
     (Rabs (F2R acc - IZR s / 1000) <= eps * (2.1 * (IZR s / 1000) + 1.01 * IZR k * B))%R).

(** ** The ceiling of a request

    The ceiling is an [sdk.Dec]: a decimal with 18 fractional digits, whose
    integer [dec_i] has at most 316 bits.  [Dec.MustFloat64] reads the
    decimal text of the amount with [strconv.ParseFloat], which gives the
    binary64 value nearest to the decimal: [Concrete.decToFloat]. *)

(** The exact value of a decimal, [dec_i] divided by 10^18. *)
Definition decValue (d : Dec) : R := (IZR (dec_i d) / 1000000000000000000)%R.

(** ** Vocabulary of the further properties *)

(** The attribute key of a GPU descriptor as deployments write it:
    vendor, model, memory size and interface. *)
Definition descriptorKey (vendor gpuModel gpuRam gpuInterface : string) : string :=
  "vendor/" ++ vendor ++ "/model/" ++ gpuModel ++ "/ram/" ++ gpuRam
    ++ "/interface/" ++ gpuInterface.

(** What [fetchPriceFromURL] makes of an answer: the error of the transport
    or of the JSON decoder, or else the price [extractPrice] finds.  The
    status code is not looked at. *)
Definition priceOf (answer : HTTPResult) : result float64 :=
  match answer with
  | HTTPError e => Err e
  | HTTPResponse _ _ _ (Err e) => Err e
  | HTTPResponse _ _ _ (Ok data) => Ok (extractPrice data)
  end.

Section CacheState.
Context {lib : GoLib}.

(** The cache gives no price: there is no file, the file is older than 60
    minutes, or [strconv.ParseFloat] rejects its content. *)
Definition cacheUnusable (w : World) : Prop :=
  match w_files w !! cacheFilePath with
  | None => True
  | Some f => 60 * Minute < file_age f \/ is_err (ParseFloat (file_data f)) = true
  end.

End CacheState.

Module MoreSamples.

(** The primary source answers 0.1234567 USD. *)
Definition sevenDigits (url : string) : HTTPResult :=
  if decide (url = primaryURL)
  then HTTPResponse 200 "200 OK" "{...}"
         (Ok (JObject [("price", JNumber (of_ratio 1234567 10000000))]))
  else Samples.offline url.

(** A fresh cache file that holds no number. *)
Definition corruptCache (http : string -> HTTPResult) : World :=
  mkWorld ∅ {[cacheFilePath := mkFile 0 "n/a"]} (fun _ => None) http [].


End MoreSamples.

(** The whitelist URL in use: [WHITELIST_URL] without the double quotes
    around it. *)
Definition whitelistURLOf (w : World) : string :=
  TrimQuotes (default "" (w_env w !! "WHITELIST_URL")).

(** The whitelist file has to be fetched: it does not exist or is older
    than 10 minutes. *)
Definition whitelistStale (w : World) : Prop :=
  match w_files w !! whitelistFilePath with
  | None => True
  | Some f => 10 * Minute < file_age f
  end.



Module WhitelistSamples.

Definition url : string := "https://example.org/whitelist.txt".

(** Two accounts, one per line, the second with white space around it. *)
Definition body : string :=
  "akash1aaa" ++ String (ascii_of_nat 10)
    ("  akash1bbb " ++ String (ascii_of_nat 13) (String (ascii_of_nat 10) "")).

Definition serves (answer : HTTPResult) (u : string) : HTTPResult :=
  if decide (u = url) then answer else Samples.offline u.

(** [WHITELIST_URL] is set, with quotes around it; [AKASH_OWNER] is
    [envOwner]; the whitelist file, if any, is [file]. *)
Definition world (envOwner : string) (file : option File) (http : string -> HTTPResult)
    : World :=
  mkWorld (<["WHITELIST_URL" := String quoteChar (url ++ String quoteChar "")]>
             (<["AKASH_OWNER" := envOwner]> ∅))
          (match file with
           | Some f => {[whitelistFilePath := f]}
           | None => ∅
           end)
          (fun _ => None) http [].

End WhitelistSamples.



(** Endpoints as the loop of [CalculateRequestedResources] counts them:
    the repetition count of the unit once per endpoint, and once more per
    endpoint of kind leased IP for the addresses. *)
Definition isLeasedIP (endpoint : Endpoint) : bool :=
  match ep_Kind endpoint with
  | Endpoint_LEASED_IP => true
  | _ => false
  end.

Definition endpointsOf (resourceUnit : ResourceUnit) : Z :=
  ru_Count resourceUnit * Z.of_nat (length (res_Endpoints (ru_Resources resourceUnit))).

Definition leasedIPsOf (resourceUnit : ResourceUnit) : Z :=
  ru_Count resourceUnit
  * Z.of_nat (length (List.filter isLeasedIP (res_Endpoints (ru_Resources resourceUnit)))).

(** A unit that asks for nothing the loop counts. *)
Definition emptyUnit (resourceUnit : ResourceUnit) : Prop :=
  res_CPU (ru_Resources resourceUnit) = None /\
  res_Memory (ru_Resources resourceUnit) = None /\
  res_Storage (ru_Resources resourceUnit) = [] /\
  res_Endpoints (ru_Resources resourceUnit) = [].

(** Neither infinite nor NaN. *)
Definition isFinite (x : float64) : bool :=
  match x with
  | S754_zero _ | S754_finite _ _ _ => true
  | _ => false
  end.

Definition finiteTargets (priceTargets : PriceTargets) : Prop :=
  isFinite (CPUTarget priceTargets) = true /\
  isFinite (MemoryTarget priceTargets) = true /\
  isFinite (HDEphemeralTarget priceTargets) = true /\
  isFinite (HDPersHDDTarget priceTargets) = true /\
  isFinite (HDPersSSDTarget priceTargets) = true /\
  isFinite (HDPersNVMETarget priceTargets) = true /\
  isFinite (EndpointTarget priceTargets) = true /\
  isFinite (IPTarget priceTargets) = true.

Section Targets.
Context {lib : GoLib}.

(** The value [GetEnvFloat] returns in a given environment. *)
Definition envFloat (env : gmap string string) (envVar : string) (defaultValue : float64)
    : float64 :=
  match env !! envVar with
  | Some val =>
      match ParseFloat val with
      | Ok floatVal => floatVal
      | Err _ => defaultValue
      end
  | None => defaultValue
  end.

Definition targetsOf (env : gmap string string) (gpuMappings : gmap string float64)
    : PriceTargets :=
  mkPriceTargets
    (envFloat env "PRICE_TARGET_CPU" DefaultCPUTarget)
    (envFloat env "PRICE_TARGET_MEMORY" DefaultMemoryTarget)
    (envFloat env "PRICE_TARGET_HD_EPHEMERAL" DefaultHDEphemeralTarget)
    (envFloat env "PRICE_TARGET_HD_PERS_HDD" DefaultHDPersHDDTarget)
    (envFloat env "PRICE_TARGET_HD_PERS_SSD" DefaultHDPersSSDTarget)
    (envFloat env "PRICE_TARGET_HD_PERS_NVME" DefaultHDPersNVMETarget)
    (envFloat env "PRICE_TARGET_ENDPOINT" DefaultEndpointTarget)
    (envFloat env "PRICE_TARGET_IP" DefaultIPTarget)
    gpuMappings.

End Targets.

(** The errors [RequestToBidPrice] does return. *)
Definition returnedError (e : string) : Prop :=
  e = "request owner is not specified" \/
  (exists e', e = "whitelist check failed: " ++ e') \/
  (exists e', e = "error getting AKT price: " ++ e') \/
  e = "price information is missing or incomplete".

(** What a request asks for, without the prices offered: the resources of
    every unit and its repetition count. *)
Definition resourcesOf (request : Request) : list (Resources * Z) :=
  match GSpec request with
  | Some gSpec =>
      map (fun resourceUnit => (ru_Resources resourceUnit, ru_Count resourceUnit))
          (gs_Resources gSpec)
  | None => []
  end.

(** The test of [RequestToBidPrice] on the price of the first unit. *)
Definition priceMissing (request : Request) : bool :=
  (bool_decide (fst (requestPrice request) = "") || Dec_IsZero (snd (requestPrice request)))%bool.

(** What a trace shows apart from the echo of the request: the lines
    printed, the requests sent and the files written. *)
Definition visible (trace : list Event) : list Event :=
  List.filter (fun e => match e with EvPrintRequest _ => false | _ => true end) trace.

(** Two worlds that differ at most in the requests echoed. *)
Definition sameOutside (w1 w2 : World) : Prop :=
  w_env w1 = w_env w2 /\ w_files w1 = w_files w2 /\
  w_writeError w1 = w_writeError w2 /\ w_http w1 = w_http w2 /\
  visible (w_trace w1) = visible (w_trace w2).

(** A computation that does not look at the requests echoed. *)
Definition respects {A} (m : M A) : Prop :=
  forall w1 w2, sameOutside w1 w2 ->
    fst (m w1) = fst (m w2) /\ sameOutside (snd (m w1)) (snd (m w2)).

(** Two runs that return the same and end in worlds that differ at most in
    the requests echoed. *)
Definition agree {A} (x y : outcome A * World) : Prop :=
  fst x = fst y /\ sameOutside (snd x) (snd y).

(** ** The memory total *)

(** The memory part of one iteration of the loop of
    [CalculateRequestedResources]. *)
Definition memoryStep (acc : float64) (resourceUnit : ResourceUnit) : float64 :=
  MemoryRequested (addMemory resourceUnit
                     (mkResourceRequests zero acc 0 0 0 0 0 0)).

(** Bytes times repetition count, and their sum over the units. *)
Definition bytesOf (resourceUnit : ResourceUnit) : Z :=
  match res_Memory (ru_Resources resourceUnit) with
  | None => 0
  | Some m => mem_Quantity m * ru_Count resourceUnit
  end.

Definition totalBytes (gSpec : GroupSpec) : Z := sumZ (map bytesOf (gs_Resources gSpec)).

Definition wellFormedMemory (resourceUnit : ResourceUnit) : Prop :=
  1 <= ru_Count resourceUnit < 2 ^ 32 /\
  forall m, res_Memory (ru_Resources resourceUnit) = Some m -> 0 <= mem_Quantity m.

(** The running total [acc] after [k] units whose exact total is [s] bytes,
    [B] bounding every total; 1073741824 is 2^30. *)
Definition memoryInvariant (B : R) (k s : Z) (acc : float64) : Prop :=
  (acc = zero /\ s = 0) \/
  (exists m e, canonical acc m e /\ -200 <= e /\ 0 < s /\
     (Rabs (F2R acc - IZR s / 1073741824)
      <= eps * (2.1 * (IZR s / 1073741824) + 1.01 * IZR k * B))%R).


(** * Properties *)

(** ** [Split] and [Join] *)

Lemma Split_not_nil (s : string) (sep : ascii) : Split s sep <> [].
Proof.
  destruct s as [|c s]; simpl; [discriminate|].
  destruct (Ascii.eqb c sep); [discriminate|].
  destruct (Split s sep); discriminate.
Qed.

Lemma Join_cons (x : string) (l : list string) (sep : ascii) :
  l <> [] -> Join (x :: l) sep = (x ++ String sep (Join l sep))%string.
Proof. destruct l; [congruence | reflexivity]. Qed.

Lemma Split_Join (s : string) (sep : ascii) : Join (Split s sep) sep = s.
Proof.
  induction s as [|c s IH]; simpl; [reflexivity|].
  destruct (Ascii.eqb c sep) eqn:E.
  - apply Ascii.eqb_eq in E. subst c.
    rewrite Join_cons by apply Split_not_nil. simpl. now rewrite IH.
  - destruct (Split s sep) as [|h t] eqn:S; [now apply Split_not_nil in S|].
    destruct t as [|h' t].
    + simpl in *. now rewrite IH.
    + change (Join (String c h :: h' :: t) sep)
        with (String c (Join (h :: h' :: t) sep)).
      now rewrite IH.
Qed.

Lemma Split_no_sep (s : string) (sep : ascii) :
  Forall (fun x => contains x sep = false) (Split s sep).
Proof.
  induction s as [|c s IH]; simpl.
  - repeat constructor.
  - destruct (Ascii.eqb c sep) eqn:E.
    + constructor; [reflexivity | exact IH].
    + destruct (Split s sep) as [|h t]; [repeat constructor; simpl; now rewrite E|].
      inversion IH; subst. constructor; [simpl; now rewrite E | assumption].
Qed.

Lemma Split_without_sep (s : string) (sep : ascii) :
  contains s sep = false -> Split s sep = [s].
Proof.
  induction s as [|c s IH]; simpl; [reflexivity|].
  destruct (Ascii.eqb c sep); simpl; [discriminate|].
  intros Hs. now rewrite IH.
Qed.

Lemma Split_app (k v : string) (sep : ascii) :
  contains k sep = false ->
  Split (k ++ String sep v) sep = k :: Split v sep.
Proof.
  induction k as [|c k IH]; simpl.
  - intros _. now rewrite Ascii.eqb_refl.
  - destruct (Ascii.eqb c sep); simpl; [discriminate|].
    intros Hk. now rewrite IH.
Qed.

(** A string splits in exactly two parts when it holds exactly one separator. *)
Lemma Split_two (s k v : string) (sep : ascii) :
  Split s sep = [k; v] <->
  s = (k ++ String sep v)%string /\ contains k sep = false /\ contains v sep = false.
Proof.
  split.
  - intros E. pose proof (Split_no_sep s sep) as F. pose proof (Split_Join s sep) as J.
    rewrite E in F, J. simpl in J.
    inversion F as [|? ? Hk F' E1]. inversion F' as [|? ? Hv F'' E2]. auto.
  - intros (-> & Hk & Hv). rewrite Split_app by assumption.
    now rewrite Split_without_sep.
Qed.

(** ** [ParseGPUPriceMappings] *)

Section ParseGPUPriceMappings_facts.
Context {lib : GoLib}.


Lemma wellFormedPair_Split (seg : string) :
  wellFormedPair seg <->
  exists key v value, Split seg "=" = [key; v] /\ ParseFloat v = Ok value.
Proof.
  split.
  - intros (key & v & E & Hk & Hv & P).
    destruct (ParseFloat v) as [value|] eqn:PF; [|discriminate].
    exists key, v, value. split; [|assumption]. apply Split_two. auto.
  - intros (key & v & value & S & PF). apply Split_two in S as (E & Hk & Hv).
    exists key, v. rewrite PF. auto.
Qed.

Lemma parsePairs_error_iff (pairs : list string) (m : gmap string float64) :
  is_err (parsePairs pairs m) = true <->
  exists seg, In seg pairs /\ seg <> "" /\ ~ wellFormedPair seg.
Proof.
  revert m. induction pairs as [|p rest IH]; intros m; simpl.
  - split; [discriminate | intros (seg & [] & _)].
  - destruct (decide (p = "")) as [->|Hp].
    + rewrite IH. split.
      * intros (seg & Hin & Hne & Hwf). exists seg. auto.
      * intros (seg & [<-|Hin] & Hne & Hwf); [congruence|]. exists seg. auto.
    + destruct (Split p "=") as [|key [|v [|x l]]] eqn:S.
      1,2,4: split; [intros _; exists p; split; [now left|]; split; [assumption|];
                    rewrite wellFormedPair_Split; intros (k' & v' & val & S' & _);
                    congruence | reflexivity].
      destruct (ParseFloat v) as [value|e] eqn:PF.
      * rewrite IH. split.
        -- intros (seg & Hin & Hne & Hwf). exists seg. auto.
        -- intros (seg & [<-|Hin] & Hne & Hwf).
           ++ exfalso. apply Hwf, wellFormedPair_Split. eauto.
           ++ exists seg. auto.
      * split; [|reflexivity]. intros _. exists p. split; [now left|].
        split; [assumption|]. rewrite wellFormedPair_Split.
        intros (k' & v' & val & S' & PF'). congruence.
Qed.

Lemma parsePairs_skips_empty (pairs : list string) (m : gmap string float64) :
  parsePairs pairs m = parsePairs (List.filter (fun s => negb (bool_decide (s = ""))) pairs) m.
Proof.
  revert m. induction pairs as [|p rest IH]; intros m; simpl; [reflexivity|].
  destruct (decide (p = "")) as [->|Hp]; simpl; [apply IH|].
  rewrite bool_decide_eq_false_2 by assumption. simpl.
  destruct (decide (p = "")); [contradiction|].
  destruct (Split p "=") as [|key [|v [|x l]]]; try reflexivity.
  destruct (ParseFloat v); [apply IH | reflexivity].
Qed.

(** C10.  [ParseGPUPriceMappings] returns an error exactly when some
    non-empty comma-separated segment of the input is not of the form
    [key=number]; empty segments (leading, trailing or consecutive commas)
    are skipped, and the empty input gives the empty mapping. *)
Theorem ParseGPUPriceMappings_error_iff (mappingStr : string) :
  (is_err (ParseGPUPriceMappings mappingStr) = true <->
   exists seg, In seg (Split mappingStr ",") /\ seg <> "" /\ ~ wellFormedPair seg)
  /\ ParseGPUPriceMappings "" = Ok ∅
  /\ ParseGPUPriceMappings mappingStr =
     parsePairs (List.filter (fun s => negb (bool_decide (s = "")))
                             (Split mappingStr ",")) ∅.
Proof.
  unfold ParseGPUPriceMappings. split; [|split].
  - destruct (decide (mappingStr = "")) as [->|Hne].
    + simpl. split; [discriminate|].
      intros (seg & [<-|[]] & Hne & _). congruence.
    + apply parsePairs_error_iff.
  - reflexivity.
  - destruct (decide (mappingStr = "")) as [->|Hne]; [reflexivity|].
    apply parsePairs_skips_empty.
Qed.

End ParseGPUPriceMappings_facts.

(** ** The order of binary64 values *)

Lemma ltb_orderKey (x y : float64) :
  is_nan x = false -> is_nan y = false ->
  (ltb x y = true <-> keyLt (orderKey x) (orderKey y)).
Proof.
  unfold ltb, SFltb.
  destruct x as [sx|sx| |sx mx ex], y as [sy|sy| |sy my ey]; simpl;
    try discriminate; intros _ _;
    repeat match goal with s : bool |- _ => destruct s end; simpl;
    try (destruct (Z.compare_spec ex ey);
         [subst ey; change (Pos.compare_cont Eq mx my) with (Pos.compare mx my);
          destruct (Pos.compare_spec mx my) | | ]);
    simpl; (split; intros ?; first [reflexivity | discriminate | lia]).
Qed.

Lemma ltb_not_nan (x y : float64) :
  ltb x y = true -> is_nan x = false /\ is_nan y = false.
Proof.
  unfold ltb, SFltb.
  destruct x, y; simpl; try discriminate; auto.
Qed.

Lemma ltb_irrefl (x : float64) : ltb x x = false.
Proof.
  destruct (ltb x x) eqn:E; [|reflexivity].
  destruct (ltb_not_nan _ _ E) as [Hx _].
  apply ltb_orderKey in E; [|assumption..].
  unfold keyLt in E. destruct (orderKey x) as [[a b] c]. lia.
Qed.

Lemma ltb_trans (x y z : float64) :
  ltb x y = true -> ltb y z = true -> ltb x z = true.
Proof.
  intros Hxy Hyz.
  destruct (ltb_not_nan _ _ Hxy) as [Hx Hy], (ltb_not_nan _ _ Hyz) as [_ Hz].
  apply ltb_orderKey in Hxy, Hyz; try assumption.
  apply ltb_orderKey; try assumption.
  unfold keyLt in *.
  destruct (orderKey x) as [[a1 a2] a3], (orderKey y) as [[b1 b2] b3],
           (orderKey z) as [[c1 c2] c3]. lia.
Qed.

(** Two values that are not NaN and not below one another are the same
    value, unless both are zeros. *)
Lemma ltb_antisym (x y : float64) :
  is_nan x = false -> is_nan y = false ->
  ltb x y = false -> ltb y x = false ->
  ltb zero x = true -> x = y.
Proof.
  intros Hx Hy Hxy Hyx Hpos.
  assert (Kxy : ~ keyLt (orderKey x) (orderKey y))
    by (rewrite <- ltb_orderKey by assumption; congruence).
  assert (Kyx : ~ keyLt (orderKey y) (orderKey x))
    by (rewrite <- ltb_orderKey by assumption; congruence).
  apply ltb_orderKey in Hpos; [|reflexivity|assumption].
  destruct x as [sx|[]| |[] mx ex], y as [sy|[]| |[] my ey];
    simpl in *; try discriminate; try lia.
  - reflexivity.
  - assert (ex = ey /\ Zpos mx = Zpos my) as [-> E] by lia.
    now inversion E.
Qed.

(** ** [MaxGPUPrice] *)


Lemma above_default_positive (r : float64) :
  is_nan r = false -> ltb r defaultMaxPrice = false -> ltb zero r = true.
Proof.
  intros Hr Hd.
  assert (K : ~ keyLt (orderKey r) (orderKey defaultMaxPrice)).
  { rewrite <- ltb_orderKey by (assumption || reflexivity). congruence. }
  apply ltb_orderKey; [reflexivity | assumption |].
  replace (orderKey defaultMaxPrice) with (1, -46, 7036874417766400) in K
    by (vm_compute; reflexivity).
  simpl. unfold keyLt in *. destruct (orderKey r) as [[a b] c]. lia.
Qed.

Lemma maxStep_spec (seen : list float64) (acc p : float64) :
  isMaxWithDefault seen acc -> isMaxWithDefault (seen ++ [p]) (maxStep acc p).
Proof.
  intros (Hn & Hd & Hall & Hin). unfold isMaxWithDefault, maxStep, gtb in *.
  destruct (ltb acc p) eqn:E.
  - destruct (ltb_not_nan _ _ E) as [_ Hp]. repeat split.
    + assumption.
    + destruct (ltb p defaultMaxPrice) eqn:E'; [|reflexivity].
      now rewrite (ltb_trans _ _ _ E E') in Hd.
    + apply Forall_app. split; [|repeat constructor; apply ltb_irrefl].
      eapply Forall_impl; [exact Hall|]. intros q Hq. simpl in Hq.
      destruct (ltb p q) eqn:E'; [|reflexivity].
      now rewrite (ltb_trans _ _ _ E E') in Hq.
    + right. apply elem_of_app. right. now apply list_elem_of_singleton.
  - repeat split; try assumption.
    + apply Forall_app. split; [assumption | now repeat constructor].
    + destruct Hin as [->|Hin]; [now left | right; apply elem_of_app; now left].
Qed.

Lemma fold_maxStep_spec (entries : list (string * float64)) :
  forall (seen : list float64) (acc : float64),
    isMaxWithDefault seen acc ->
    isMaxWithDefault (seen ++ map snd entries)
      (fold_left (fun maxPrice kv => maxStep maxPrice (snd kv)) entries acc).
Proof.
  induction entries as [|[k p] rest IH]; intros seen acc Hacc; simpl.
  - now rewrite app_nil_r.
  - replace (seen ++ p :: map snd rest)%list with ((seen ++ [p]) ++ map snd rest)%list
      by now rewrite <- app_assoc.
    apply IH. now apply maxStep_spec.
Qed.

Lemma MaxGPUPrice_visit_spec (entries : list (string * float64)) :
  isMaxWithDefault (map snd entries) (MaxGPUPrice_visit entries).
Proof.
  apply (fold_maxStep_spec entries [] defaultMaxPrice).
  repeat split; [constructor | now left].
Qed.

Lemma isMaxWithDefault_unique (vals : list float64) (r1 r2 : float64) :
  isMaxWithDefault vals r1 -> isMaxWithDefault vals r2 -> r1 = r2.
Proof.
  unfold isMaxWithDefault, gtb.
  intros (N1 & D1 & A1 & I1) (N2 & D2 & A2 & I2).
  rewrite Forall_forall in A1, A2.
  apply ltb_antisym; try assumption.
  - destruct I2 as [->|I2]; [assumption | now apply A1].
  - destruct I1 as [->|I1]; [assumption | now apply A2].
  - now apply above_default_positive.
Qed.

Lemma isMaxWithDefault_perm (vals vals' : list float64) (r : float64) :
  vals ≡ₚ vals' -> isMaxWithDefault vals r -> isMaxWithDefault vals' r.
Proof.
  intros P (N & D & A & I). repeat split; try assumption.
  - now rewrite <- P.
  - destruct I as [->|I]; [now left | right; now rewrite <- P].
Qed.

(** C5 (as amended).  [MaxGPUPrice] is the largest of the fixed constant
    100.0 and the values of the mapping: it is never below 100.0, never
    below a configured value, it is 100.0 or one of the values, it is 100.0
    for the empty mapping, and it does not depend on the order in which the
    entries are visited. *)
Theorem MaxGPUPrice_max_with_default (gpuMappings : gmap string float64) :
  let r := MaxGPUPrice gpuMappings in
  is_nan r = false /\
  ltb r defaultMaxPrice = false /\
  (forall k p, gpuMappings !! k = Some p -> gtb p r = false) /\
  (r = defaultMaxPrice \/ exists k, gpuMappings !! k = Some r) /\
  (gpuMappings = ∅ -> r = defaultMaxPrice) /\
  (forall entries, entries ≡ₚ map_to_list gpuMappings -> MaxGPUPrice_visit entries = r).
Proof.
  intros r. pose proof (MaxGPUPrice_visit_spec (map_to_list gpuMappings)) as S.
  fold (MaxGPUPrice gpuMappings) in S. fold r in S.
  destruct S as (N & D & A & I). rewrite Forall_forall in A.
  repeat split; try assumption.
  - intros k p Hk. apply A. apply list_elem_of_In, in_map_iff. exists (k, p).
    split; [reflexivity|]. now apply list_elem_of_In, elem_of_map_to_list.
  - destruct I as [->|I]; [now left|right].
    apply list_elem_of_In, in_map_iff in I as ([k p] & E & Hin). simpl in E. subst p.
    exists k. now apply list_elem_of_In, elem_of_map_to_list in Hin.
  - intros ->. subst r. unfold MaxGPUPrice. now rewrite map_to_list_empty.
  - intros entries P.
    apply (isMaxWithDefault_unique (map snd (map_to_list gpuMappings))).
    + eapply isMaxWithDefault_perm; [|apply MaxGPUPrice_visit_spec].
      now apply Permutation_map.
    + apply MaxGPUPrice_visit_spec.
Qed.

(** C5 (as stated) fails: with the single entry a100 = 50.0 the result is
    100.0, which is not a value of the mapping. *)
Lemma MaxGPUPrice_not_max_of_values :
  ~ (forall gpuMappings : gmap string float64,
       gpuMappings <> ∅ -> isMaxOfValues gpuMappings (MaxGPUPrice gpuMappings)).
Proof.
  intros C.
  destruct (C {["a100" := of_int 50]}) as [(k & Hk) _].
  - intros E. apply (f_equal (fun m => m !! "a100")) in E.
    rewrite lookup_singleton_eq, lookup_empty in E. discriminate.
  - replace (MaxGPUPrice {["a100" := of_int 50]}) with (of_int 100) in Hk
      by (vm_compute; reflexivity).
    apply lookup_singleton_Some in Hk as [_ E]. vm_compute in E. discriminate.
Qed.

(** ** int64 wrap-around *)

Lemma wrap_range (z : Z) : - Int64.half <= Int64.wrap z < Int64.half.
Proof.
  unfold Int64.wrap.
  pose proof (Z.mod_pos_bound (z + Int64.half) Int64.modulus eq_refl) as B.
  change Int64.modulus with (2 * Int64.half) in *. lia.
Qed.

Lemma wrap_small (z : Z) : - Int64.half <= z < Int64.half -> Int64.wrap z = z.
Proof.
  intros B. unfold Int64.wrap. rewrite Z.mod_small; [lia|].
  change Int64.modulus with (2 * Int64.half). lia.
Qed.

Lemma wrap_congr (a b k : Z) : a = b + k * Int64.modulus -> Int64.wrap a = Int64.wrap b.
Proof.
  intros ->. unfold Int64.wrap.
  replace (b + k * Int64.modulus + Int64.half) with (b + Int64.half + k * Int64.modulus) by lia.
  now rewrite Z.mod_add by discriminate.
Qed.

Lemma wrap_decompose (z : Z) : exists k, Int64.wrap z = z + k * Int64.modulus.
Proof.
  exists (- ((z + Int64.half) / Int64.modulus)). unfold Int64.wrap.
  rewrite Z.mod_eq by discriminate. lia.
Qed.

Lemma wrap_add_l (a b : Z) : Int64.wrap (Int64.wrap a + b) = Int64.wrap (a + b).
Proof.
  destruct (wrap_decompose a) as [k ->]. apply (wrap_congr _ _ k). lia.
Qed.

Lemma wrap_add_r (a b : Z) : Int64.wrap (a + Int64.wrap b) = Int64.wrap (a + b).
Proof. rewrite Z.add_comm, wrap_add_l. f_equal. lia. Qed.

Lemma wrap_mul_l (a b : Z) : Int64.wrap (Int64.wrap a * b) = Int64.wrap (a * b).
Proof.
  destruct (wrap_decompose a) as [k ->]. apply (wrap_congr _ _ (k * b)). lia.
Qed.

(** ** Storage totals of [CalculateRequestedResources] *)

Lemma classAttribute_find (attrs : list Attribute) :
  classAttribute attrs =
  option_map attr_Value (List.find (fun a => bool_decide (attr_Key a = "class")) attrs).
Proof.
  induction attrs as [|a rest IH]; simpl; [reflexivity|].
  destruct (decide (attr_Key a = "class")) as [E|E].
  - now rewrite bool_decide_eq_true_2.
  - now rewrite bool_decide_eq_false_2.
Qed.

Lemma storageClassOf_specClass (storage : Storage) :
  storageClassOf storage = specClass storage.
Proof.
  unfold storageClassOf, specClass. rewrite classAttribute_find.
  now destruct (List.find _ _).
Qed.

Lemma addStorage_field (f : StorageField) (count : Z) (r : ResourceRequests) (s : Storage) :
  field f (addStorage count r s) =
  if bool_decide (specClass s ∈ classesOf f)
  then Int64.add (field f r) (Int64.mul (Int64.quot (sto_Quantity s) bytesPerGB) count)
  else field f r.
Proof.
  unfold addStorage. rewrite storageClassOf_specClass.
  destruct (decide (specClass s = "ephemeral" \/ specClass s = "default")) as [[E|E]|N0];
    [rewrite E; now destruct f..|].
  destruct (decide (specClass s = "beta1")) as [E|N1]; [rewrite E; now destruct f|].
  destruct (decide (specClass s = "beta2")) as [E|N2]; [rewrite E; now destruct f|].
  destruct (decide (specClass s = "beta3")) as [E|N3]; [rewrite E; now destruct f|].
  rewrite bool_decide_eq_false_2; [reflexivity|].
  destruct f; simpl; rewrite ?elem_of_cons, elem_of_nil; tauto.
Qed.

Lemma addStorage_unrecognized (count : Z) (r : ResourceRequests) (s : Storage) :
  specClass s ∉ recognizedClasses -> addStorage count r s = r.
Proof.
  intros N. unfold addStorage. rewrite storageClassOf_specClass.
  unfold recognizedClasses in N. rewrite !elem_of_cons, elem_of_nil in N.
  repeat (destruct (decide _) as [?|?]; [exfalso; tauto|]). reflexivity.
Qed.

Lemma sumZ_app (l1 l2 : list Z) : sumZ (l1 ++ l2) = sumZ l1 + sumZ l2.
Proof. induction l1 as [|x l1 IH]; simpl; [reflexivity | rewrite IH; lia]. Qed.

Lemma fold_addStorage_field (f : StorageField) (count : Z) (l : list Storage) :
  forall (r : ResourceRequests) (X : Z),
    field f r = Int64.wrap X ->
    field f (fold_left (addStorage count) l r) =
    Int64.wrap (X + sumZ (map (contribution (classesOf f)) (map (fun s => (count, s)) l))).
Proof.
  induction l as [|s l IH]; intros r X HX; simpl.
  - now rewrite Z.add_0_r.
  - rewrite (IH _ (X + contribution (classesOf f) (count, s))).
    + f_equal. lia.
    + rewrite addStorage_field, HX. unfold contribution. simpl.
      destruct (bool_decide (specClass s ∈ classesOf f)).
      * unfold Int64.add, Int64.mul, Int64.quot. change bytesPerGB with (2 ^ 30).
        now rewrite wrap_mul_l, wrap_add_l, wrap_add_r.
      * now rewrite Z.add_0_r.
Qed.

Lemma fold_addEndpoint_field (f : StorageField) (count : Z) (l : list Endpoint) :
  forall r : ResourceRequests,
    field f (fold_left (addEndpoint count) l r) = field f r.
Proof.
  induction l as [|e l IH]; intros r; simpl; [reflexivity|].
  rewrite IH. now destruct f.
Qed.

Lemma addResourceUnit_field (f : StorageField) (r : ResourceRequests) (ru : ResourceUnit) (X : Z) :
  field f r = Int64.wrap X ->
  field f (addResourceUnit r ru) =
  Int64.wrap (X + sumZ (map (contribution (classesOf f))
                            (map (fun s => (ru_Count ru, s)) (res_Storage (ru_Resources ru))))).
Proof.
  intros HX. unfold addResourceUnit.
  rewrite fold_addEndpoint_field. apply fold_addStorage_field.
  unfold addMemory, addCPU.
  destruct (res_Memory _), (res_CPU _); destruct f; exact HX.
Qed.

Lemma fold_addResourceUnit_field (f : StorageField) (l : list ResourceUnit) :
  forall (r : ResourceRequests) (X : Z),
    field f r = Int64.wrap X ->
    field f (fold_left addResourceUnit l r) =
    Int64.wrap (X + sumZ (map (contribution (classesOf f))
                              (storageEntries (mkGroupSpec "" l)))).
Proof.
  unfold storageEntries. simpl.
  induction l as [|ru l IH]; intros r X HX; simpl.
  - now rewrite Z.add_0_r.
  - rewrite (IH _ _ (addResourceUnit_field f r ru X HX)).
    f_equal. rewrite map_app, sumZ_app. lia.
Qed.

(** C7.  The class of a storage entry is its explicit class attribute when
    it has one and its name otherwise; an entry of an unrecognized class
    leaves every total as it was; and each of the four storage totals is the
    int64 sum, over the entries of its class, of the entry's bytes divided by
    2^30 (truncated toward zero) times the repetition count of its unit. *)
Theorem CalculateRequestedResources_storage (gSpec : GroupSpec) :
  (forall storage, storageClassOf storage = specClass storage) /\
  (forall count result storage,
      specClass storage ∉ recognizedClasses -> addStorage count result storage = result) /\
  EphemeralStorageRequested (CalculateRequestedResources gSpec)
    = classTotal ["ephemeral"; "default"] gSpec /\
  HDDPersStorageRequested (CalculateRequestedResources gSpec) = classTotal ["beta1"] gSpec /\
  SSDPersStorageRequested (CalculateRequestedResources gSpec) = classTotal ["beta2"] gSpec /\
  NVMePersStorageRequested (CalculateRequestedResources gSpec) = classTotal ["beta3"] gSpec.
Proof.
  split; [exact storageClassOf_specClass|].
  split; [exact addStorage_unrecognized|].
  assert (F : forall f, field f (CalculateRequestedResources gSpec)
                        = classTotal (classesOf f) gSpec).
  { intros f. unfold CalculateRequestedResources, classTotal.
    rewrite (fold_addResourceUnit_field f _ _ 0) by now destruct f.
    destruct gSpec as [name l]. reflexivity. }
  repeat split; [apply (F FEphemeral) | apply (F FHDD) | apply (F FSSD) | apply (F FNVMe)].
Qed.

(** ** [CalculateTotalGPUPrice] *)

Lemma scanAttributes_a100NoInterface :
  scanAttributes [mkAttribute "vendor/nvidia/model/a100/ram/80Gi" "true"]
  = mkGpuTokens "a100" "80Gi" "".
Proof. reflexivity. Qed.

(** With an interface token the lookups follow the whole chain: the full
    key, then [model.vram], then [model], then the default price. *)
Lemma resolvePrice_with_interface (t : gpuTokens) (m : gmap string float64) (maxGPUPrice : float64) :
  interfaceType t <> "" ->
  resolvePrice t m maxGPUPrice =
  match m !! fullKey t with
  | Some price => price
  | None =>
      match m !! (model t ++ "." ++ vram t) with
      | Some price => price
      | None => default maxGPUPrice (m !! model t)
      end
  end.
Proof.
  intros Hi. unfold resolvePrice.
  destruct (m !! fullKey t); [reflexivity|].
  destruct (decide (interfaceType t = "")); [contradiction|].
  destruct (m !! (model t ++ "." ++ vram t)); [reflexivity|].
  now destruct (m !! model t).
Qed.

(** Without an interface token a missed lookup is not followed by any
    fallback: the price is Go's zero value. *)
Lemma resolvePrice_without_interface (t : gpuTokens) (m : gmap string float64) (maxGPUPrice : float64) :
  interfaceType t = "" -> m !! fullKey t = None ->
  resolvePrice t m maxGPUPrice = zero.
Proof.
  intros Hi Hk. unfold resolvePrice. rewrite Hk.
  now destruct (decide (interfaceType t = "")).
Qed.

(** C1 (the code at the failing input).  The mapping prices only the key
    a100; a unit with model a100 and ram 80Gi and no interface is priced
    0, neither at the model-only price 200 nor at the default price, while
    the same unit with an interface token is priced 200. *)
Theorem CalculateTotalGPUPrice_no_fallback_without_interface :
  let m := Samples.onlyModelPriced in
  m !! "a100" = Some (of_int 200) /\
  MaxGPUPrice m = of_int 200 /\
  CalculateTotalGPUPrice (mkGroupSpec "g" [Samples.a100NoInterface]) m (MaxGPUPrice m) = zero /\
  CalculateTotalGPUPrice (mkGroupSpec "g" [Samples.a100Sxm4]) m (MaxGPUPrice m) = of_int 200.
Proof. vm_compute. repeat split; reflexivity. Qed.

(** ** [HandleDenomLogic] *)

Section HandleDenomLogic_facts.
Context {lib : GoLib}.

(** For a supported denomination the rate is compared, strictly, with the
    float64 that [MustFloat64] gives for the requested amount: the result
    is an error exactly when the rate is greater than that value, the error
    is the one that says the requested rate is too low, and a rate that is
    not greater, in particular one equal to that value, is accepted and
    formatted at the requested precision. *)
Lemma HandleDenomLogic_compares (denom : string) (ratePerBlockUakt ratePerBlockUsd : float64)
    (precision : Z) (amount : Dec) :
  denom = uaktDenom \/ denom = ibcDenom1 \/ denom = ibcDenom2 ->
  let rate := comparedRate denom ratePerBlockUakt ratePerBlockUsd in
  let ceiling := MustFloat64 amount in
  let r := HandleDenomLogic denom ratePerBlockUakt ratePerBlockUsd precision amount in
  (is_err r = true <-> gtb rate ceiling = true) /\
  (gtb rate ceiling = true ->
   r = Err ("requested rate is too low. min expected " ++ FormatFloat precision rate ++ denom)) /\
  (gtb rate ceiling = false -> r = Ok (FormatFloat precision rate)) /\
  (rate = ceiling -> r = Ok (FormatFloat precision rate)).
Proof.
  intros Hd rate ceiling r.
  assert (R : r = if gtb rate ceiling
                  then Err ("requested rate is too low. min expected "
                            ++ FormatFloat precision rate ++ denom)
                  else Ok (FormatFloat precision rate)).
  { subst r rate ceiling. unfold HandleDenomLogic, comparedRate.
    destruct (decide (denom = uaktDenom)) as [E|N]; [reflexivity|].
    destruct (decide (denom = ibcDenom1 \/ denom = ibcDenom2)) as [E|N']; [reflexivity|].
    tauto. }
  rewrite R. repeat split.
  - now destruct (gtb rate ceiling).
  - now intros ->.
  - now intros ->.
  - now intros ->.
  - intros E. unfold gtb. rewrite E. now rewrite ltb_irrefl.
Qed.

End HandleDenomLogic_facts.

(** With a ceiling of 100000: a rate equal to it is accepted, one
    micro-unit above it is rejected, in uakt and in a stablecoin
    denomination. *)
Lemma HandleDenomLogic_compares_example :
  let lib := Concrete.lib in
  let amount := mkDec (100000 * 10 ^ 18) in
  HandleDenomLogic uaktDenom (of_int 100000) zero 6 amount = Ok "100000.000000" /\
  HandleDenomLogic uaktDenom (of_int 100001) zero 6 amount
  = Err "requested rate is too low. min expected 100001.000000uakt" /\
  HandleDenomLogic ibcDenom1 zero (of_int 1) 2 (mkDec (10 ^ 6 * 10 ^ 18)) = Ok "1000000.00".
Proof. vm_compute. repeat split; reflexivity. Qed.

(** ** The price-feed cache *)

Section Cache_facts.
Context {lib : GoLib}.

Lemma readCachedPrice_eq (cacheFile : string) (w : World) :
  readCachedPrice cacheFile w =
  (Done (match w_files w !! cacheFile with
         | None => Err "cache file does not exist or is expired"
         | Some f =>
             if file_age f >? 60 * Minute
             then Err "cache file does not exist or is expired"
             else ParseFloat (file_data f)
         end), w).
Proof.
  unfold readCachedPrice, bind, Stat, ReadFile, ret.
  destruct (w_files w !! cacheFile) as [f|] eqn:E; [|reflexivity].
  destruct (file_age f >? 60 * Minute); [reflexivity|].
  simpl. now rewrite E.
Qed.

Lemma GetAKTPrice_cached (w : World) (price : float64) :
  readCachedPrice cacheFilePath w = (Done (Ok price), w) ->
  GetAKTPrice w = (Done (Ok price), w).
Proof. intros E. unfold GetAKTPrice, bind. now rewrite E. Qed.

Lemma GetAKTPrice_refresh (w : World) (e : string) :
  readCachedPrice cacheFilePath w = (Done (Err e), w) ->
  GetAKTPrice w = refresh w.
Proof.
  intros E. unfold GetAKTPrice, refresh, bind at 1. rewrite E.
  unfold bind. destruct (fetchPriceFromAPI w) as [[[price|e']|msg] w1]; try reflexivity.
  unfold cachePrice, WriteFile, ret.
  now destruct (w_writeError w1 cacheFilePath).
Qed.

Lemma requestsOf_app (t1 t2 : list Event) :
  requestsOf (t1 ++ t2) = (requestsOf t1 ++ requestsOf t2)%list.
Proof. apply flat_map_app. Qed.

(** Every fetch starts with a request to the primary source. *)
Lemma fetchPriceFromAPI_requests (w : World) :
  exists rest,
    requestsOf (w_trace (snd (fetchPriceFromAPI w)))
    = (requestsOf (w_trace w) ++ primaryURL :: rest)%list.
Proof.
  unfold fetchPriceFromAPI, fetchPriceFromURL, bind, HttpGet, Println, emit, ret.
  simpl.
  destruct (w_http w primaryURL) as [e|code st body [data|e]]; simpl;
    try (exists []; now rewrite requestsOf_app);
    (destruct (w_http w fallbackURL) as [e'|code' st' body' [data'|e']]; simpl;
     exists [fallbackURL]; rewrite !requestsOf_app; simpl;
     now rewrite app_nil_r, <- app_assoc).
Qed.

(** C6 (as amended).  The cached price is reused, with no request and no
    write, while the age of the cache file is at most 60 minutes (and its
    content parses); when the file is older than 60 minutes or does not
    exist the price is fetched, the primary source first, and on success the
    cache file is overwritten with the fetched price. *)
Theorem GetAKTPrice_freshness (w : World) :
  (forall f price,
      w_files w !! cacheFilePath = Some f ->
      file_age f <= 60 * Minute ->
      ParseFloat (file_data f) = Ok price ->
      GetAKTPrice w = (Done (Ok price), w)) /\
  (cacheExpired w ->
   GetAKTPrice w = refresh w /\
   (exists rest,
       requestsOf (w_trace (snd (fetchPriceFromAPI w)))
       = (requestsOf (w_trace w) ++ primaryURL :: rest)%list) /\
   (forall price w',
       GetAKTPrice w = (Done (Ok price), w') ->
       w_files w' !! cacheFilePath = Some (mkFile 0 (FormatFloat 6 price)))).
Proof.
  split.
  - intros f price Hf Hage Hp. apply GetAKTPrice_cached.
    rewrite readCachedPrice_eq, Hf.
    destruct (Z.gtb_spec (file_age f) (60 * Minute)); [lia|]. now rewrite Hp.
  - intros Hexp.
    assert (R : GetAKTPrice w = refresh w).
    { apply (GetAKTPrice_refresh w "cache file does not exist or is expired").
      rewrite readCachedPrice_eq. unfold cacheExpired in Hexp.
      destruct (w_files w !! cacheFilePath) as [f|]; [|reflexivity].
      destruct (Z.gtb_spec (file_age f) (60 * Minute)); [reflexivity|lia]. }
    split; [exact R|]. split; [apply fetchPriceFromAPI_requests|].
    intros price w'. rewrite R. unfold refresh.
    destruct (fetchPriceFromAPI w) as [[[p|e]|msg] w1]; try discriminate.
    destruct (w_writeError w1 cacheFilePath); [discriminate|].
    intros E. inversion E; subst. simpl. apply lookup_insert_eq.
Qed.

End Cache_facts.

(** C6 (as stated) fails at the boundary: a cache file whose age is exactly
    60 minutes is still reused, with no request. *)
Lemma GetAKTPrice_reuses_cache_at_60_minutes :
  ~ (forall (lib : GoLib) (w : World) (f : File),
        w_files w !! cacheFilePath = Some f ->
        60 * Minute <= file_age f ->
        GetAKTPrice w = refresh w).
Proof.
  intros C.
  specialize (C Concrete.lib (Samples.cachedWorld (60 * Minute) Samples.offline)
                (mkFile (60 * Minute) "2.500000") eq_refl ltac:(reflexivity)).
  vm_compute in C. discriminate.
Qed.

(** At 59 minutes the cache is reused, at 61 minutes the price is fetched
    and the cache file rewritten. *)
Lemma GetAKTPrice_59_and_61_minutes :
  let lib := Concrete.lib in
  let w59 := Samples.cachedWorld (59 * Minute) Samples.primaryWithoutPrice in
  let w60 := Samples.cachedWorld (60 * Minute) Samples.primaryWithoutPrice in
  GetAKTPrice w59 = (Done (Ok (of_ratio 5 2)), w59) /\
  GetAKTPrice w60 = (Done (Ok (of_ratio 5 2)), w60) /\
  requestsOf (w_trace (snd (GetAKTPrice
     (Samples.cachedWorld (61 * Minute) Samples.primaryWithoutPrice)))) = [primaryURL].
Proof. vm_compute. repeat split; reflexivity. Qed.

(** ** The price sources *)

(** C3 (the code at the failing input).  The primary source answers with a
    well-formed JSON object that has no price field: the fetch succeeds
    with the rate 0, the fallback source is never asked, and [GetAKTPrice]
    returns that rate and writes it to the cache. *)
Theorem fetchPriceFromAPI_missing_field_is_zero :
  let lib := Concrete.lib in
  let w := Samples.emptyWorld Samples.primaryWithoutPrice in
  fst (fetchPriceFromAPI w) = Done (Ok zero) /\
  requestsOf (w_trace (snd (fetchPriceFromAPI w))) = [primaryURL] /\
  fst (GetAKTPrice w) = Done (Ok zero) /\
  file_data <$> (w_files (snd (GetAKTPrice w)) !! cacheFilePath) = Some "0.000000".
Proof. vm_compute. repeat split; reflexivity. Qed.

(** Whatever the primary source answers, once it decodes as JSON the fetch
    succeeds with what [extractPrice] makes of it and asks nobody else. *)
Lemma fetchPriceFromAPI_decoded (w : World) (code : Z) (status body : string) (data : JSON) :
  w_http w primaryURL = HTTPResponse code status body (Ok data) ->
  fetchPriceFromAPI w = (Done (Ok (extractPrice data)), traced w [EvHttpGet primaryURL]).
Proof.
  intros E. unfold fetchPriceFromAPI, fetchPriceFromURL, bind, HttpGet. simpl.
  now rewrite E.
Qed.

Lemma extractPrice_missing (fields : list (string * JSON)) :
  jsonField "price" fields = None -> jsonField "akash-network" fields = None ->
  extractPrice (JObject fields) = zero.
Proof. intros E1 E2. simpl. now rewrite E1, E2. Qed.

(** A response that cannot be decoded, or a transport error, does lead to
    the fallback source. *)
Lemma fetchPriceFromAPI_falls_back (w : World) :
  (match w_http w primaryURL with
   | HTTPError _ | HTTPResponse _ _ _ (Err _) => True
   | _ => False
   end) ->
  exists w1, fetchPriceFromAPI w = fetchPriceFromURL fallbackURL w1 /\
             requestsOf (w_trace w1) = (requestsOf (w_trace w) ++ [primaryURL])%list.
Proof.
  unfold fetchPriceFromAPI, fetchPriceFromURL at 1, bind at 1 2, HttpGet at 1. simpl.
  destruct (w_http w primaryURL) as [e|code st body [data|e]]; simpl; intros Hp;
    try contradiction;
    (eexists; split; [reflexivity|]; simpl;
     rewrite !requestsOf_app; simpl; now rewrite app_nil_r).
Qed.

(** ** [RequestToBidPrice] *)

Lemma SpecialPricing_accounts (owner : string) :
  SpecialPricing owner = true <-> owner = specialAccount1 \/ owner = specialAccount2.
Proof.
  unfold SpecialPricing, specialAccount1, specialAccount2.
  destruct (decide (owner = "akash1fxa9ss3dg6nqyz8aluyaa6svypgprk5tw9fa4q")) as [->|N1].
  - rewrite lookup_insert_eq. simpl. tauto.
  - rewrite lookup_insert_ne by congruence.
    destruct (decide (owner = "akash1fhe3uk7d95vvr69pna7cxmwa8777as46uyxcz8")) as [->|N2].
    + rewrite lookup_insert_eq. simpl. tauto.
    + rewrite lookup_insert_ne by congruence. rewrite lookup_empty. simpl.
      split; [discriminate | tauto].
Qed.

Section RequestToBidPrice_facts.
Context {lib : GoLib}.

(** C9.  For an owner that is one of the two special accounts,
    [RequestToBidPrice] succeeds after printing the request and the fixed
    special rate 1.00: nothing else happens, whatever the environment, the
    files, the price sources and the denomination of the request are. *)
Theorem RequestToBidPrice_special_owner (request : Request) (w : World) :
  Owner request = specialAccount1 \/ Owner request = specialAccount2 ->
  RequestToBidPrice request w =
  (Done (Ok tt),
   traced w [EvPrintRequest request;
             EvStdout "Special pricing rate per block (uakt): 1.00"]).
Proof.
  intros Ho. pose proof (proj2 (SpecialPricing_accounts _) Ho) as Hs.
  unfold RequestToBidPrice, bind at 1, emit.
  destruct (decide (Owner request = "")) as [E|_].
  { rewrite E in Ho. destruct Ho; discriminate. }
  destruct (requestPrice request) as [denom amount].
  rewrite Hs. unfold bind, Println, emit, ret, traced. simpl.
  now rewrite <- app_assoc.
Qed.

End RequestToBidPrice_facts.

(** A special owner is served with every price source down, an empty cache
    and a denomination that [HandleDenomLogic] does not support. *)
Lemma RequestToBidPrice_special_owner_witness :
  let lib := Concrete.lib in
  let request := Samples.request specialAccount2 "usd" in
  let w := Samples.emptyWorld Samples.offline in
  RequestToBidPrice request w =
  (Done (Ok tt),
   traced w [EvPrintRequest request;
             EvStdout "Special pricing rate per block (uakt): 1.00"])
  /\ fst (fetchPriceFromAPI w) = Done (Err "no route to host")
  /\ HandleDenomLogic "usd" zero zero 6 (mkDec 1) = Err "denom is not supported: usd".
Proof.
  intros lib request w. split.
  - apply (RequestToBidPrice_special_owner request w). right. reflexivity.
  - vm_compute. split; reflexivity.
Defined.

Section Denominations.
Context {lib : GoLib}.

(** What does hold of C2: [HandleDenomLogic] itself rejects every other
    denomination, whatever the rates and the ceiling are. *)
Lemma HandleDenomLogic_unsupported (denom : string) (ratePerBlockUakt ratePerBlockUsd : float64)
    (precision : Z) (amount : Dec) :
  denom <> uaktDenom -> denom <> ibcDenom1 -> denom <> ibcDenom2 ->
  HandleDenomLogic denom ratePerBlockUakt ratePerBlockUsd precision amount
  = Err ("denom is not supported: " ++ denom).
Proof.
  intros N0 N1 N2. unfold HandleDenomLogic.
  destruct (decide (denom = uaktDenom)); [contradiction|].
  destruct (decide (denom = ibcDenom1 \/ denom = ibcDenom2)); [tauto | reflexivity].
Qed.

(** [RequestToBidPrice] never calls [HandleDenomLogic]: none of the errors
    it returns is about the denomination or the ceiling. *)
Lemma RequestToBidPrice_errors (request : Request) (w w' : World) (e : string) :
  RequestToBidPrice request w = (Done (Err e), w') -> bidError e.
Proof.
  unfold RequestToBidPrice, bidError, bind at 1, emit.
  destruct (decide (Owner request = "")).
  { intros E. inversion E. tauto. }
  destruct (requestPrice request) as [denom amount].
  destruct (SpecialPricing (Owner request)).
  { unfold bind, Println, emit, ret. intros E. inversion E. }
  unfold bind at 1. destruct (CheckWhitelist (Owner request) _) as [[[[]|e0]|msg] w0].
  2: { intros E. inversion E. eauto. }
  2: { intros E. inversion E. }
  unfold bind at 1. destruct (GetAKTPrice w0) as [[[usdPerAkt|e1]|msg] w1].
  2: { intros E. inversion E. eauto 6. }
  2: { intros E. inversion E. }
  destruct (bool_decide (denom = "") || Dec_IsZero amount).
  { unfold bind, Println, emit, ret. intros E. inversion E. tauto. }
  destruct (GSpec request) as [gSpec|].
  2: { intros E. inversion E. tauto. }
  unfold bind at 1. destruct (SetPriceTargets w1) as [[priceTargets|msg] w2].
  2: { intros E. inversion E. }
  destruct (CalculateBlockRates _ _ _) as [[r1 r2] finalRateStr].
  unfold bind, Println, emit, ret. intros E. inversion E.
Qed.

End Denominations.

(** C2 (the code at the failing input).  A request priced in the
    denomination usd, which [HandleDenomLogic] does not support, from an
    owner that is not special, with no whitelist configured and a fresh
    price cache: [RequestToBidPrice] succeeds and prints a price. *)
Theorem RequestToBidPrice_accepts_unsupported_denom :
  let lib := Concrete.lib in
  let request := Samples.request "akash1provider" "usd" in
  let w := Samples.cachedWorld (59 * Minute) Samples.offline in
  HandleDenomLogic "usd" zero zero 6 (mkDec (100000 * 10 ^ 18))
  = Err "denom is not supported: usd" /\
  fst (RequestToBidPrice request w) = Done (Ok tt) /\
  stdoutOf (w_trace (snd (RequestToBidPrice request w)))
  = ["Total cost per block (uakt, formatted): 0.3814755797950594uakt";
     "Total cost in USD: 0.41/month"].
Proof. vm_compute. repeat split; reflexivity. Qed.

(** * Accuracy of the binary64 operations

    Each operation on positive finite values in the normal range returns
    the exact result times [1 + d] with [|d| <= eps]. *)

(** ** Digits *)

Lemma digits2_pos_size (m : positive) : digits2_pos m = Pos.size m.
Proof. induction m; simpl; congruence. Qed.

Lemma Zdigits2_log2 (n : Z) : 0 < n -> Zdigits2 n = Z.log2 n + 1.
Proof.
  destruct n as [|p|p]; try lia. intros _. simpl.
  rewrite digits2_pos_size. destruct p; simpl; lia.
Qed.

Lemma Zdigits2_bounds (n : Z) :
  0 < n -> 2 ^ (Zdigits2 n - 1) <= n < 2 ^ Zdigits2 n.
Proof.
  intros Hn. rewrite Zdigits2_log2 by assumption.
  replace (Z.log2 n + 1 - 1) with (Z.log2 n) by lia.
  apply Z.log2_spec. assumption.
Qed.

Lemma Zdigits2_unique (n k : Z) :
  2 ^ (k - 1) <= n < 2 ^ k -> 1 <= k -> Zdigits2 n = k.
Proof.
  intros B Hk. assert (0 < n) by (pose proof (Z.pow_pos_nonneg 2 (k - 1)); lia).
  rewrite Zdigits2_log2 by assumption.
  rewrite (Z.log2_unique n (k - 1)); try lia.
  replace (Z.succ (k - 1)) with k by lia. assumption.
Qed.

Lemma Zdigits2_pos (n : Z) : 0 < n -> 1 <= Zdigits2 n.
Proof. intros. rewrite Zdigits2_log2 by assumption. pose proof (Z.log2_nonneg n). lia. Qed.

(** ** Shifting right *)

Lemma shr_1_m (r : shr_record) : 0 <= shr_m r -> shr_m (shr_1 r) = shr_m r / 2.
Proof.
  destruct r as [m rb sb]. simpl. intros Hm.
  destruct m as [|[p|p|]|p]; simpl; try lia; try reflexivity.
  - rewrite Pos2Z.inj_xI. apply (Z.div_unique_pos _ _ _ 1); lia.
  - rewrite Pos2Z.inj_xO. apply (Z.div_unique_pos _ _ _ 0); lia.
Qed.

Lemma pow2_xO (p : positive) : 2 ^ Zpos p~0 = 2 ^ Zpos p * 2 ^ Zpos p.
Proof.
  replace (Zpos p~0) with (Zpos p + Zpos p) by lia. now rewrite Z.pow_add_r by lia.
Qed.

Lemma pow2_xI (p : positive) : 2 ^ Zpos p~1 = 2 * (2 ^ Zpos p * 2 ^ Zpos p).
Proof.
  replace (Zpos p~1) with (1 + (Zpos p + Zpos p)) by lia.
  now rewrite !Z.pow_add_r, Z.pow_1_r by lia.
Qed.

Lemma iter_shr_1_m (p : positive) :
  forall r : shr_record,
    0 <= shr_m r -> shr_m (SpecFloat.iter_pos shr_1 p r) = shr_m r / 2 ^ Zpos p.
Proof.
  assert (P : forall q, 0 < 2 ^ Zpos q) by (intros; apply Z.pow_pos_nonneg; lia).
  induction p as [p IH|p IH|]; intros r Hr; simpl SpecFloat.iter_pos.
  - assert (H1 : 0 <= shr_m (shr_1 r)) by (rewrite shr_1_m by assumption; apply Z.div_pos; lia).
    assert (H2 : 0 <= shr_m (SpecFloat.iter_pos shr_1 p (shr_1 r)))
      by (rewrite IH by assumption; apply Z.div_pos; [assumption | apply P]).
    rewrite IH, IH, shr_1_m by assumption.
    pose proof (P p). rewrite !Z.div_div by lia. now rewrite pow2_xI.
  - assert (H2 : 0 <= shr_m (SpecFloat.iter_pos shr_1 p r))
      by (rewrite IH by assumption; apply Z.div_pos; [assumption | apply P]).
    rewrite IH, IH by assumption.
    pose proof (P p). rewrite !Z.div_div by lia. now rewrite pow2_xO.
  - now rewrite shr_1_m.
Qed.

Lemma shr_m_shr (r : shr_record) (e n : Z) :
  0 <= shr_m r -> 0 <= n ->
  shr_m (fst (shr r e n)) = shr_m r / 2 ^ n /\ snd (shr r e n) = e + n.
Proof.
  intros Hr Hn. destruct n as [|p|p]; simpl; try lia.
  - rewrite Z.div_1_r. split; [reflexivity | lia].
  - split; [now apply iter_shr_1_m | reflexivity].
Qed.

Lemma loc_of_shr_record_of_loc (m : Z) (l : location) :
  loc_of_shr_record (shr_record_of_loc m l) = l.
Proof. destruct l as [|[]]; reflexivity. Qed.

Lemma shr_m_of_loc (m : Z) (l : location) : shr_m (shr_record_of_loc m l) = m.
Proof. destruct l as [|[]]; reflexivity. Qed.

Lemma round_nearest_even_cases (m : Z) (l : location) :
  round_nearest_even m l = m \/ round_nearest_even m l = m + 1.
Proof. destruct l as [|[]]; simpl; auto. destruct (Z.even m); auto. Qed.

(** ** Rounding a located mantissa *)

Lemma fexp_normal (e : Z) : emin <= e - prec -> fexp prec emax e = e - prec.
Proof. unfold fexp, emin, SpecFloat.emin, prec, emax. lia. Qed.

Lemma shr_fexp_spec (m e : Z) (l : location) :
  0 < m -> 53 <= Zdigits2 m -> emin <= Zdigits2 m + e - 53 ->
  shr_m (fst (shr_fexp prec emax m e l)) = m / 2 ^ (Zdigits2 m - 53) /\
  snd (shr_fexp prec emax m e l) = e + (Zdigits2 m - 53) /\
  (Zdigits2 m = 53 -> fst (shr_fexp prec emax m e l) = shr_record_of_loc m l).
Proof.
  intros Hm Hd He. unfold shr_fexp.
  rewrite fexp_normal by (unfold prec; lia).
  replace (Zdigits2 m + e - prec - e) with (Zdigits2 m - 53) by (unfold prec; lia).
  destruct (shr_m_shr (shr_record_of_loc m l) e (Zdigits2 m - 53)) as [E1 E2];
    [rewrite shr_m_of_loc; lia | lia |].
  rewrite shr_m_of_loc in E1. repeat split; try assumption.
  intros ->. reflexivity.
Qed.

Lemma binary_round_aux_spec (s : bool) (mx ex : Z) (lx : location) :
  0 < mx -> 53 <= Zdigits2 mx ->
  emin <= Zdigits2 mx + ex - 53 -> Zdigits2 mx + ex - 53 + 1 <= emax - prec ->
  exists (m' : positive) (e' : Z),
    binary_round_aux prec emax s mx ex lx = S754_finite s m' e' /\
    digits2_pos m' = 53%positive /\
    ex <= e' <= Zdigits2 mx + ex - 53 + 1 /\
    mx + 1 - 2 ^ (Zdigits2 mx - 53) <= Zpos m' * 2 ^ (e' - ex) <= mx + 2 ^ (Zdigits2 mx - 53) /\
    2 ^ (Zdigits2 mx - 53) * 2 ^ 52 <= mx /\
    (lx = loc_Exact -> Zdigits2 mx = 53 -> Zpos m' = mx /\ e' = ex).
Proof.
  intros Hm Hd Hlo Hhi. set (n := Zdigits2 mx - 53) in *.
  assert (Hn : 0 <= n) by lia.
  assert (HK : 0 < 2 ^ n) by (apply Z.pow_pos_nonneg; lia).
  pose proof (Zdigits2_bounds mx Hm) as Bd.
  replace (Zdigits2 mx - 1) with (52 + n) in Bd by lia.
  replace (Zdigits2 mx) with (53 + n) in Bd by lia.
  rewrite !Z.pow_add_r in Bd by lia.
  set (m1 := mx / 2 ^ n).
  assert (Hm1 : 2 ^ 52 <= m1 < 2 ^ 53).
  { unfold m1. split.
    - apply Z.div_le_lower_bound; lia.
    - apply Z.div_lt_upper_bound; lia. }
  assert (Hdiv : m1 * 2 ^ n <= mx < (m1 + 1) * 2 ^ n).
  { unfold m1. pose proof (Z.div_mod mx (2 ^ n) ltac:(lia)).
    pose proof (Z.mod_pos_bound mx (2 ^ n) HK). lia. }
  unfold binary_round_aux.
  destruct (shr_fexp_spec mx ex lx Hm Hd ltac:(lia)) as (A1 & A2 & A3).
  destruct (shr_fexp prec emax mx ex lx) as [mrs' e1]. simpl in A1, A2, A3.
  fold n in A1, A2. fold m1 in A1. rewrite A1. subst e1.
  set (m2 := round_nearest_even m1 (loc_of_shr_record mrs')).
  assert (Hm2 : m2 = m1 \/ m2 = m1 + 1) by apply round_nearest_even_cases.
  assert (Hm2pos : 0 < m2) by lia.
  destruct (Z.eq_dec m2 (2 ^ 53)) as [C|C].
  - (* the rounding carried into a 54th digit *)
    assert (D2 : Zdigits2 m2 = 54) by (apply Zdigits2_unique; lia).
    destruct (shr_fexp_spec m2 (ex + n) loc_Exact Hm2pos ltac:(lia) ltac:(lia)) as (B1 & B2 & _).
    destruct (shr_fexp prec emax m2 (ex + n) loc_Exact) as [mrs'' e2]. simpl in B1, B2.
    rewrite D2 in B1, B2. rewrite B1, C. change (54 - 53) with 1 in *.
    change (2 ^ 53 / 2 ^ 1) with (Zpos (2 ^ 52)).
    subst e2.
    destruct (Z.leb_spec (ex + n + 1) (emax - prec)); [|lia].
    assert (Em1 : m1 = 2 ^ 53 - 1) by lia. rewrite Em1 in Hdiv.
    exists (2 ^ 52)%positive, (ex + n + 1).
    split; [reflexivity|]. split; [reflexivity|]. split; [lia|].
    split; [|split; [lia|]].
    + replace (ex + n + 1 - ex) with (1 + n) by lia. rewrite Z.pow_add_r by lia. lia.
    + intros -> Hd53. exfalso. specialize (A3 Hd53). subst mrs'.
      unfold m2 in C. simpl in C. lia.
  - assert (D2 : Zdigits2 m2 = 53) by (apply Zdigits2_unique; lia).
    destruct (shr_fexp_spec m2 (ex + n) loc_Exact Hm2pos ltac:(lia) ltac:(lia)) as (B1 & B2 & _).
    destruct (shr_fexp prec emax m2 (ex + n) loc_Exact) as [mrs'' e2]. simpl in B1, B2.
    rewrite D2 in B1, B2. rewrite B1. change (53 - 53) with 0 in *.
    rewrite Z.pow_0_r, Z.div_1_r. subst e2. rewrite Z.add_0_r.
    destruct m2 as [|m2p|m2p] eqn:Em2; try lia.
    destruct (Z.leb_spec (ex + n) (emax - prec)); [|lia].
    exists m2p, (ex + n).
    split; [reflexivity|]. split; [|split; [lia|]].
    { simpl in D2. congruence. }
    split; [|split; [lia|]].
    + replace (ex + n - ex) with n by lia. lia.
    + intros -> Hd53. specialize (A3 Hd53). subst mrs'.
      unfold m2 in Em2. simpl in Em2. unfold m1 in Em2.
      assert (n = 0) by lia. replace n with 0 in Em2 by lia.
      rewrite Z.pow_0_r, Z.div_1_r in Em2. lia.
Qed.

(** ** Real values *)

Lemma pow2_pos (e : Z) : (0 < pow2 e)%R.
Proof. apply powerRZ_lt. lra. Qed.

Lemma pow2_add (a b : Z) : pow2 (a + b) = (pow2 a * pow2 b)%R.
Proof. apply powerRZ_add. lra. Qed.

Lemma pow2_IZR (n : Z) : 0 <= n -> pow2 n = IZR (2 ^ n).
Proof.
  intros Hn. unfold pow2. rewrite <- (Z2Nat.id n Hn) at 2. rewrite <- pow_IZR.
  destruct n as [|p|p]; simpl; try lia; reflexivity.
Qed.

Lemma pow2_le (a b : Z) : a <= b -> (pow2 a <= pow2 b)%R.
Proof.
  intros H. replace b with (a + (b - a)) by lia. rewrite pow2_add.
  rewrite (pow2_IZR (b - a)) by lia.
  assert (1 <= IZR (2 ^ (b - a)))%R.
  { apply IZR_le. pose proof (Z.pow_pos_nonneg 2 (b - a)). lia. }
  pose proof (pow2_pos a). nra.
Qed.

Lemma pow2_lt (a b : Z) : a < b -> (pow2 a < pow2 b)%R.
Proof.
  intros H. replace b with (a + (b - a)) by lia. rewrite pow2_add.
  rewrite (pow2_IZR (b - a)) by lia.
  assert (2 <= IZR (2 ^ (b - a)))%R.
  { apply IZR_le. replace (b - a) with (1 + (b - a - 1)) by lia.
    rewrite Z.pow_add_r by lia. pose proof (Z.pow_pos_nonneg 2 (b - a - 1)). lia. }
  pose proof (pow2_pos a). nra.
Qed.

Lemma pow2_lt_inv (a b : Z) : (pow2 a < pow2 b)%R -> a < b.
Proof.
  intros H. destruct (Z.lt_ge_cases a b) as [|G]; [assumption|].
  apply pow2_le in G. lra.
Qed.

Lemma round_error_real (mx K M P T : R) :
  (0 < P -> mx + 1 - K <= M <= mx + K -> K * IZR (2 ^ 52) <= mx ->
   mx * P <= T <= (mx + 1) * P ->
   Rabs (M * P - T) <= eps * T)%R.
Proof.
  intros HP HM HK HT. unfold eps.
  assert (C : (0 < IZR (2 ^ 52))%R) by (apply IZR_lt; reflexivity).
  assert (HKP : (K * P <= / IZR (2 ^ 52) * T)%R).
  { apply (Rmult_le_reg_l (IZR (2 ^ 52))); [assumption|].
    replace (IZR (2 ^ 52) * (/ IZR (2 ^ 52) * T))%R with T by (field; lra).
    nra. }
  apply Rabs_le. split; nra.
Qed.

Lemma canonical_mantissa_bounds (m : positive) :
  digits2_pos m = 53%positive -> 2 ^ 52 <= Zpos m < 2 ^ 53.
Proof.
  intros D. pose proof (Zdigits2_bounds (Zpos m) eq_refl) as B.
  simpl in B. rewrite D in B. exact B.
Qed.

Lemma F2R_canonical (x : spec_float) (m : positive) (e : Z) :
  canonical x m e -> F2R x = (IZR (Zpos m) * pow2 e)%R.
Proof. intros [-> _]. simpl. lra. Qed.

Lemma canonical_value_bounds (x : spec_float) (m : positive) (e : Z) :
  canonical x m e -> (pow2 (e + 52) <= F2R x < pow2 (e + 53))%R.
Proof.
  intros C. rewrite (F2R_canonical _ _ _ C). destruct C as [_ D].
  apply canonical_mantissa_bounds in D.
  rewrite !(Z.add_comm e), !pow2_add, (pow2_IZR 52), (pow2_IZR 53) by lia.
  pose proof (pow2_pos e).
  assert (IZR (2 ^ 52) <= IZR (Zpos m) < IZR (2 ^ 53))%R
    by (split; [apply IZR_le | apply IZR_lt]; lia).
  nra.
Qed.

(** The rounding of a located positive value, in real terms. *)
Lemma binary_round_aux_value (mx ex : Z) (lx : location) (T : R) :
  0 < mx -> 53 <= Zdigits2 mx ->
  emin <= Zdigits2 mx + ex - 53 -> Zdigits2 mx + ex - 53 + 1 <= emax - prec ->
  (IZR mx * pow2 ex <= T <= (IZR mx + 1) * pow2 ex)%R ->
  exists (m' : positive) (e' : Z),
    canonical (binary_round_aux prec emax false mx ex lx) m' e' /\
    ex <= e' <= Zdigits2 mx + ex - 53 + 1 /\
    (Rabs (IZR (Zpos m') * pow2 e' - T) <= eps * T)%R /\
    (lx = loc_Exact -> Zdigits2 mx = 53 -> Zpos m' = mx /\ e' = ex).
Proof.
  intros Hm Hd Hlo Hhi HT.
  destruct (binary_round_aux_spec false mx ex lx Hm Hd Hlo Hhi)
    as (m' & e' & E & D & He & HM & HK & Hex).
  exists m', e'. split; [split; assumption|]. split; [assumption|]. split; [|assumption].
  replace e' with ((e' - ex) + ex) at 1 by lia.
  rewrite pow2_add, (pow2_IZR (e' - ex)) by lia.
  rewrite <- Rmult_assoc, <- mult_IZR.
  apply (round_error_real (IZR mx) (IZR (2 ^ (Zdigits2 mx - 53)))).
  - apply pow2_pos.
  - rewrite <- plus_IZR. change 1%R with (IZR 1). rewrite <- plus_IZR, <- minus_IZR.
    split; apply IZR_le; lia.
  - rewrite <- mult_IZR. apply IZR_le. lia.
  - assumption.
Qed.

Lemma emin_eq : emin = -1074.
Proof. reflexivity. Qed.

Lemma Zdigits2_range (n lo hi : Z) :
  0 <= lo -> 2 ^ lo <= n < 2 ^ hi -> lo + 1 <= Zdigits2 n <= hi.
Proof.
  intros Hlo [L U].
  assert (Hn : 0 < n) by (pose proof (Z.pow_pos_nonneg 2 lo); lia).
  pose proof (Zdigits2_bounds n Hn) as [B1 B2].
  pose proof (Zdigits2_pos n Hn) as P.
  split.
  - assert (2 ^ lo < 2 ^ Zdigits2 n) by lia.
    apply Z.pow_lt_mono_r_iff in H; lia.
  - assert (2 ^ (Zdigits2 n - 1) < 2 ^ hi) by lia.
    assert (0 <= hi).
    { destruct (Z.lt_ge_cases hi 0) as [N|]; [|assumption].
      rewrite (Z.pow_neg_r 2 hi N) in U. lia. }
    apply Z.pow_lt_mono_r_iff in H; lia.
Qed.

(** ** Multiplication *)

Lemma mul_accurate (x y : spec_float) (mx my : positive) (ex ey : Z) :
  canonical x mx ex -> canonical y my ey ->
  -400 <= ex <= 400 -> -400 <= ey <= 400 ->
  exists (m' : positive) (e' : Z),
    canonical (SFmul prec emax x y) m' e' /\
    ex + ey <= e' <= ex + ey + 54 /\
    (Rabs (F2R (SFmul prec emax x y) - F2R x * F2R y) <= eps * (F2R x * F2R y))%R.
Proof.
  intros Cx Cy Hex Hey.
  rewrite (F2R_canonical _ _ _ Cx), (F2R_canonical _ _ _ Cy).
  destruct Cx as [-> Dx], Cy as [-> Dy].
  apply canonical_mantissa_bounds in Dx, Dy.
  assert (B : 2 ^ 104 <= Zpos (mx * my) < 2 ^ 106).
  { rewrite Pos2Z.inj_mul. change (2 ^ 104) with (2 ^ 52 * 2 ^ 52).
    change (2 ^ 106) with (2 ^ 53 * 2 ^ 53). nia. }
  pose proof (Zdigits2_range _ 104 106 ltac:(lia) B) as Hd.
  simpl SFmul.
  destruct (binary_round_aux_value (Zpos (mx * my)) (ex + ey) loc_Exact
              (IZR (Zpos mx) * pow2 ex * (IZR (Zpos my) * pow2 ey))%R)
    as (m' & e' & C & He & Herr & _).
  - reflexivity.
  - lia.
  - rewrite emin_eq. lia.
  - unfold emax, prec. lia.
  - rewrite Pos2Z.inj_mul, mult_IZR, pow2_add.
    pose proof (pow2_pos ex). pose proof (pow2_pos ey).
    assert (0 < IZR (Zpos mx))%R by (apply IZR_lt; lia).
    assert (0 < IZR (Zpos my))%R by (apply IZR_lt; lia).
    split; nra.
  - exists m', e'. split; [assumption|]. split; [lia|].
    now rewrite (F2R_canonical _ _ _ C).
Qed.

(** ** Division *)

Lemma pow2_sub (a b : Z) : pow2 (a - b) = (pow2 a / pow2 b)%R.
Proof.
  pose proof (pow2_pos b). replace a with ((a - b) + b) at 2 by lia.
  rewrite pow2_add. field. lra.
Qed.

Lemma div_accurate (x y : spec_float) (mx my : positive) (ex ey : Z) :
  canonical x mx ex -> canonical y my ey ->
  -400 <= ex <= 400 -> -400 <= ey <= 400 ->
  exists (m' : positive) (e' : Z),
    canonical (SFdiv prec emax x y) m' e' /\
    ex - ey - 53 <= e' <= ex - ey - 51 /\
    (Rabs (F2R (SFdiv prec emax x y) - F2R x / F2R y) <= eps * (F2R x / F2R y))%R.
Proof.
  intros Cx Cy Hex Hey.
  rewrite (F2R_canonical _ _ _ Cx), (F2R_canonical _ _ _ Cy).
  destruct Cx as [-> Dx], Cy as [-> Dy].
  pose proof (canonical_mantissa_bounds _ Dx) as Bx.
  pose proof (canonical_mantissa_bounds _ Dy) as By.
  simpl SFdiv. unfold SFdiv_core_binary. simpl Zdigits2. rewrite Dx, Dy.
  replace (Zpos 53 + ex - (Zpos 53 + ey)) with (ex - ey) by lia.
  rewrite fexp_normal by (rewrite emin_eq; unfold prec; lia).
  replace (Z.min (ex - ey - prec) (ex - ey)) with (ex - ey - 53) by (unfold prec; lia).
  replace (ex - ey - (ex - ey - 53)) with 53 by lia.
  rewrite Z.shiftl_mul_pow2 by lia.
  pose proof (Z_div_mod (Zpos mx * 2 ^ 53) (Zpos my) ltac:(lia)) as DM.
  destruct (Z.div_eucl (Zpos mx * 2 ^ 53) (Zpos my)) as [q r].
  destruct DM as [DM Hr].
  assert (Bq : 2 ^ 52 <= q < 2 ^ 54).
  { change (2 ^ 54) with (2 * 2 ^ 53) in *. nia. }
  pose proof (Zdigits2_range _ 52 54 ltac:(lia) Bq) as Hd.
  destruct (binary_round_aux_value q (ex - ey - 53) (new_location (Zpos my) r)
              (IZR (Zpos mx) * pow2 ex / (IZR (Zpos my) * pow2 ey))%R)
    as (m' & e' & C & He & Herr & _).
  - lia.
  - lia.
  - rewrite emin_eq. lia.
  - unfold emax, prec. lia.
  - assert (Hmy : (0 < IZR (Zpos my))%R) by (apply IZR_lt; lia).
    pose proof (pow2_pos ex). pose proof (pow2_pos ey). pose proof (pow2_pos (ex - ey - 53)).
    assert (E : (IZR (Zpos mx) * pow2 ex / (IZR (Zpos my) * pow2 ey)
                 = (IZR (Zpos mx) * IZR (2 ^ 53) / IZR (Zpos my)) * pow2 (ex - ey - 53))%R).
    { replace (ex - ey - 53) with ((ex - ey) - 53) by lia.
      rewrite (pow2_sub (ex - ey) 53), (pow2_sub ex ey), (pow2_IZR 53) by lia.
      field. repeat split; lra. }
    rewrite E. rewrite <- mult_IZR, DM.
    rewrite plus_IZR, mult_IZR.
    assert (0 <= IZR r < IZR (Zpos my))%R by (split; [apply IZR_le | apply IZR_lt]; lia).
    assert (Q : ((IZR (Zpos my) * IZR q + IZR r) / IZR (Zpos my)
                 = IZR q + IZR r / IZR (Zpos my))%R) by (field; lra).
    rewrite Q.
    assert (0 <= IZR r / IZR (Zpos my) < 1)%R.
    { split.
      - apply Rmult_le_pos; [lra|]. apply Rlt_le, Rinv_0_lt_compat. lra.
      - apply (Rmult_lt_reg_r (IZR (Zpos my))); [lra|].
        unfold Rdiv. rewrite Rmult_assoc, Rinv_l, Rmult_1_r, Rmult_1_l by lra. lra. }
    split; nra.
  - exists m', e'. split; [assumption|]. split; [lia|].
    now rewrite (F2R_canonical _ _ _ C).
Qed.

(** ** Normalisation, addition and conversion from integers *)

Lemma pos_iter_xO (mx d : positive) : Zpos (Pos.iter xO mx d) = Zpos mx * 2 ^ Zpos d.
Proof.
  induction d as [|d IH] using Pos.peano_ind.
  - simpl. lia.
  - rewrite Pos.iter_succ, Pos2Z.inj_xO, IH, Pos2Z.inj_succ, Z.pow_succ_r by lia. lia.
Qed.

Lemma shl_align_spec (mx : positive) (ex ex' : Z) :
  (ex' <= ex ->
   snd (shl_align mx ex ex') = ex' /\
   Zpos (fst (shl_align mx ex ex')) = Zpos mx * 2 ^ (ex - ex')) /\
  (ex <= ex' -> shl_align mx ex ex' = (mx, ex)).
Proof.
  unfold shl_align. destruct (ex' - ex) as [|d|d] eqn:E; simpl; split; intros H; try lia.
  - replace (ex - ex') with 0 by lia. lia.
  - reflexivity.
  - reflexivity.
  - split; [reflexivity|]. rewrite pos_iter_xO. f_equal. f_equal. lia.
Qed.

Lemma Zdigits2_shift (n k : Z) : 0 < n -> 0 <= k -> Zdigits2 (n * 2 ^ k) = Zdigits2 n + k.
Proof.
  intros Hn Hk. pose proof (Zdigits2_bounds n Hn) as B. pose proof (Zdigits2_pos n Hn) as P.
  assert (0 < 2 ^ k) by (apply Z.pow_pos_nonneg; lia).
  apply Zdigits2_unique; [|lia].
  replace (Zdigits2 n + k - 1) with ((Zdigits2 n - 1) + k) by lia.
  rewrite !Z.pow_add_r by lia. nia.
Qed.

Lemma binary_round_value (mx : positive) (ex : Z) :
  emin <= Zdigits2 (Zpos mx) + ex - 53 -> Zdigits2 (Zpos mx) + ex - 53 + 1 <= emax - prec ->
  exists (m' : positive) (e' : Z),
    canonical (binary_round prec emax false mx ex) m' e' /\
    Z.min ex (Zdigits2 (Zpos mx) + ex - 53) <= e' <= Zdigits2 (Zpos mx) + ex - 53 + 1 /\
    (Rabs (IZR (Zpos m') * pow2 e' - IZR (Zpos mx) * pow2 ex) <= eps * (IZR (Zpos mx) * pow2 ex))%R /\
    (Zdigits2 (Zpos mx) <= 53 -> (IZR (Zpos m') * pow2 e' = IZR (Zpos mx) * pow2 ex)%R).
Proof.
  intros Hlo Hhi. set (d := Zdigits2 (Zpos mx)) in *.
  assert (Hd : 1 <= d) by (apply Zdigits2_pos; lia).
  unfold binary_round. change (Zpos (digits2_pos mx)) with d.
  rewrite fexp_normal by (unfold prec; lia). unfold prec at 1.
  destruct (shl_align_spec mx ex (d + ex - 53)) as [Sl Sr].
  destruct (Z.le_gt_cases d 53) as [Small|Big].
  - (* the mantissa is extended to 53 digits and the result is exact *)
    destruct (Sl ltac:(lia)) as [E2 E1].
    destruct (shl_align mx ex (d + ex - 53)) as [mz ez]. simpl in E1, E2. subst ez.
    replace (ex - (d + ex - 53)) with (53 - d) in E1 by lia.
    assert (Dz : Zdigits2 (Zpos mz) = 53).
    { rewrite E1, Zdigits2_shift by lia. fold d. lia. }
    assert (V : (IZR (Zpos mz) * pow2 (d + ex - 53) = IZR (Zpos mx) * pow2 ex)%R).
    { rewrite E1, mult_IZR, <- (pow2_IZR (53 - d)) by lia.
      rewrite Rmult_assoc, <- pow2_add. f_equal. f_equal. lia. }
    destruct (binary_round_aux_value (Zpos mz) (d + ex - 53) loc_Exact
                (IZR (Zpos mx) * pow2 ex)%R)
      as (m' & e' & C & He & Herr & Hex); try lia.
    { rewrite <- V. pose proof (pow2_pos (d + ex - 53)). split; nra. }
    destruct (Hex eq_refl Dz) as [Em Ee].
    exists m', e'. split; [assumption|]. split; [lia|]. split; [assumption|].
    intros _. rewrite Em, Ee. exact V.
  - rewrite (Sr ltac:(lia)).
    destruct (binary_round_aux_value (Zpos mx) ex loc_Exact (IZR (Zpos mx) * pow2 ex)%R)
      as (m' & e' & C & He & Herr & Hex); try (fold d; lia).
    { pose proof (pow2_pos ex). split; nra. }
    exists m', e'. split; [assumption|]. fold d in He. split; [lia|]. split; [assumption|].
    intros; lia.
Qed.

Lemma add_accurate (x y : spec_float) (mx my : positive) (ex ey : Z) :
  canonical x mx ex -> canonical y my ey ->
  -400 <= ex <= 400 -> -400 <= ey <= 400 ->
  exists (m' : positive) (e' : Z),
    canonical (SFadd prec emax x y) m' e' /\
    Z.min ex ey <= e' <= Z.max ex ey + 2 /\
    (Rabs (F2R (SFadd prec emax x y) - (F2R x + F2R y)) <= eps * (F2R x + F2R y))%R.
Proof.
  intros Cx Cy Hex Hey.
  rewrite (F2R_canonical _ _ _ Cx), (F2R_canonical _ _ _ Cy).
  destruct Cx as [-> Dx], Cy as [-> Dy].
  pose proof (canonical_mantissa_bounds _ Dx) as Bx.
  pose proof (canonical_mantissa_bounds _ Dy) as By.
  simpl SFadd. set (ez := Z.min ex ey).
  destruct (shl_align_spec mx ex ez) as [[_ Ax] _]; [lia|].
  destruct (shl_align_spec my ey ez) as [[_ Ay] _]; [lia|].
  set (ps := (fst (shl_align mx ex ez) + fst (shl_align my ey ez))%positive).
  set (sum := Zpos mx * 2 ^ (ex - ez) + Zpos my * 2 ^ (ey - ez)).
  assert (Es : Zpos ps = sum) by (unfold ps, sum; rewrite Pos2Z.inj_add, Ax, Ay; reflexivity).
  assert (Px : 0 < 2 ^ (ex - ez)) by (apply Z.pow_pos_nonneg; lia).
  assert (Py : 0 < 2 ^ (ey - ez)) by (apply Z.pow_pos_nonneg; lia).
  set (k := Z.max ex ey - ez).
  assert (Pk : 2 ^ (ex - ez) <= 2 ^ k /\ 2 ^ (ey - ez) <= 2 ^ k)
    by (split; apply Z.pow_le_mono_r; lia).
  assert (Bs : 2 ^ 52 <= sum < 2 ^ (54 + k)).
  { rewrite Z.pow_add_r by lia. change (2 ^ 54) with (2 * 2 ^ 53). unfold sum. nia. }
  pose proof (Zdigits2_range _ 52 (54 + k) ltac:(lia) Bs) as Hd.
  rewrite <- Es in Hd.
  destruct (binary_round_value ps ez) as (m' & e' & C & He & Herr & _).
  - rewrite emin_eq. lia.
  - unfold emax, prec. lia.
  - assert (V : (IZR (Zpos ps) * pow2 ez
                 = IZR (Zpos mx) * pow2 ex + IZR (Zpos my) * pow2 ey)%R).
    { rewrite Es. unfold sum. rewrite plus_IZR, !mult_IZR.
      rewrite <- (pow2_IZR (ex - ez)), <- (pow2_IZR (ey - ez)) by lia.
      rewrite Rmult_plus_distr_r, !Rmult_assoc, <- !pow2_add.
      now replace (ex - ez + ez) with ex by lia; replace (ey - ez + ez) with ey by lia. }
    rewrite V in Herr.
    exists m', e'. split; [assumption|]. split; [lia|].
    now rewrite (F2R_canonical _ _ _ C).
Qed.

Lemma of_int_exact (n : Z) :
  0 < n < 2 ^ 53 ->
  exists (m' : positive) (e' : Z),
    canonical (binary_normalize prec emax n 0 false) m' e' /\
    -52 <= e' <= 1 /\ F2R (binary_normalize prec emax n 0 false) = IZR n.
Proof.
  intros Hn. destruct n as [|p|p]; try lia. simpl binary_normalize.
  pose proof (Zdigits2_range (Zpos p) 0 53 ltac:(lia) ltac:(lia)) as Hd.
  destruct (binary_round_value p 0) as (m' & e' & C & He & _ & Hex).
  - rewrite emin_eq. lia.
  - unfold emax, prec. lia.
  - exists m', e'. split; [assumption|]. split; [lia|].
    rewrite (F2R_canonical _ _ _ C), (Hex ltac:(lia)).
    change (pow2 0) with 1%R. lra.
Qed.

(** ** The CPU total of [CalculateRequestedResources] *)

Lemma eps_small : (0 < eps < 1 / 10 ^ 15)%R.
Proof.
  unfold eps. split.
  - apply Rinv_0_lt_compat, IZR_lt. reflexivity.
  - apply (Rmult_lt_reg_r (IZR (2 ^ 52))); [apply IZR_lt; reflexivity|].
    rewrite Rinv_l by (apply not_0_IZR; discriminate).
    change (2 ^ 52) with 4503599627370496. lra.
Qed.

Lemma Rabs_bounds (x b : R) : (Rabs x <= b -> - b <= x <= b)%R.
Proof. unfold Rabs. destruct (Rcase_abs x); lra. Qed.

(** Two roundings in a row: a quotient, then a product. *)
Lemma two_roundings (a c q t : R) :
  (0 <= a -> 0 <= c ->
   Rabs (q - a) <= eps * a -> Rabs (t - q * c) <= eps * (q * c) ->
   Rabs (t - a * c) <= 2.01 * eps * (a * c))%R.
Proof.
  intros Ha Hc Hq Ht. pose proof eps_small as [E0 E1].
  apply Rabs_bounds in Hq, Ht. apply Rabs_le.
  assert (0 <= a * c)%R by nra.
  assert (q * c <= (1 + eps) * (a * c))%R by nra.
  assert ((1 - eps) * (a * c) <= q * c)%R by nra.
  assert (eps * eps * (a * c) <= 0.01 * eps * (a * c))%R by nra.
  split; nra.
Qed.

(** One more term added to the running total. *)
Lemma sum_step (B S x a t a' k : R) :
  (0 <= S -> 0 <= x -> S + x <= B -> 0 <= k -> k <= 10 ^ 10 ->
   0 <= a -> 0 <= t ->
   Rabs (a - S) <= eps * (2.1 * S + 1.01 * k * B) ->
   Rabs (t - x) <= 2.01 * eps * x ->
   Rabs (a' - (a + t)) <= eps * (a + t) ->
   Rabs (a' - (S + x)) <= eps * (2.1 * (S + x) + 1.01 * (k + 1) * B))%R.
Proof.
  intros HS Hx HB Hk0 Hk Ha0 Ht0 Ha Ht Ha'. pose proof eps_small as [E0 E1].
  apply Rabs_bounds in Ha, Ht, Ha'. apply Rabs_le.
  assert (HB0 : (0 <= B)%R) by lra.
  assert (HkB : (0 <= k * B)%R) by nra.
  set (E := (2.1 * S + 1.01 * k * B)%R) in *.
  assert (HE : (0 <= E <= 2.1 * B + 1.01 * k * B)%R) by (unfold E; nra).
  assert (Hsum : (a + t <= S + x + eps * E + 2.01 * eps * x)%R) by lra.
  assert (Hsum' : (0 <= a + t)%R) by lra.
  assert (Q : (eps * (eps * E + 2.01 * eps * x) <= 0.01 * eps * B)%R).
  { assert (eps * E + 2.01 * eps * x <= eps * (4.11 * B + 1.01 * k * B))%R by nra.
    assert (eps * (4.11 + 1.01 * k) <= 0.01)%R by nra.
    assert (eps * (4.11 * B + 1.01 * k * B) <= 0.01 * B)%R by nra.
    replace (0.01 * eps * B)%R with (eps * (0.01 * B))%R by ring.
    apply Rmult_le_compat_l; lra. }
  assert (U : (a' <= (a + t) + eps * (S + x + eps * E + 2.01 * eps * x))%R).
  { assert (eps * (a + t) <= eps * (S + x + eps * E + 2.01 * eps * x))%R
      by (apply Rmult_le_compat_l; lra).
    lra. }
  assert (L : ((a + t) - eps * (S + x + eps * E + 2.01 * eps * x) <= a')%R).
  { assert (eps * (a + t) <= eps * (S + x + eps * E + 2.01 * eps * x))%R
      by (apply Rmult_le_compat_l; lra).
    lra. }
  assert (eps * (S + x) <= eps * B)%R by (apply Rmult_le_compat_l; lra).
  assert (0 <= eps * x)%R by nra.
  assert (0 <= eps * B)%R by nra.
  unfold E in *. split; lra.
Qed.

Lemma of_int_spec (n : Z) :
  0 < n < 2 ^ 53 ->
  exists (m' : positive) (e' : Z),
    canonical (of_int n) m' e' /\ -52 <= e' <= 1 /\ F2R (of_int n) = IZR n.
Proof. apply of_int_exact. Qed.

(** The term of one unit: [float64(cpuUnits) / 1000.0 * float64(count)]. *)
Lemma cpuTerm_accurate (cpuUnits count : Z) :
  0 < cpuUnits < 2 ^ 53 -> 0 < count < 2 ^ 53 ->
  exists (m : positive) (e : Z),
    canonical (mul (div (of_int cpuUnits) (of_int 1000)) (of_int count)) m e /\
    -200 <= e <= 200 /\
    (Rabs (F2R (mul (div (of_int cpuUnits) (of_int 1000)) (of_int count))
           - IZR (cpuUnits * count) / 1000)
     <= 2.01 * eps * (IZR (cpuUnits * count) / 1000))%R.
Proof.
  intros Hc Hn.
  destruct (of_int_spec cpuUnits Hc) as (mc & ec & Cc & Hec & Vc).
  destruct (of_int_spec 1000 ltac:(lia)) as (mk & ek & Ck & Hek & Vk).
  destruct (of_int_spec count Hn) as (mn & en & Cn & Hen & Vn).
  destruct (div_accurate _ _ _ _ _ _ Cc Ck ltac:(lia) ltac:(lia)) as (mq & eqt & Cq & Heq & Eqt).
  destruct (mul_accurate _ _ _ _ _ _ Cq Cn ltac:(lia) ltac:(lia)) as (mt & et & Ct & Het & Et).
  exists mt, et. split; [exact Ct|]. split; [lia|].
  rewrite Vc, Vk in Eqt. rewrite Vn in Et.
  assert (0 < IZR cpuUnits)%R by (apply IZR_lt; lia).
  assert (0 < IZR count)%R by (apply IZR_lt; lia).
  replace (IZR (cpuUnits * count) / 1000)%R with (IZR cpuUnits / 1000 * IZR count)%R
    by (rewrite mult_IZR; field).
  apply (two_roundings _ _ (F2R (div (of_int cpuUnits) (of_int 1000)))); try lra.
  - exact Eqt.
  - exact Et.
Qed.

Lemma cpuTerm_zero (count : Z) :
  0 < count < 2 ^ 53 ->
  mul (div (of_int 0) (of_int 1000)) (of_int count) = zero.
Proof.
  intros Hn. destruct (of_int_spec count Hn) as (mn & en & [-> _] & _).
  reflexivity.
Qed.

Lemma cpuInvariant_next (B : R) (k s : Z) (acc : float64) :
  (0 <= B)%R -> 0 <= k -> 0 <= s ->
  cpuInvariant B k s acc -> cpuInvariant B (k + 1) s acc.
Proof.
  intros HB Hk Hs [Z0|(m & e & C & He & Hpos & Err)]; [now left | right].
  exists m, e. repeat split; try assumption; try apply C.
  eapply Rle_trans; [exact Err|]. pose proof eps_small as [E0 _].
  apply Rmult_le_compat_l; [lra|]. rewrite plus_IZR.
  assert (0 <= IZR k)%R by (apply IZR_le; lia). nra.
Qed.

Lemma canonical_positive (x : float64) (m : positive) (e : Z) :
  canonical x m e -> (0 < F2R x)%R.
Proof.
  intros C. pose proof (canonical_value_bounds _ _ _ C) as [L _].
  pose proof (pow2_pos (e + 52)). lra.
Qed.

Lemma cpuStep_invariant (Btot k s : Z) (acc : float64) (ru : ResourceUnit) :
  wellFormedUnit ru -> 0 <= k -> (0 < s + milliOf ru -> k < 10 ^ 10 - 1) -> 0 <= s ->
  s + milliOf ru <= Btot -> Btot <= 4400000000 ->
  cpuInvariant (IZR Btot / 1000) k s acc ->
  cpuInvariant (IZR Btot / 1000) (k + 1) (s + milliOf ru) (cpuStep acc ru).
Proof.
  intros [Hcount Hcpu] Hk Hkb Hs Hle HB Inv.
  assert (HB0 : (0 <= IZR Btot / 1000)%R).
  { assert (0 <= IZR Btot)%R; [apply IZR_le|lra].
    unfold milliOf in Hle. destruct (res_CPU _) as [c|]; [|lia].
    specialize (Hcpu c eq_refl). nia. }
  unfold cpuStep, addCPU, milliOf in *.
  destruct (res_CPU (ru_Resources ru)) as [c|]; cbv beta iota delta [CPURequested].
  2: { rewrite Z.add_0_r. apply cpuInvariant_next; [assumption | lia | assumption..]. }
  specialize (Hcpu c eq_refl).
  destruct (Z.eq_dec (cpu_Units c) 0) as [Z0|NZ].
  { rewrite Z0, Z.mul_0_l, Z.add_0_r, cpuTerm_zero by lia.
    apply cpuInvariant_next; [assumption | lia | assumption |].
    destruct Inv as [[-> ->]|(m & e & [-> D] & R)].
    - left. split; reflexivity.
    - right. exists m, e. split; [split; [reflexivity | assumption] | exact R]. }
  assert (Hprod : 0 < cpu_Units c * ru_Count ru) by nia.
  specialize (Hkb ltac:(lia)).
  assert (Hc53 : 0 < cpu_Units c < 2 ^ 53) by nia.
  destruct (cpuTerm_accurate (cpu_Units c) (ru_Count ru) Hc53 ltac:(lia))
    as (mt & et & Ct & Het & Et).
  set (term := mul (div (of_int (cpu_Units c)) (of_int 1000)) (of_int (ru_Count ru))) in *.
  pose proof (canonical_positive _ _ _ Ct) as Tpos.
  pose proof eps_small as [E0 E1].
  assert (HX : (0 < IZR (cpu_Units c * ru_Count ru) / 1000)%R).
  { assert (0 < IZR (cpu_Units c * ru_Count ru))%R by (apply IZR_lt; lia). lra. }
  assert (Hk' : (0 <= IZR k <= 10 ^ 10)%R).
  { split; [apply IZR_le; lia|].
    apply Rle_trans with (IZR 10000000000); [apply IZR_le; lia | lra]. }
  assert (HBR : (IZR Btot / 1000 <= 4400000)%R).
  { assert (IZR Btot <= IZR 4400000000)%R by (apply IZR_le; lia). lra. }
  destruct Inv as [[-> ->]|(ma & ea & Ca & Hea & Hspos & Ea)].
  - (* the first term that is not zero *)
    right. exists mt, et.
    replace (add zero term) with term by (destruct Ct as [-> _]; reflexivity).
    split; [exact Ct|]. split; [lia|]. split; [lia|].
    rewrite Z.add_0_l. eapply Rle_trans; [exact Et|].
    rewrite plus_IZR.
    assert (0 <= eps * (IZR (cpu_Units c * ru_Count ru) / 1000))%R by nra.
    assert (0 <= (IZR k + 1) * (IZR Btot / 1000))%R by nra.
    assert (0 <= eps * ((IZR k + 1) * (IZR Btot / 1000)))%R by nra.
    lra.
  - pose proof (canonical_positive _ _ _ Ca) as Apos.
    assert (HS : (0 < IZR s / 1000 <= IZR Btot / 1000)%R).
    { assert (0 < IZR s)%R by (apply IZR_lt; lia).
      assert (IZR s <= IZR Btot)%R by (apply IZR_le; lia). lra. }
    assert (Hea' : ea <= 400).
    { pose proof (canonical_value_bounds _ _ _ Ca) as [L _].
      apply Rabs_bounds in Ea.
      assert (F2R acc < pow2 24)%R.
      { rewrite (pow2_IZR 24) by lia. change (2 ^ 24) with 16777216.
        assert (IZR k * (IZR Btot / 1000) <= 10 ^ 10 * (IZR Btot / 1000))%R
          by (apply Rmult_le_compat_r; lra).
        assert (2.1 * (IZR s / 1000) + 1.01 * IZR k * (IZR Btot / 1000)
                <= 10 ^ 11 * (IZR Btot / 1000))%R by lra.
        assert (eps * (2.1 * (IZR s / 1000) + 1.01 * IZR k * (IZR Btot / 1000))
                <= eps * (10 ^ 11 * (IZR Btot / 1000)))%R
          by (apply Rmult_le_compat_l; lra).
        assert (eps * (10 ^ 11 * (IZR Btot / 1000)) <= IZR Btot / 1000)%R by nra.
        lra. }
      assert (pow2 (ea + 52) < pow2 24)%R by lra.
      apply pow2_lt_inv in H0. lia. }
    destruct (add_accurate _ _ _ _ _ _ Ca Ct ltac:(lia) ltac:(lia))
      as (m' & e' & C' & He' & E').
    right. exists m', e'. split; [exact C'|]. split; [lia|]. split; [lia|].
    rewrite !plus_IZR.
    replace ((IZR s + IZR (cpu_Units c * ru_Count ru)) / 1000)%R
      with (IZR s / 1000 + IZR (cpu_Units c * ru_Count ru) / 1000)%R by field.
    assert (HSx : (IZR s / 1000 + IZR (cpu_Units c * ru_Count ru) / 1000
                   <= IZR Btot / 1000)%R).
    { assert (IZR (s + cpu_Units c * ru_Count ru) <= IZR Btot)%R by (apply IZR_le; lia).
      rewrite plus_IZR in H. lra. }
    apply (sum_step _ _ _ (F2R acc) (F2R term)); try lra; assumption.
Qed.

Lemma fold_addStorage_CPURequested (count : Z) (l : list Storage) :
  forall r, CPURequested (fold_left (addStorage count) l r) = CPURequested r.
Proof.
  induction l as [|s l IH]; intros r; simpl; [reflexivity|].
  rewrite IH. unfold addStorage. repeat (destruct (decide _)); reflexivity.
Qed.

Lemma fold_addEndpoint_CPURequested (count : Z) (l : list Endpoint) :
  forall r, CPURequested (fold_left (addEndpoint count) l r) = CPURequested r.
Proof.
  induction l as [|e l IH]; intros r; simpl; [reflexivity|]. now rewrite IH.
Qed.

Lemma CPURequested_addResourceUnit (r : ResourceRequests) (ru : ResourceUnit) :
  CPURequested (addResourceUnit r ru) = cpuStep (CPURequested r) ru.
Proof.
  unfold addResourceUnit.
  rewrite fold_addEndpoint_CPURequested, fold_addStorage_CPURequested.
  unfold addMemory, cpuStep, addCPU.
  destruct (res_Memory _), (res_CPU _); reflexivity.
Qed.

Lemma CPURequested_fold (l : list ResourceUnit) :
  forall r,
    CPURequested (fold_left addResourceUnit l r) = fold_left cpuStep l (CPURequested r).
Proof.
  induction l as [|ru l IH]; intros r; simpl; [reflexivity|].
  now rewrite IH, CPURequested_addResourceUnit.
Qed.

Lemma milliOf_nonneg (ru : ResourceUnit) : wellFormedUnit ru -> 0 <= milliOf ru.
Proof.
  intros [Hc Hu]. unfold milliOf. destruct (res_CPU _) as [c|]; [|lia].
  specialize (Hu c eq_refl). nia.
Qed.

Lemma sum_milliOf_nonneg (l : list ResourceUnit) :
  Forall wellFormedUnit l -> 0 <= sumZ (map milliOf l).
Proof.
  induction 1 as [|ru l Hru _ IH]; simpl; [lia|].
  pose proof (milliOf_nonneg ru Hru). lia.
Qed.

Lemma cpu_fold_invariant (Btot : Z) (l : list ResourceUnit) :
  forall (k s : Z) (acc : float64),
    Forall wellFormedUnit l -> 0 <= k -> 0 <= s ->
    (0 < s + sumZ (map milliOf l) -> k + Z.of_nat (length l) < 10 ^ 10 - 1) ->
    s + sumZ (map milliOf l) <= Btot -> Btot <= 4400000000 ->
    cpuInvariant (IZR Btot / 1000) k s acc ->
    cpuInvariant (IZR Btot / 1000) (k + Z.of_nat (length l)) (s + sumZ (map milliOf l))
                 (fold_left cpuStep l acc).
Proof.
  induction l as [|ru l IH]; intros k s acc Hwf Hk Hs Hkb Hle HB Inv.
  - simpl. now rewrite !Z.add_0_r.
  - inversion Hwf as [|? ? Hru Hl]; subst.
    pose proof (milliOf_nonneg ru Hru) as N1.
    pose proof (sum_milliOf_nonneg l Hl) as N2.
    simpl map in *. simpl sumZ in *. simpl fold_left.
    replace (k + Z.of_nat (length (ru :: l))) with ((k + 1) + Z.of_nat (length l))
      in * by (simpl length; lia).
    replace (s + (milliOf ru + sumZ (map milliOf l)))
      with ((s + milliOf ru) + sumZ (map milliOf l)) in * by lia.
    apply IH; try assumption; try lia.
    apply cpuStep_invariant; try assumption; lia.
Qed.

(** C8 (as amended).  For a request whose units have non-negative
    milli-cores and a repetition count of at least 1, and for which the
    number of units plus 3, times the total of milli-cores times counts, is
    at most 4.4e9 (4.4 million cores), the normalized CPU total is within
    1e-9 of the sum of (milli-cores times count) divided by 1000. *)
Theorem CPURequested_accurate (gSpec : GroupSpec) :
  Forall wellFormedUnit (gs_Resources gSpec) ->
  (Z.of_nat (length (gs_Resources gSpec)) + 3) * totalMilli gSpec <= 4400000000 ->
  (Rabs (F2R (CPURequested (CalculateRequestedResources gSpec))
         - IZR (totalMilli gSpec) / 1000) <= 1 / 10 ^ 9)%R.
Proof.
  intros Hwf Hsize. unfold CalculateRequestedResources, totalMilli in *.
  rewrite CPURequested_fold. simpl CPURequested.
  set (l := gs_Resources gSpec) in *. set (T := sumZ (map milliOf l)) in *.
  set (n := Z.of_nat (length l)) in *.
  pose proof (sum_milliOf_nonneg l Hwf) as HT. fold T in HT.
  assert (Hn : 0 <= n) by (unfold n; lia).
  pose proof (cpu_fold_invariant T l 0 0 zero Hwf ltac:(lia) ltac:(lia)) as Inv.
  rewrite !Z.add_0_l in Inv. fold T n in Inv.
  specialize (Inv ltac:(nia) ltac:(lia) ltac:(nia) (or_introl (conj eq_refl eq_refl))).
  destruct Inv as [[E1 E2]|(m & e & C & _ & Tpos & Err)].
  - rewrite E1, E2. simpl F2R. apply Rabs_le. split; lra.
  - eapply Rle_trans; [exact Err|]. pose proof eps_small as [E0 _].
    assert (H1 : (0 < IZR T)%R) by (apply IZR_lt; lia).
    assert (H2 : (0 <= IZR n)%R) by (apply IZR_le; lia).
    assert (H3 : ((IZR n + 3) * IZR T <= 4400000000)%R).
    { rewrite <- (plus_IZR n 3), <- mult_IZR. apply IZR_le. lia. }
    replace (2.1 * (IZR T / 1000) + 1.01 * IZR n * (IZR T / 1000))%R
      with ((2.1 + 1.01 * IZR n) * IZR T / 1000)%R by field.
    assert (H4 : ((2.1 + 1.01 * IZR n) * IZR T / 1000 <= 4444000)%R) by nra.
    apply Rle_trans with (eps * 4444000)%R; [apply Rmult_le_compat_l; lra|].
    unfold eps. change (2 ^ 52) with 4503599627370496.
    apply (Rmult_le_reg_l 4503599627370496); [lra|].
    rewrite <- Rmult_assoc, Rinv_r by lra. lra.
Qed.

(** The bound holds for the unit of 100 milli-cores. *)
Lemma CPURequested_accurate_witness :
  let gSpec := mkGroupSpec "g" [Samples.smallUnit "uakt"] in
  Forall wellFormedUnit (gs_Resources gSpec) /\
  (Z.of_nat (length (gs_Resources gSpec)) + 3) * totalMilli gSpec = 400 /\
  (Rabs (F2R (CPURequested (CalculateRequestedResources gSpec))
         - IZR (totalMilli gSpec) / 1000) <= 1 / 10 ^ 9)%R.
Proof.
  intros gSpec.
  assert (Hwf : Forall wellFormedUnit (gs_Resources gSpec)).
  { repeat constructor; simpl; try lia. intros c E. inversion E. simpl. lia. }
  split; [exact Hwf|]. split; [reflexivity|].
  apply (CPURequested_accurate gSpec Hwf). vm_compute. discriminate.
Defined.

Lemma pow2_neg (n : Z) : 0 <= n -> pow2 (- n) = (/ IZR (2 ^ n))%R.
Proof.
  intros Hn. replace (- n) with (0 - n) by lia.
  rewrite pow2_sub, <- (pow2_IZR n) by lia. change (pow2 0) with 1%R.
  unfold Rdiv. now rewrite Rmult_1_l.
Qed.

(** C8 (as stated) fails for large requests: for one unit of
    20,000,000,001 milli-cores the normalized CPU total is
    5368709120268435 * 2^-28, more than 1.6e-9 away from 20000000.001. *)
Lemma CPURequested_beyond_tolerance :
  ~ (forall gSpec : GroupSpec,
        Forall wellFormedUnit (gs_Resources gSpec) ->
        (Rabs (F2R (CPURequested (CalculateRequestedResources gSpec))
               - IZR (totalMilli gSpec) / 1000) <= 1 / 10 ^ 9)%R).
Proof.
  intros C. specialize (C Samples.hugeCPU).
  assert (Hwf : Forall wellFormedUnit (gs_Resources Samples.hugeCPU)).
  { repeat constructor; simpl; try lia. intros c E. inversion E. simpl. lia. }
  specialize (C Hwf).
  replace (CPURequested (CalculateRequestedResources Samples.hugeCPU))
    with (S754_finite false 5368709120268435 (-28)) in C by (vm_compute; reflexivity).
  replace (totalMilli Samples.hugeCPU) with 20000000001 in C by reflexivity.
  apply Rabs_bounds in C. unfold F2R in C.
  replace (pow2 (-28)) with (/ IZR (2 ^ 28))%R in C
    by (symmetry; apply (pow2_neg 28); lia).
  change (2 ^ 28) with 268435456 in C.
  assert (P : (0 < / 268435456)%R) by (apply Rinv_0_lt_compat; lra).
  assert (Q : (268435456 * / 268435456 = 1)%R) by (apply Rinv_r; lra).
  lra.
Qed.

(** * The ceiling as a decimal *)

(** ** Rounding to nearest is faithful *)

(** [binary_round_aux_spec] with the exponent of the result: the one the
    53 leading digits of [mx] have, or the next one. *)
Lemma binary_round_aux_exponent (s : bool) (mx ex : Z) (lx : location) :
  0 < mx -> 53 <= Zdigits2 mx ->
  emin <= Zdigits2 mx + ex - 53 -> Zdigits2 mx + ex - 53 + 1 <= emax - prec ->
  exists (m' : positive) (e' : Z),
    binary_round_aux prec emax s mx ex lx = S754_finite s m' e' /\
    digits2_pos m' = 53%positive /\
    ex + (Zdigits2 mx - 53) <= e' <= Zdigits2 mx + ex - 53 + 1 /\
    mx + 1 - 2 ^ (Zdigits2 mx - 53) <= Zpos m' * 2 ^ (e' - ex) <= mx + 2 ^ (Zdigits2 mx - 53) /\
    2 ^ (Zdigits2 mx - 53) * 2 ^ 52 <= mx /\
    (lx = loc_Exact -> Zdigits2 mx = 53 -> Zpos m' = mx /\ e' = ex).
Proof.
  intros Hm Hd Hlo Hhi. set (n := Zdigits2 mx - 53) in *.
  assert (Hn : 0 <= n) by lia.
  assert (HK : 0 < 2 ^ n) by (apply Z.pow_pos_nonneg; lia).
  pose proof (Zdigits2_bounds mx Hm) as Bd.
  replace (Zdigits2 mx - 1) with (52 + n) in Bd by lia.
  replace (Zdigits2 mx) with (53 + n) in Bd by lia.
  rewrite !Z.pow_add_r in Bd by lia.
  set (m1 := mx / 2 ^ n).
  assert (Hm1 : 2 ^ 52 <= m1 < 2 ^ 53).
  { unfold m1. split.
    - apply Z.div_le_lower_bound; lia.
    - apply Z.div_lt_upper_bound; lia. }
  assert (Hdiv : m1 * 2 ^ n <= mx < (m1 + 1) * 2 ^ n).
  { unfold m1. pose proof (Z.div_mod mx (2 ^ n) ltac:(lia)).
    pose proof (Z.mod_pos_bound mx (2 ^ n) HK). lia. }
  unfold binary_round_aux.
  destruct (shr_fexp_spec mx ex lx Hm Hd ltac:(lia)) as (A1 & A2 & A3).
  destruct (shr_fexp prec emax mx ex lx) as [mrs' e1]. simpl in A1, A2, A3.
  fold n in A1, A2. fold m1 in A1. rewrite A1. subst e1.
  set (m2 := round_nearest_even m1 (loc_of_shr_record mrs')).
  assert (Hm2 : m2 = m1 \/ m2 = m1 + 1) by apply round_nearest_even_cases.
  assert (Hm2pos : 0 < m2) by lia.
  destruct (Z.eq_dec m2 (2 ^ 53)) as [C|C].
  - (* the rounding carried into a 54th digit *)
    assert (D2 : Zdigits2 m2 = 54) by (apply Zdigits2_unique; lia).
    destruct (shr_fexp_spec m2 (ex + n) loc_Exact Hm2pos ltac:(lia) ltac:(lia)) as (B1 & B2 & _).
    destruct (shr_fexp prec emax m2 (ex + n) loc_Exact) as [mrs'' e2]. simpl in B1, B2.
    rewrite D2 in B1, B2. rewrite B1, C. change (54 - 53) with 1 in *.
    change (2 ^ 53 / 2 ^ 1) with (Zpos (2 ^ 52)).
    subst e2.
    destruct (Z.leb_spec (ex + n + 1) (emax - prec)); [|lia].
    assert (Em1 : m1 = 2 ^ 53 - 1) by lia. rewrite Em1 in Hdiv.
    exists (2 ^ 52)%positive, (ex + n + 1).
    split; [reflexivity|]. split; [reflexivity|]. split; [lia|].
    split; [|split; [lia|]].
    + replace (ex + n + 1 - ex) with (1 + n) by lia. rewrite Z.pow_add_r by lia. lia.
    + intros -> Hd53. exfalso. specialize (A3 Hd53). subst mrs'.
      unfold m2 in C. simpl in C. lia.
  - assert (D2 : Zdigits2 m2 = 53) by (apply Zdigits2_unique; lia).
    destruct (shr_fexp_spec m2 (ex + n) loc_Exact Hm2pos ltac:(lia) ltac:(lia)) as (B1 & B2 & _).
    destruct (shr_fexp prec emax m2 (ex + n) loc_Exact) as [mrs'' e2]. simpl in B1, B2.
    rewrite D2 in B1, B2. rewrite B1. change (53 - 53) with 0 in *.
    rewrite Z.pow_0_r, Z.div_1_r. subst e2. rewrite Z.add_0_r.
    destruct m2 as [|m2p|m2p] eqn:Em2; try lia.
    destruct (Z.leb_spec (ex + n) (emax - prec)); [|lia].
    exists m2p, (ex + n).
    split; [reflexivity|]. split; [|split; [lia|]].
    { simpl in D2. congruence. }
    split; [|split; [lia|]].
    + replace (ex + n - ex) with n by lia. lia.
    + intros -> Hd53. specialize (A3 Hd53). subst mrs'.
      unfold m2 in Em2. simpl in Em2. unfold m1 in Em2.
      assert (n = 0) by lia. replace n with 0 in Em2 by lia.
      rewrite Z.pow_0_r, Z.div_1_r in Em2. lia.
Qed.

Lemma canonical_lt (x y : float64) (mx my : positive) (ex ey : Z) :
  canonical x mx ex -> canonical y my ey ->
  (ltb x y = true <-> ex < ey \/ (ex = ey /\ Zpos mx < Zpos my)).
Proof.
  intros [-> _] [-> _]. rewrite ltb_orderKey by reflexivity.
  unfold orderKey, keyLt. lia.
Qed.

Lemma canonical_lt_real (x y : float64) (mx my : positive) (ex ey : Z) :
  canonical x mx ex -> canonical y my ey ->
  ((F2R x < F2R y)%R <-> ex < ey \/ (ex = ey /\ Zpos mx < Zpos my)).
Proof.
  intros Cx Cy.
  pose proof (canonical_value_bounds _ _ _ Cx) as [Lx Ux].
  pose proof (canonical_value_bounds _ _ _ Cy) as [Ly Uy].
  split.
  - intros H. destruct (Z.lt_trichotomy ex ey) as [L|[E|G]]; [now left| |].
    + right. split; [exact E|]. subst ey.
      rewrite (F2R_canonical _ _ _ Cx), (F2R_canonical _ _ _ Cy) in H.
      pose proof (pow2_pos ex). apply lt_IZR. nra.
    + exfalso. assert (pow2 (ey + 53) <= pow2 (ex + 52))%R by (apply pow2_le; lia). lra.
  - intros [L|[E L]].
    + assert (pow2 (ex + 53) <= pow2 (ey + 52))%R by (apply pow2_le; lia). lra.
    + subst ey. rewrite (F2R_canonical _ _ _ Cx), (F2R_canonical _ _ _ Cy).
      pose proof (pow2_pos ex). apply IZR_lt in L. nra.
Qed.

Lemma ltb_real (x y : float64) (mx my : positive) (ex ey : Z) :
  canonical x mx ex -> canonical y my ey ->
  (ltb x y = true <-> (F2R x < F2R y)%R).
Proof.
  intros Cx Cy. rewrite (canonical_lt _ _ _ _ _ _ Cx Cy).
  symmetry. apply (canonical_lt_real _ _ _ _ _ _ Cx Cy).
Qed.

(** The rounding of a located positive value [T]: it is within [eps] of
    [T], relatively, and no binary64 value that is at most [T] is above
    it. *)
Lemma binary_round_aux_faithful (mx ex : Z) (lx : location) (T : R) :
  0 < mx -> 53 <= Zdigits2 mx ->
  emin <= Zdigits2 mx + ex - 53 -> Zdigits2 mx + ex - 53 + 1 <= emax - prec ->
  (IZR mx * pow2 ex <= T < (IZR mx + 1) * pow2 ex)%R ->
  exists (m' : positive) (e' : Z),
    canonical (binary_round_aux prec emax false mx ex lx) m' e' /\
    (Rabs (IZR (Zpos m') * pow2 e' - T) <= eps * T)%R /\
    (forall f mf ef, canonical f mf ef -> (F2R f <= T)%R ->
                     (F2R f <= IZR (Zpos m') * pow2 e')%R).
Proof.
  intros Hm Hd Hlo Hhi HT.
  destruct (binary_round_aux_exponent false mx ex lx Hm Hd Hlo Hhi)
    as (m' & e' & E & D & He & HM & HK & _).
  set (n := Zdigits2 mx - 53) in *.
  assert (Hn : 0 <= n) by (unfold n; lia).
  assert (Split2 : pow2 e' = (IZR (2 ^ (e' - ex)) * pow2 ex)%R).
  { replace e' with ((e' - ex) + ex) at 1 by lia.
    now rewrite pow2_add, (pow2_IZR (e' - ex)) by lia. }
  pose proof (pow2_pos ex) as HP.
  exists m', e'. split; [split; assumption|]. split.
  - rewrite Split2, <- Rmult_assoc, <- mult_IZR.
    apply (round_error_real (IZR mx) (IZR (2 ^ n))).
    + exact HP.
    + rewrite <- plus_IZR. change 1%R with (IZR 1). rewrite <- plus_IZR, <- minus_IZR.
      split; apply IZR_le; lia.
    + rewrite <- mult_IZR. apply IZR_le. lia.
    + lra.
  - intros f mf ef Cf Hf.
    destruct (Rle_or_lt (F2R f) (IZR (Zpos m') * pow2 e')) as [|Above]; [assumption|].
    exfalso.
    assert (Cx : canonical (S754_finite false m' e') m' e') by (split; [reflexivity | exact D]).
    assert (Lt : (F2R (S754_finite false m' e') < F2R f)%R)
      by (rewrite (F2R_canonical _ _ _ Cx); exact Above).
    apply (canonical_lt_real _ _ _ _ _ _ Cx Cf) in Lt.
    pose proof (canonical_mantissa_bounds _ D) as Bm.
    pose proof (canonical_value_bounds _ _ _ Cf) as [Lf _].
    assert (Next : ((IZR (Zpos m') + 1) * pow2 e' <= F2R f)%R).
    { destruct Lt as [L|[Eq L]].
      - assert (pow2 (e' + 53) <= pow2 (ef + 52))%R by (apply pow2_le; lia).
        assert (IZR (Zpos m') + 1 <= IZR (2 ^ 53))%R.
        { rewrite <- (plus_IZR _ 1). apply IZR_le. lia. }
        rewrite (Z.add_comm e' 53), pow2_add, (pow2_IZR 53) in H by lia.
        pose proof (pow2_pos e'). nra.
      - subst ef. rewrite (F2R_canonical _ _ _ Cf).
        assert (IZR (Zpos m') + 1 <= IZR (Zpos mf))%R.
        { rewrite <- (plus_IZR _ 1). apply IZR_le. lia. }
        pose proof (pow2_pos e'). nra. }
    assert (G : (IZR mx + 1 <= (IZR (Zpos m') + 1) * IZR (2 ^ (e' - ex)))%R).
    { rewrite <- (plus_IZR _ 1), <- (plus_IZR _ 1), <- mult_IZR. apply IZR_le.
      assert (2 ^ n <= 2 ^ (e' - ex)) by (apply Z.pow_le_mono_r; lia).
      lia. }
    rewrite Split2 in Next.
    assert ((IZR mx + 1) * pow2 ex <= (IZR (Zpos m') + 1) * IZR (2 ^ (e' - ex)) * pow2 ex)%R
      by (apply Rmult_le_compat_r; lra).
    lra.
Qed.

(** ** The binary64 value nearest to a quotient of integers *)

Lemma shifted_mantissa (m s : Z) :
  0 <= s ->
  match s with
  | 0 => m
  | Zpos _ => Z.shiftl m s
  | Zneg _ => 0
  end = m * 2 ^ s.
Proof.
  intros Hs. destruct s as [|p|p]; try lia.
  apply Z.shiftl_mul_pow2. lia.
Qed.

Lemma quotient_faithful (a b : positive) :
  -900 <= Zdigits2 (Zpos a) - Zdigits2 (Zpos b) <= 900 ->
  exists (m : positive) (e : Z),
    canonical (div (S754_finite false a 0) (S754_finite false b 0)) m e /\
    (Rabs (IZR (Zpos m) * pow2 e - IZR (Zpos a) / IZR (Zpos b))
     <= eps * (IZR (Zpos a) / IZR (Zpos b)))%R /\
    (forall f mf ef, canonical f mf ef -> (F2R f <= IZR (Zpos a) / IZR (Zpos b))%R ->
                     (F2R f <= IZR (Zpos m) * pow2 e)%R).
Proof.
  intros Hd.
  pose proof (Zdigits2_bounds (Zpos a) eq_refl) as Ba.
  pose proof (Zdigits2_bounds (Zpos b) eq_refl) as Bb.
  pose proof (Zdigits2_pos (Zpos a) eq_refl) as Pa.
  pose proof (Zdigits2_pos (Zpos b) eq_refl) as Pb.
  set (d1 := Zdigits2 (Zpos a)) in *. set (d2 := Zdigits2 (Zpos b)) in *.
  unfold div. simpl SFdiv. unfold SFdiv_core_binary. fold d1 d2.
  replace (d1 + 0 - (d2 + 0)) with (d1 - d2) by lia.
  rewrite fexp_normal by (rewrite emin_eq; unfold prec; lia).
  change (0 - 0) with 0.
  set (e0 := Z.min (d1 - d2 - prec) 0).
  assert (He0 : e0 <= 0) by (unfold e0; lia).
  rewrite (shifted_mantissa (Zpos a) (0 - e0)) by lia.
  set (s := 0 - e0) in *.
  assert (Hs : 0 <= s) by (unfold s; lia).
  assert (P2s : 0 < 2 ^ s) by (apply Z.pow_pos_nonneg; lia).
  pose proof (Z_div_mod (Zpos a * 2 ^ s) (Zpos b) ltac:(lia)) as DM.
  destruct (Z.div_eucl (Zpos a * 2 ^ s) (Zpos b)) as [q r].
  destruct DM as [DM Hr].
  (* the quotient has at least 53 digits, and not too many *)
  assert (Bq : 2 ^ 52 <= q /\ d1 - d2 <= Zdigits2 q + e0 <= d1 - d2 + 1).
  { destruct (Z.le_gt_cases (d1 - d2 - 53) 0) as [Small|Large].
    - assert (Es : s = 53 + d2 - d1) by (unfold s, e0, prec; lia).
      assert (L : 2 ^ 52 * 2 ^ d2 <= Zpos a * 2 ^ s).
      { replace (2 ^ 52 * 2 ^ d2) with (2 ^ (d1 - 1) * 2 ^ s).
        - apply Z.mul_le_mono_nonneg_r; lia.
        - rewrite <- !Z.pow_add_r by lia. f_equal. lia. }
      assert (U : Zpos a * 2 ^ s < 2 ^ 54 * 2 ^ (d2 - 1)).
      { replace (2 ^ 54 * 2 ^ (d2 - 1)) with (2 ^ d1 * 2 ^ s).
        - apply Z.mul_lt_mono_pos_r; lia.
        - rewrite <- !Z.pow_add_r by lia. f_equal. lia. }
      assert (Q1 : 2 ^ 52 <= q) by nia.
      assert (Q2 : q < 2 ^ 54) by nia.
      split; [exact Q1|].
      pose proof (Zdigits2_range q 52 54 ltac:(lia) (conj Q1 Q2)).
      unfold e0, prec. lia.
    - assert (Es : s = 0) by (unfold s, e0, prec; lia).
      rewrite Es, Z.pow_0_r, Z.mul_1_r in DM.
      assert (Ee : e0 = 0) by (unfold e0, prec; lia).
      assert (L : 2 ^ (d1 - d2 - 1) * 2 ^ d2 <= Zpos a).
      { rewrite <- Z.pow_add_r by lia. replace (d1 - d2 - 1 + d2) with (d1 - 1) by lia. lia. }
      assert (U : Zpos a < 2 ^ (d1 - d2 + 1) * 2 ^ (d2 - 1)).
      { rewrite <- Z.pow_add_r by lia. replace (d1 - d2 + 1 + (d2 - 1)) with d1 by lia. lia. }
      assert (P1 : 0 < 2 ^ (d1 - d2 - 1)) by (apply Z.pow_pos_nonneg; lia).
      assert (P3 : 0 < 2 ^ (d1 - d2 + 1)) by (apply Z.pow_pos_nonneg; lia).
      assert (Q1 : 2 ^ (d1 - d2 - 1) <= q) by nia.
      assert (Q2 : q < 2 ^ (d1 - d2 + 1)) by nia.
      assert (M : 2 ^ 52 <= 2 ^ (d1 - d2 - 1)) by (apply Z.pow_le_mono_r; lia).
      split; [lia|].
      pose proof (Zdigits2_range q (d1 - d2 - 1) (d1 - d2 + 1) ltac:(lia) (conj Q1 Q2)).
      lia. }
  destruct Bq as [Q1 Q2].
  assert (Hq : 0 < q) by lia.
  assert (Dq : 53 <= Zdigits2 q).
  { pose proof (Zdigits2_bounds q Hq) as [_ U].
    destruct (Z.lt_ge_cases (Zdigits2 q) 53) as [C|]; [|assumption].
    exfalso. assert (2 ^ Zdigits2 q <= 2 ^ 52) by (apply Z.pow_le_mono_r; lia). lia. }
  assert (Lo : d1 - d2 - 53 <= Zdigits2 q + e0 - 53) by lia.
  destruct (binary_round_aux_faithful q e0 (new_location (Zpos b) r)
              (IZR (Zpos a) / IZR (Zpos b))%R Hq Dq)
    as (m' & e' & C & Herr & Hbelow).
  - rewrite emin_eq. lia.
  - unfold emax, prec. lia.
  - assert (Hb : (0 < IZR (Zpos b))%R) by (apply IZR_lt; lia).
    assert (E : (IZR (Zpos a) / IZR (Zpos b)
                 = (IZR q + IZR r / IZR (Zpos b)) * pow2 e0)%R).
    { replace e0 with (- s) by (unfold s; lia).
      rewrite (pow2_neg s Hs).
      assert (IZR (Zpos a) * IZR (2 ^ s) = IZR (Zpos b) * IZR q + IZR r)%R
        by (rewrite <- !mult_IZR, <- plus_IZR; now f_equal).
      assert (0 < IZR (2 ^ s))%R by (apply IZR_lt; lia).
      field_simplify_eq; [|split; lra]. lra. }
    rewrite E. pose proof (pow2_pos e0).
    assert (0 <= IZR r < IZR (Zpos b))%R by (split; [apply IZR_le | apply IZR_lt]; lia).
    assert (0 <= IZR r / IZR (Zpos b) < 1)%R.
    { split.
      - apply Rmult_le_pos; [lra|]. apply Rlt_le, Rinv_0_lt_compat. lra.
      - apply (Rmult_lt_reg_r (IZR (Zpos b))); [lra|].
        unfold Rdiv. rewrite Rmult_assoc, Rinv_l, Rmult_1_r, Rmult_1_l by lra. lra. }
    split; nra.
  - exists m', e'. split; [exact C|]. split; assumption.
Qed.

(** The conversion of a positive [sdk.Dec] to binary64. *)
Lemma decToFloat_faithful (amount : Dec) :
  0 < dec_i amount < 2 ^ 316 ->
  exists (m : positive) (e : Z),
    canonical (Concrete.decToFloat amount) m e /\
    (Rabs (F2R (Concrete.decToFloat amount) - decValue amount) <= eps * decValue amount)%R /\
    (forall f mf ef, canonical f mf ef -> (F2R f <= decValue amount)%R ->
                     (F2R f <= F2R (Concrete.decToFloat amount))%R).
Proof.
  intros [Lo Hi]. unfold Concrete.decToFloat, decValue, Concrete.nearest.
  destruct (dec_i amount) as [|a|a]; try lia.
  change (10 ^ 18) with (Zpos 1000000000000000000).
  destruct (quotient_faithful a 1000000000000000000) as (m & e & C & Herr & Hbelow).
  - change (Zdigits2 (Zpos 1000000000000000000)) with 60.
    pose proof (Zdigits2_pos (Zpos a) eq_refl).
    pose proof (Zdigits2_bounds (Zpos a) eq_refl) as [B _].
    destruct (Z.le_gt_cases (Zdigits2 (Zpos a)) 316) as [|Big]; [lia|].
    exfalso. assert (2 ^ 316 <= 2 ^ (Zdigits2 (Zpos a) - 1)) by (apply Z.pow_le_mono_r; lia).
    lia.
  - exists m, e. rewrite (F2R_canonical _ _ _ C). split; [exact C|]. split; assumption.
Qed.

(** ** [HandleDenomLogic] and the decimal ceiling *)

Section Decimal_ceiling.
Context {lib : GoLib}.

(** C4 (as amended).  For a supported denomination [HandleDenomLogic]
    compares the rate with the binary64 value nearest to the decimal
    ceiling, not with the ceiling itself: the result is an error exactly
    when the rate is greater than that value.  So, for a positive ceiling
    and a rate that is 0 or a positive normal number: a rate that is at
    most the decimal ceiling,
    in particular one equal to it, is accepted and formatted at the
    requested precision; a rate above the ceiling times (1 + 2^-52) is
    rejected with the error that says the requested rate is too low; and
    the value compared with is within 2^-52, relatively, of the ceiling. *)
Theorem HandleDenomLogic_decimal_ceiling (denom : string)
    (ratePerBlockUakt ratePerBlockUsd : float64) (precision : Z) (amount : Dec)
    (mr : positive) (er : Z) :
  denom = uaktDenom \/ denom = ibcDenom1 \/ denom = ibcDenom2 ->
  MustFloat64 amount = Concrete.decToFloat amount ->
  0 < dec_i amount < 2 ^ 316 ->
  comparedRate denom ratePerBlockUakt ratePerBlockUsd = zero \/
  canonical (comparedRate denom ratePerBlockUakt ratePerBlockUsd) mr er ->
  let rate := comparedRate denom ratePerBlockUakt ratePerBlockUsd in
  let r := HandleDenomLogic denom ratePerBlockUakt ratePerBlockUsd precision amount in
  (is_err r = true <-> gtb rate (Concrete.decToFloat amount) = true) /\
  ((F2R rate <= decValue amount)%R -> r = Ok (FormatFloat precision rate)) /\
  ((decValue amount * (1 + eps) < F2R rate)%R ->
   r = Err ("requested rate is too low. min expected " ++ FormatFloat precision rate ++ denom)) /\
  (Rabs (F2R (Concrete.decToFloat amount) - decValue amount) <= eps * decValue amount)%R.
Proof.
  intros Hd HM Ha Cr rate r.
  destruct (HandleDenomLogic_compares denom ratePerBlockUakt ratePerBlockUsd precision amount Hd)
    as (Iff & Above & NotAbove & _).
  fold rate r in Iff, Above, NotAbove. rewrite HM in Iff, Above, NotAbove.
  destruct (decToFloat_faithful amount Ha) as (mc & ec & Cc & Herr & Hbelow).
  fold rate in Cr. unfold gtb in *.
  split; [exact Iff|]. split; [|split; [|exact Herr]].
  - intros Le. apply NotAbove. destruct Cr as [Z|Cr].
    + rewrite Z. destruct Cc as [-> _]. reflexivity.
    + destruct (ltb (Concrete.decToFloat amount) rate) eqn:L; [|reflexivity].
      apply (ltb_real _ _ _ _ _ _ Cc Cr) in L.
      pose proof (Hbelow rate mr er Cr Le). lra.
  - intros Gt. destruct Cr as [Z|Cr].
    + exfalso. rewrite Z in Gt. simpl F2R in Gt.
      pose proof (canonical_positive _ _ _ Cc) as Pc. pose proof eps_small as [E0 _].
      apply Rabs_bounds in Herr.
      assert (0 <= decValue amount)%R by nra. nra.
    + apply Above. apply (ltb_real _ _ _ _ _ _ Cc Cr).
      apply Rabs_bounds in Herr. lra.
Qed.

End Decimal_ceiling.

(** A rate equal to a ceiling of 100000 is accepted. *)
Lemma HandleDenomLogic_decimal_ceiling_witness :
  let lib := Concrete.lib in
  let amount := mkDec 100000000000000000000000 in
  (F2R (of_int 100000) <= decValue amount)%R /\
  HandleDenomLogic uaktDenom (of_int 100000) zero 6 amount
  = Ok (FormatFloat 6 (comparedRate uaktDenom (of_int 100000) zero)).
Proof.
  intros lib amount.
  assert (Le : (F2R (comparedRate uaktDenom (of_int 100000) zero) <= decValue amount)%R).
  { change (comparedRate uaktDenom (of_int 100000) zero) with (of_int 100000).
    destruct (of_int_spec 100000 ltac:(lia)) as (m & e & _ & _ & V). rewrite V.
    unfold decValue, amount, dec_i. lra. }
  assert (Range : 0 < dec_i amount < 2 ^ 316) by (split; reflexivity).
  assert (Rate : comparedRate uaktDenom (of_int 100000) zero = zero \/
                 canonical (comparedRate uaktDenom (of_int 100000) zero)
                           6871947673600000 (-36))
    by (right; split; reflexivity).
  assert (Conv : MustFloat64 amount = Concrete.decToFloat amount) by reflexivity.
  pose proof (HandleDenomLogic_decimal_ceiling (lib := lib) uaktDenom (of_int 100000) zero 6
                amount 6871947673600000 (-36) (or_introl eq_refl) Conv Range Rate)
    as (_ & Accepted & _).
  split; [exact Le | exact (Accepted Le)].
Defined.

(** C4 (as stated) fails: with a ceiling of 9007199254740995 uakt, a rate
    of 9007199254740996 uakt per block, one micro-unit above the ceiling,
    is accepted; it is the binary64 value nearest to the ceiling. *)
Lemma HandleDenomLogic_accepts_above_ceiling :
  ~ (forall (rate : float64) (amount : Dec),
        0 < dec_i amount ->
        (decValue amount < F2R rate)%R ->
        is_err (HandleDenomLogic (lib := Concrete.lib) uaktDenom rate zero 6 amount) = true).
Proof.
  intros C.
  specialize (C (of_int 9007199254740996) (mkDec (9007199254740995 * 10 ^ 18))
                ltac:(reflexivity)).
  assert (Gt : (decValue (mkDec (9007199254740995 * 10 ^ 18))
                < F2R (of_int 9007199254740996))%R).
  { replace (of_int 9007199254740996) with (S754_finite false 4503599627370498 1)
      by (vm_compute; reflexivity).
    unfold decValue, F2R, dec_i. rewrite (pow2_IZR 1) by lia. change (2 ^ 1) with 2.
    change (9007199254740995 * 10 ^ 18) with 9007199254740995000000000000000000. lra. }
  specialize (C Gt). vm_compute in C. discriminate C.
Qed.

(** * Further properties of the package *)

(** ** gpu.go: the price mapping *)

Lemma Split_append (s t : string) (sep : ascii) :
  Split (s ++ String sep t) sep = (Split s sep ++ Split t sep)%list.
Proof.
  induction s as [|c s IH]; simpl.
  - now rewrite Ascii.eqb_refl.
  - destruct (Ascii.eqb c sep); rewrite IH; [reflexivity|].
    destruct (Split s sep) as [|h tl] eqn:E; [now apply Split_not_nil in E|reflexivity].
Qed.

Lemma contains_app (s t : string) (c : ascii) :
  contains (s ++ t) c = (contains s c || contains t c)%bool.
Proof.
  induction s as [|d s IH]; simpl; [reflexivity|].
  rewrite IH. now rewrite orb_assoc.
Qed.

Section Mapping_facts.
Context {lib : GoLib}.

Lemma parsePairs_app (l1 l2 : list string) :
  forall m : gmap string float64,
    parsePairs (l1 ++ l2) m =
    match parsePairs l1 m with
    | Ok m1 => parsePairs l2 m1
    | Err e => Err e
    end.
Proof.
  induction l1 as [|seg l1 IH]; intros m; simpl; [reflexivity|].
  destruct (decide (seg = "")); [apply IH|].
  destruct (Split seg "=") as [|k [|v [|? ?]]]; try reflexivity.
  destruct (ParseFloat v); [apply IH | reflexivity].
Qed.

Lemma ParseGPUPriceMappings_parsePairs (mappingStr : string) :
  ParseGPUPriceMappings mappingStr = parsePairs (Split mappingStr ",") ∅.
Proof.
  unfold ParseGPUPriceMappings. destruct (decide (mappingStr = "")) as [->|]; reflexivity.
Qed.

(** Every entry of the result comes from the start map or from a segment. *)
Lemma parsePairs_lookup (pairs : list string) :
  forall (m0 m : gmap string float64) (k : string) (x : float64),
    parsePairs pairs m0 = Ok m -> m !! k = Some x ->
    m0 !! k = Some x \/
    exists seg v, In seg pairs /\ Split seg "=" = [k; v] /\ ParseFloat v = Ok x.
Proof.
  induction pairs as [|seg pairs IH]; intros m0 m k x; simpl.
  - intros [= <-] L. now left.
  - destruct (decide (seg = "")) as [E|NE].
    + intros P L. destruct (IH _ _ _ _ P L) as [?|(s & v & I & R)]; [now left|].
      right. exists s, v. tauto.
    + destruct (Split seg "=") as [|key [|v [|? ?]]] eqn:S; try discriminate.
      destruct (ParseFloat v) as [value|] eqn:PF; [|discriminate].
      intros P L. destruct (IH _ _ _ _ P L) as [L0|(s & v' & I & R)].
      * destruct (decide (key = k)) as [->|NK].
        -- rewrite lookup_insert_eq in L0. injection L0 as <-.
           right. exists seg, v. tauto.
        -- rewrite lookup_insert_ne in L0 by exact NK. now left.
      * right. exists s, v'. tauto.
Qed.

(** Segments that do not bind [k] leave the entry of [k] as it was. *)
Lemma parsePairs_other_keys (pairs : list string) (k : string) :
  forall m0 m : gmap string float64,
    parsePairs pairs m0 = Ok m ->
    (forall seg v, In seg pairs -> Split seg "=" <> [k; v]) ->
    m !! k = m0 !! k.
Proof.
  induction pairs as [|seg pairs IH]; intros m0 m; simpl.
  - now intros [= <-] _.
  - intros P N.
    assert (N' : forall s v, In s pairs -> Split s "=" <> [k; v])
      by (intros s v I; apply N; now right).
    destruct (decide (seg = "")) as [E|NE]; [now apply IH|].
    destruct (Split seg "=") as [|key [|v [|? ?]]] eqn:S; try discriminate.
    destruct (ParseFloat v) as [value|] eqn:PF; [|discriminate].
    rewrite (IH _ _ P N'). apply lookup_insert_ne.
    intros ->. apply (N seg v); [now left | exact S].
Qed.

(** X1.  When [ParseGPUPriceMappings] succeeds, every entry of the map it
    returns is a segment [key=value] of the input with the value as
    [strconv.ParseFloat] reads it, and the entry of a key is given by the
    last segment that binds the key. *)
Theorem ParseGPUPriceMappings_entries (mappingStr : string) (m : gmap string float64) :
  ParseGPUPriceMappings mappingStr = Ok m ->
  (forall k x, m !! k = Some x ->
     exists seg v, In seg (Split mappingStr ",") /\ Split seg "=" = [k; v] /\
                   ParseFloat v = Ok x) /\
  (forall before seg after k v,
     Split mappingStr "," = (before ++ seg :: after)%list ->
     Split seg "=" = [k; v] ->
     (forall seg' v', In seg' after -> Split seg' "=" <> [k; v']) ->
     exists x, ParseFloat v = Ok x /\ m !! k = Some x).
Proof.
  rewrite ParseGPUPriceMappings_parsePairs. intros P. split.
  - intros k x L. destruct (parsePairs_lookup _ _ _ _ _ P L) as [L0|R]; [|exact R].
    rewrite lookup_empty in L0. discriminate.
  - intros before seg after k v E S N. rewrite E, parsePairs_app in P.
    destruct (parsePairs before ∅) as [m1|] eqn:P1; [|discriminate].
    simpl in P. destruct (decide (seg = "")) as [->|NE]; [discriminate S|].
    rewrite S in P. destruct (ParseFloat v) as [x|]; [|discriminate].
    exists x. split; [reflexivity|].
    rewrite (parsePairs_other_keys _ _ _ _ P N). apply lookup_insert_eq.
Qed.

(** X2.  Appending a segment [key=value] to a mapping string that parses
    adds the entry, or replaces the entry the key had. *)
Theorem ParseGPUPriceMappings_append (mappingStr key v : string)
    (m : gmap string float64) (value : float64) :
  ParseGPUPriceMappings mappingStr = Ok m ->
  contains key "," = false -> contains key "=" = false ->
  contains v "," = false -> contains v "=" = false ->
  ParseFloat v = Ok value ->
  ParseGPUPriceMappings (mappingStr ++ "," ++ key ++ "=" ++ v) = Ok (<[key := value]> m).
Proof.
  intros P Kc Ke Vc Ve PF. rewrite ParseGPUPriceMappings_parsePairs in *.
  change ("," ++ key ++ "=" ++ v)%string with (String "," (key ++ String "=" v)).
  rewrite Split_append, parsePairs_app, P.
  rewrite (Split_without_sep (key ++ String "=" v) ",")
    by (rewrite contains_app; simpl; now rewrite Kc, Vc).
  simpl. destruct (decide ((key ++ String "=" v)%string = "")) as [E|_].
  { destruct key; discriminate E. }
  rewrite (proj2 (Split_two (key ++ String "=" v) key v "=")) by tauto.
  now rewrite PF.
Qed.

End Mapping_facts.

Lemma ParseGPUPriceMappings_entries_witness :
  let lib := Concrete.lib in
  let m : gmap string float64 := {["a100" := of_int 250; "t4" := of_int 50]} in
  ParseGPUPriceMappings "a100=200,t4=50,,a100=250" = Ok m /\
  (exists x, ParseFloat "250" = Ok x /\ m !! "a100" = Some x).
Proof.
  intros lib m.
  assert (P : ParseGPUPriceMappings "a100=200,t4=50,,a100=250" = Ok m)
    by (vm_compute; reflexivity).
  split; [exact P|].
  apply (proj2 (ParseGPUPriceMappings_entries _ m P) ["a100=200"; "t4=50"; ""] "a100=250" []).
  - reflexivity.
  - reflexivity.
  - intros seg' v' [].
Defined.

Lemma ParseGPUPriceMappings_append_witness :
  let lib := Concrete.lib in
  ParseGPUPriceMappings "a100=200,t4=50" = Ok {["a100" := of_int 200; "t4" := of_int 50]} /\
  ParseGPUPriceMappings "a100=200,t4=50,a100=250"
  = Ok (<["a100" := of_int 250]> {["a100" := of_int 200; "t4" := of_int 50]}).
Proof.
  intros lib.
  assert (P : ParseGPUPriceMappings "a100=200,t4=50"
              = Ok {["a100" := of_int 200; "t4" := of_int 50]})
    by (vm_compute; reflexivity).
  split; [exact P|].
  apply (ParseGPUPriceMappings_append "a100=200,t4=50" "a100" "250" _ (of_int 250) P);
    reflexivity.
Defined.

(** ** gpu.go: the price of the GPUs of a request *)

Lemma Split_descriptorKey (vendor gpuModel gpuRam gpuInterface : string) :
  contains vendor "/" = false -> contains gpuModel "/" = false ->
  contains gpuRam "/" = false -> contains gpuInterface "/" = false ->
  Split (descriptorKey vendor gpuModel gpuRam gpuInterface) "/"
  = ["vendor"; vendor; "model"; gpuModel; "ram"; gpuRam; "interface"; gpuInterface].
Proof.
  intros Hv Hm Hr Hi.
  change (descriptorKey vendor gpuModel gpuRam gpuInterface)
    with ("vendor" ++ String "/" (vendor ++ String "/" ("model" ++ String "/"
            (gpuModel ++ String "/" ("ram" ++ String "/" (gpuRam ++ String "/"
               ("interface" ++ String "/" gpuInterface)))))))%string.
  rewrite !Split_app by (assumption || reflexivity).
  now rewrite Split_without_sep.
Qed.

Lemma scanParts_step (part next : string) (rest : list string) (t : gpuTokens) :
  scanParts (part :: next :: rest) t =
  scanParts (next :: rest)
    (if decide (part = "model") then mkGpuTokens next (vram t) (interfaceType t)
     else if decide (part = "ram") then mkGpuTokens (model t) next (interfaceType t)
     else if decide (part = "interface") then mkGpuTokens (model t) (vram t) next
     else t).
Proof. reflexivity. Qed.

Lemma scanParts_last (part : string) (t : gpuTokens) : scanParts [part] t = t.
Proof. reflexivity. Qed.

Lemma append_assoc (a b c : string) : ((a ++ b) ++ c)%string = (a ++ b ++ c)%string.
Proof.
  induction a as [|x a IH]; [reflexivity|].
  change (String x ((a ++ b) ++ c) = String x (a ++ b ++ c))%string. now rewrite IH.
Qed.

(** X3.  A GPU attribute key vendor/V/model/M/ram/R/interface/I yields the
    tokens M, R and I, provided M is not the word model and R is neither
    model nor ram; with R and I not empty the unit price is then the first
    entry found among the keys M.R.I, M.R and M, and the largest price
    otherwise. *)
Theorem resolvePrice_descriptor (vendor gpuModel gpuRam gpuInterface value : string)
    (gpuMappings : gmap string float64) (maxGPUPrice : float64) :
  contains vendor "/" = false -> contains gpuModel "/" = false ->
  contains gpuRam "/" = false -> contains gpuInterface "/" = false ->
  gpuModel <> "model" -> gpuRam <> "model" -> gpuRam <> "ram" ->
  let t := scanAttributes
             [mkAttribute (descriptorKey vendor gpuModel gpuRam gpuInterface) value] in
  t = mkGpuTokens gpuModel gpuRam gpuInterface /\
  (gpuRam <> "" -> gpuInterface <> "" ->
   resolvePrice t gpuMappings maxGPUPrice =
   match gpuMappings !! (gpuModel ++ "." ++ gpuRam ++ "." ++ gpuInterface) with
   | Some price => price
   | None =>
       match gpuMappings !! (gpuModel ++ "." ++ gpuRam) with
       | Some price => price
       | None => default maxGPUPrice (gpuMappings !! gpuModel)
       end
   end).
Proof.
  intros Hv Hm Hr Hi N1 N2 N3 t.
  assert (T : t = mkGpuTokens gpuModel gpuRam gpuInterface).
  { unfold t.
    change (scanAttributes
              [mkAttribute (descriptorKey vendor gpuModel gpuRam gpuInterface) value])
      with (scanParts (Split (descriptorKey vendor gpuModel gpuRam gpuInterface) "/")
                      (mkGpuTokens "" "" "")).
    rewrite Split_descriptorKey by assumption.
    do 7 (rewrite scanParts_step;
          repeat (case_decide; subst; try discriminate; try congruence);
          cbn [model vram interfaceType]);
      rewrite scanParts_last; reflexivity. }
  split; [exact T|]. intros R0 I0. rewrite T.
  unfold resolvePrice, fullKey. cbn [model vram interfaceType].
  repeat (case_decide; try congruence).
  rewrite (append_assoc gpuModel ("." ++ gpuRam) ("." ++ gpuInterface)).
  destruct (gpuMappings !! _); [reflexivity|].
  destruct (gpuMappings !! _); [reflexivity|].
  destruct (gpuMappings !! _); reflexivity.
Qed.

Lemma resolvePrice_descriptor_witness :
  let t := scanAttributes
             [mkAttribute (descriptorKey "nvidia" "a100" "80Gi" "sxm4") "true"] in
  t = mkGpuTokens "a100" "80Gi" "sxm4" /\
  resolvePrice t {["a100.80Gi" := of_int 300; "a100" := of_int 200]} (of_int 300)
  = of_int 300.
Proof.
  intros t.
  pose proof (resolvePrice_descriptor "nvidia" "a100" "80Gi" "sxm4" "true"
                {["a100.80Gi" := of_int 300; "a100" := of_int 200]} (of_int 300)
                eq_refl eq_refl eq_refl eq_refl
                ltac:(discriminate) ltac:(discriminate) ltac:(discriminate)) as [T R].
  split; [exact T|].
  exact (R ltac:(discriminate) ltac:(discriminate)).
Defined.

(** X4.  The units of a request that have no GPU add nothing: the total of
    a request with no GPU at all is exactly 0, and a unit without GPU put
    before the others leaves the total as it is. *)
Theorem CalculateTotalGPUPrice_without_GPU (name : string) (units : list ResourceUnit)
    (gpuMappings : gmap string float64) (maxGPUPrice : float64) :
  (Forall (fun resourceUnit => res_GPU (ru_Resources resourceUnit) = None) units ->
   CalculateTotalGPUPrice (mkGroupSpec name units) gpuMappings maxGPUPrice = zero) /\
  (forall resourceUnit,
     res_GPU (ru_Resources resourceUnit) = None ->
     CalculateTotalGPUPrice (mkGroupSpec name (resourceUnit :: units)) gpuMappings maxGPUPrice
     = CalculateTotalGPUPrice (mkGroupSpec name units) gpuMappings maxGPUPrice).
Proof.
  unfold CalculateTotalGPUPrice. simpl gs_Resources. split.
  - generalize zero. induction 1 as [|ru l Hru _ IH]; simpl; [reflexivity|].
    unfold gpuUnitPrice at 2. rewrite Hru. exact IH.
  - intros ru Hru. simpl. unfold gpuUnitPrice at 2. now rewrite Hru.
Qed.

(** ** cache.go: fetching the price *)

Lemma traced_traced (w : World) (l1 l2 : list Event) :
  traced (traced w l1) l2 = traced w (l1 ++ l2).
Proof. unfold traced. simpl. now rewrite <- app_assoc. Qed.

Lemma fetchPriceFromURL_eq (url : string) (w : World) :
  fetchPriceFromURL url w = (Done (priceOf (w_http w url)), traced w [EvHttpGet url]).
Proof.
  unfold fetchPriceFromURL, bind, HttpGet, ret, priceOf, traced.
  destruct (w_http w url) as [e|code st body [data|e]]; reflexivity.
Qed.

Lemma fetchPriceFromAPI_eq (w : World) :
  fetchPriceFromAPI w =
  match priceOf (w_http w primaryURL) with
  | Ok price => (Done (Ok price), traced w [EvHttpGet primaryURL])
  | Err _ =>
      (Done (priceOf (w_http w fallbackURL)),
       traced w [EvHttpGet primaryURL;
                 EvStdout "Primary API failed, trying fallback";
                 EvHttpGet fallbackURL])
  end.
Proof.
  unfold fetchPriceFromAPI, bind at 1. rewrite fetchPriceFromURL_eq.
  destruct (priceOf (w_http w primaryURL)) as [price|e]; [reflexivity|].
  unfold bind, Println, emit. fold (traced (traced w [EvHttpGet primaryURL])
                                           [EvStdout "Primary API failed, trying fallback"]).
  rewrite fetchPriceFromURL_eq, !traced_traced. reflexivity.
Qed.

(** X5.  [fetchPriceFromAPI] asks the primary source once; when its answer
    decodes as JSON nothing else is asked, whatever the status code and the
    content; otherwise the fallback source is asked once, and its price or
    its error is the result (the error of the primary source is dropped). *)
Theorem fetchPriceFromAPI_outcome (w : World) :
  fetchPriceFromAPI w =
  match priceOf (w_http w primaryURL) with
  | Ok price => (Done (Ok price), traced w [EvHttpGet primaryURL])
  | Err _ =>
      (Done (priceOf (w_http w fallbackURL)),
       traced w [EvHttpGet primaryURL;
                 EvStdout "Primary API failed, trying fallback";
                 EvHttpGet fallbackURL])
  end.
Proof. apply fetchPriceFromAPI_eq. Qed.

Section Cache_more.
Context {lib : GoLib}.

Lemma GetAKTPrice_unusable (w : World) :
  cacheUnusable w -> GetAKTPrice w = refresh w.
Proof.
  intros U. unfold cacheUnusable in U.
  destruct (w_files w !! cacheFilePath) as [f|] eqn:F.
  - destruct (Z.gtb_spec (file_age f) (60 * Minute)) as [Old|Fresh].
    + apply (GetAKTPrice_refresh w "cache file does not exist or is expired").
      rewrite readCachedPrice_eq, F.
      destruct (Z.gtb_spec (file_age f) (60 * Minute)); [reflexivity|lia].
    + destruct U as [U|U]; [lia|].
      destruct (ParseFloat (file_data f)) as [p|e] eqn:P; [discriminate|].
      apply (GetAKTPrice_refresh w e).
      rewrite readCachedPrice_eq, F.
      destruct (Z.gtb_spec (file_age f) (60 * Minute)); [lia|]. now rewrite P.
  - apply (GetAKTPrice_refresh w "cache file does not exist or is expired").
    now rewrite readCachedPrice_eq, F.
Qed.



(** X7.  When the cache gives no price and both sources fail, [GetAKTPrice]
    returns the error of the fallback source and writes nothing. *)
Theorem GetAKTPrice_both_sources_fail (w : World) (e1 e2 : string) :
  cacheUnusable w ->
  priceOf (w_http w primaryURL) = Err e1 ->
  priceOf (w_http w fallbackURL) = Err e2 ->
  GetAKTPrice w =
  (Done (Err e2),
   traced w [EvHttpGet primaryURL;
             EvStdout "Primary API failed, trying fallback";
             EvHttpGet fallbackURL]).
Proof.
  intros U P1 P2. rewrite (GetAKTPrice_unusable w U).
  unfold refresh. now rewrite fetchPriceFromAPI_eq, P1, P2.
Qed.


(** X9.  After a call that fetched a price, a second call makes no request:
    it returns what [strconv.ParseFloat] reads in the six-decimal text of
    the price, which is the price rounded to six decimals and not the price
    that was fetched. *)
Theorem GetAKTPrice_second_call (w w1 : World) (price cached : float64) :
  cacheUnusable w ->
  GetAKTPrice w = (Done (Ok price), w1) ->
  ParseFloat (FormatFloat 6 price) = Ok cached ->
  GetAKTPrice w1 = (Done (Ok cached), w1).
Proof.
  intros U G P. rewrite (GetAKTPrice_unusable w U) in G. unfold refresh in G.
  destruct (fetchPriceFromAPI w) as [[[p|e]|msg] w0]; try discriminate.
  destruct (w_writeError w0 cacheFilePath); [discriminate|].
  injection G as -> <-.
  apply GetAKTPrice_cached. rewrite readCachedPrice_eq. simpl.
  rewrite lookup_insert_eq. simpl. now rewrite P.
Qed.

End Cache_more.

Lemma GetAKTPrice_both_sources_fail_witness :
  let lib := Concrete.lib in
  let w := MoreSamples.corruptCache Samples.offline in
  GetAKTPrice w =
  (Done (Err "no route to host"),
   traced w [EvHttpGet primaryURL;
             EvStdout "Primary API failed, trying fallback";
             EvHttpGet fallbackURL]).
Proof.
  intros lib w.
  apply (GetAKTPrice_both_sources_fail w "no route to host" "no route to host").
  - right. reflexivity.
  - reflexivity.
  - reflexivity.
Defined.


Lemma GetAKTPrice_second_call_witness :
  let lib := Concrete.lib in
  let w := Samples.emptyWorld MoreSamples.sevenDigits in
  let w1 := snd (GetAKTPrice w) in
  fst (GetAKTPrice w) = Done (Ok (of_ratio 1234567 10000000)) /\
  GetAKTPrice w1 = (Done (Ok (of_ratio 123457 1000000)), w1).
Proof.
  intros lib w w1. split; [vm_compute; reflexivity|].
  apply (GetAKTPrice_second_call w w1 (of_ratio 1234567 10000000)).
  - exact I.
  - vm_compute. reflexivity.
  - vm_compute. reflexivity.
Defined.

(** ** whitelist.go *)


Lemma CheckWhitelist_start (owner : string) (w : World) :
  CheckWhitelist owner w =
  if decide (whitelistURLOf w = "") then (Done (Ok tt), w)
  else
    match (if match w_files w !! whitelistFilePath with
               | None => true
               | Some f => file_age f >? 10 * Minute
               end
           then fetchWhitelist (whitelistURLOf w) whitelistFilePath w
           else (Done (Ok tt), w)) with
    | (Done (Ok _), w1) =>
        verifyInWhitelist whitelistFilePath (default "" (w_env w1 !! "AKASH_OWNER")) w1
    | (Done (Err e), w1) => (Done (Err ("error fetching whitelist: " ++ e)), w1)
    | (Fatal msg, w1) => (Fatal msg, w1)
    end.
Proof.
  unfold CheckWhitelist, bind at 1, Getenv at 1. fold (whitelistURLOf w).
  destruct (decide (whitelistURLOf w = "")); [reflexivity|].
  unfold bind at 1, shouldFetchWhitelist, bind at 1, Stat.
  destruct (w_files w !! whitelistFilePath) as [f|]; unfold ret at 1.
  - unfold bind at 1. destruct (file_age f >? 10 * Minute).
    + destruct (fetchWhitelist _ _ w) as [[[u|e]|msg] w1]; reflexivity.
    + reflexivity.
  - unfold bind at 1.
    destruct (fetchWhitelist _ _ w) as [[[u|e]|msg] w1]; reflexivity.
Qed.

(** X10.  Without a whitelist URL ([WHITELIST_URL] unset, empty or made of
    double quotes only) [CheckWhitelist] accepts every owner and touches
    nothing: no request, no file read. *)
Theorem CheckWhitelist_no_url (owner : string) (w : World) :
  whitelistURLOf w = "" -> CheckWhitelist owner w = (Done (Ok tt), w).
Proof.
  intros U. rewrite CheckWhitelist_start.
  destruct (decide (whitelistURLOf w = "")); [reflexivity | contradiction].
Qed.


(** X12.  When the whitelist has to be fetched and the fetch fails (a
    transport error, or a status other than 200), the owner is rejected
    with the error of the fetch; the file the process may still hold is
    neither used nor changed. *)
Theorem CheckWhitelist_fetch_fails (owner : string) (w : World) (e : string) :
  whitelistURLOf w <> "" ->
  whitelistStale w ->
  match w_http w (whitelistURLOf w) with
  | HTTPError e' => e = e'
  | HTTPResponse statusCode status _ _ =>
      statusCode <> 200 /\ e = "HTTP request error: " ++ status
  end ->
  CheckWhitelist owner w
  = (Done (Err ("error fetching whitelist: " ++ e)),
     traced w [EvHttpGet (whitelistURLOf w)]).
Proof.
  intros U S H. rewrite CheckWhitelist_start.
  destruct (decide (whitelistURLOf w = "")); [contradiction|].
  assert (St : match w_files w !! whitelistFilePath with
               | None => true
               | Some f => file_age f >? 10 * Minute
               end = true).
  { unfold whitelistStale in S. destruct (w_files w !! whitelistFilePath) as [f|]; [|reflexivity].
    destruct (Z.gtb_spec (file_age f) (10 * Minute)); [reflexivity|lia]. }
  rewrite St. unfold fetchWhitelist, bind, HttpGet.
  destruct (w_http w (whitelistURLOf w)) as [e'|code status body d].
  - subst e'. reflexivity.
  - destruct H as [N ->]. destruct (Z.eqb_spec code 200); [contradiction|]. reflexivity.
Qed.


Lemma CheckWhitelist_no_url_witness :
  let w := mkWorld {["WHITELIST_URL" := String quoteChar (String quoteChar "")]}
                   ∅ (fun _ => None) Samples.offline [] in
  CheckWhitelist "akash1aaa" w = (Done (Ok tt), w).
Proof.
  intros w. apply (CheckWhitelist_no_url "akash1aaa" w). reflexivity.
Defined.


Lemma CheckWhitelist_fetch_fails_witness :
  let f := mkFile (11 * Minute) WhitelistSamples.body in
  let http := WhitelistSamples.serves
                (HTTPResponse 404 "404 Not Found" "" (Err "unexpected end of JSON input")) in
  let w := WhitelistSamples.world "akash1aaa" (Some f) http in
  CheckWhitelist "akash1aaa" w
  = (Done (Err "error fetching whitelist: HTTP request error: 404 Not Found"),
     traced w [EvHttpGet WhitelistSamples.url]).
Proof.
  intros f http w.
  apply (CheckWhitelist_fetch_fails "akash1aaa" w "HTTP request error: 404 Not Found").
  - discriminate.
  - vm_compute. reflexivity.
  - vm_compute. split; [discriminate | reflexivity].
Defined.


(** *** The lines of the whitelist file *)












(** ** pricing.go: endpoints and addresses *)

Lemma fold_addEndpoint_totals (count : Z) (l : list Endpoint) :
  forall (r : ResourceRequests) (X Y : Z),
    EndpointsRequested r = Int64.wrap X -> IPsRequested r = Int64.wrap Y ->
    EndpointsRequested (fold_left (addEndpoint count) l r)
    = Int64.wrap (X + count * Z.of_nat (length l)) /\
    IPsRequested (fold_left (addEndpoint count) l r)
    = Int64.wrap (Y + count * Z.of_nat (length (List.filter isLeasedIP l))).
Proof.
  induction l as [|e l IH]; intros r X Y HX HY.
  - simpl. now rewrite !Z.mul_0_r, !Z.add_0_r.
  - simpl fold_left.
    assert (E1 : EndpointsRequested (addEndpoint count r e) = Int64.wrap (X + count)).
    { simpl. unfold Int64.add. rewrite HX. apply wrap_add_l. }
    assert (E2 : IPsRequested (addEndpoint count r e)
                 = Int64.wrap (Y + (if isLeasedIP e then count else 0))).
    { unfold addEndpoint, isLeasedIP. simpl.
      destruct (ep_Kind e); rewrite ?Z.add_0_r; try exact HY.
      unfold Int64.add. rewrite HY. apply wrap_add_l. }
    destruct (IH _ _ _ E1 E2) as [R1 R2]. rewrite R1, R2. split; f_equal.
    + simpl length. lia.
    + simpl List.filter. destruct (isLeasedIP e); simpl length; lia.
Qed.

Lemma fold_addStorage_endpoints (count : Z) (l : list Storage) :
  forall r,
    EndpointsRequested (fold_left (addStorage count) l r) = EndpointsRequested r /\
    IPsRequested (fold_left (addStorage count) l r) = IPsRequested r.
Proof.
  induction l as [|s l IH]; intros r; simpl; [split; reflexivity|].
  destruct (IH (addStorage count r s)) as [-> ->].
  unfold addStorage. repeat (destruct (decide _)); split; reflexivity.
Qed.

Lemma addResourceUnit_endpoints (r : ResourceRequests) (ru : ResourceUnit) (X Y : Z) :
  EndpointsRequested r = Int64.wrap X -> IPsRequested r = Int64.wrap Y ->
  EndpointsRequested (addResourceUnit r ru) = Int64.wrap (X + endpointsOf ru) /\
  IPsRequested (addResourceUnit r ru) = Int64.wrap (Y + leasedIPsOf ru).
Proof.
  intros HX HY. unfold addResourceUnit, endpointsOf, leasedIPsOf.
  apply fold_addEndpoint_totals.
  - rewrite (proj1 (fold_addStorage_endpoints _ _ _)).
    unfold addMemory, addCPU. destruct (res_Memory _), (res_CPU _); exact HX.
  - rewrite (proj2 (fold_addStorage_endpoints _ _ _)).
    unfold addMemory, addCPU. destruct (res_Memory _), (res_CPU _); exact HY.
Qed.

Lemma fold_addResourceUnit_endpoints (l : list ResourceUnit) :
  forall (r : ResourceRequests) (X Y : Z),
    EndpointsRequested r = Int64.wrap X -> IPsRequested r = Int64.wrap Y ->
    EndpointsRequested (fold_left addResourceUnit l r)
    = Int64.wrap (X + sumZ (map endpointsOf l)) /\
    IPsRequested (fold_left addResourceUnit l r)
    = Int64.wrap (Y + sumZ (map leasedIPsOf l)).
Proof.
  induction l as [|ru l IH]; intros r X Y HX HY.
  - simpl. now rewrite !Z.add_0_r.
  - simpl fold_left. destruct (addResourceUnit_endpoints r ru X Y HX HY) as [E1 E2].
    destruct (IH _ _ _ E1 E2) as [R1 R2]. rewrite R1, R2. simpl.
    split; f_equal; lia.
Qed.

Lemma leasedIPsOf_le (ru : ResourceUnit) : 0 <= ru_Count ru -> 0 <= leasedIPsOf ru <= endpointsOf ru.
Proof.
  intros H. unfold leasedIPsOf, endpointsOf.
  pose proof (filter_length_le isLeasedIP (res_Endpoints (ru_Resources ru))) as L.
  apply Nat2Z.inj_le in L.
  set (a := Z.of_nat (length (List.filter isLeasedIP (res_Endpoints (ru_Resources ru))))) in *.
  set (b := Z.of_nat (length (res_Endpoints (ru_Resources ru)))) in *.
  assert (0 <= a) by (unfold a; lia). clearbody a b. nia.
Qed.

(** X15.  The endpoint total is the repetition count of every unit once per
    endpoint of the unit, the address total the same over the endpoints of
    kind leased IP only, both in signed 64-bit arithmetic; with counts that
    are not negative there are never more addresses than endpoints. *)
Theorem CalculateRequestedResources_endpoints (gSpec : GroupSpec) :
  EndpointsRequested (CalculateRequestedResources gSpec)
  = Int64.wrap (sumZ (map endpointsOf (gs_Resources gSpec))) /\
  IPsRequested (CalculateRequestedResources gSpec)
  = Int64.wrap (sumZ (map leasedIPsOf (gs_Resources gSpec))) /\
  (Forall (fun resourceUnit => 0 <= ru_Count resourceUnit) (gs_Resources gSpec) ->
   0 <= sumZ (map leasedIPsOf (gs_Resources gSpec))
     <= sumZ (map endpointsOf (gs_Resources gSpec))).
Proof.
  unfold CalculateRequestedResources.
  destruct (fold_addResourceUnit_endpoints (gs_Resources gSpec) zeroResourceRequests 0 0
              eq_refl eq_refl) as [E1 E2].
  rewrite E1, E2, !Z.add_0_l. split; [reflexivity|]. split; [reflexivity|].
  clear E1 E2. induction 1 as [|ru l Hru _ IH]; [simpl; lia|].
  pose proof (leasedIPsOf_le ru Hru).
  change (0 <= leasedIPsOf ru + sumZ (map leasedIPsOf l)
            <= endpointsOf ru + sumZ (map endpointsOf l)).
  lia.
Qed.

(** ** pricing.go: the monthly cost *)

Lemma CalculateRequestedResources_empty (l : list ResourceUnit) :
  Forall emptyUnit l ->
  forall r, fold_left addResourceUnit l r = r.
Proof.
  induction 1 as [|ru l (C & M & S & E) _ IH]; intros r; simpl; [reflexivity|].
  rewrite IH. unfold addResourceUnit, addMemory, addCPU. now rewrite C, M, S, E.
Qed.

Lemma zero_product (target : float64) :
  isFinite target = true -> exists s, mul zero target = S754_zero s.
Proof. destruct target as [s|s| |s m e]; try discriminate; intros _; eexists; reflexivity. Qed.

Lemma add_zero_signed (s : bool) : add zero (S754_zero s) = zero.
Proof. now destruct s. Qed.

(** X16.  A request whose units ask for no CPU, memory, storage or endpoint
    costs exactly 0 USD per month before the GPUs, whatever the price
    targets are, as long as none of them is infinite or NaN. *)
Theorem CalculateTotalCostUsdTarget_nothing_requested (gSpec : GroupSpec)
    (priceTargets : PriceTargets) :
  Forall emptyUnit (gs_Resources gSpec) ->
  finiteTargets priceTargets ->
  CalculateRequestedResources gSpec = zeroResourceRequests /\
  CalculateTotalCostUsdTarget (CalculateRequestedResources gSpec) priceTargets = zero.
Proof.
  intros E (F1 & F2 & F3 & F4 & F5 & F6 & F7 & F8).
  assert (R : CalculateRequestedResources gSpec = zeroResourceRequests)
    by (apply CalculateRequestedResources_empty; exact E).
  split; [exact R|]. rewrite R.
  unfold CalculateTotalCostUsdTarget, zeroResourceRequests.
  cbv beta iota zeta delta [CPURequested MemoryRequested EphemeralStorageRequested
    HDDPersStorageRequested SSDPersStorageRequested NVMePersStorageRequested
    IPsRequested EndpointsRequested].
  change (of_int 0) with zero.
  destruct (zero_product _ F1) as [s1 ->]. rewrite add_zero_signed.
  destruct (zero_product _ F2) as [s2 ->]. rewrite add_zero_signed.
  destruct (zero_product _ F3) as [s3 ->]. rewrite add_zero_signed.
  destruct (zero_product _ F4) as [s4 ->]. rewrite add_zero_signed.
  destruct (zero_product _ F5) as [s5 ->]. rewrite add_zero_signed.
  destruct (zero_product _ F6) as [s6 ->]. rewrite add_zero_signed.
  destruct (zero_product _ F7) as [s7 ->]. rewrite add_zero_signed.
  destruct (zero_product _ F8) as [s8 ->]. apply add_zero_signed.
Qed.

Lemma CalculateTotalCostUsdTarget_nothing_requested_witness :
  let gSpec := mkGroupSpec "g" [Samples.a100Sxm4] in
  let priceTargets :=
    mkPriceTargets DefaultCPUTarget DefaultMemoryTarget DefaultHDEphemeralTarget
      DefaultHDPersHDDTarget DefaultHDPersSSDTarget DefaultHDPersNVMETarget
      DefaultEndpointTarget DefaultIPTarget Samples.onlyModelPriced in
  CalculateRequestedResources gSpec = zeroResourceRequests /\
  CalculateTotalCostUsdTarget (CalculateRequestedResources gSpec) priceTargets = zero.
Proof.
  intros gSpec priceTargets.
  apply (CalculateTotalCostUsdTarget_nothing_requested gSpec priceTargets).
  - repeat constructor.
  - repeat split.
Defined.

(** ** pricing.go: the rate per block *)

Section BlockRates.
Context {lib : GoLib}.

(** X17.  [CalculateBlockRates] does not guard against an exchange rate of
    0: a positive monthly cost then gives an infinite rate in uakt and a
    cost of 0 gives NaN, while the rate in USD does not depend on the
    exchange rate; the precision it is given is not used. *)
Theorem CalculateBlockRates_zero_exchange_rate (m : positive) (e precision : Z) :
  let cost := S754_finite false m e in
  CalculateBlockRates cost zero precision
  = (S754_infinity false, div cost BlocksPerMonth,
     FormatFloat 16 (S754_infinity false) ++ "uakt") /\
  CalculateBlockRates zero zero precision
  = (S754_nan, zero, FormatFloat 16 S754_nan ++ "uakt") /\
  (forall totalCostUsdTarget usdPerAkt usdPerAkt' precision',
     snd (fst (CalculateBlockRates totalCostUsdTarget usdPerAkt precision))
     = snd (fst (CalculateBlockRates totalCostUsdTarget usdPerAkt' precision'))).
Proof.
  intros cost. split; [|split].
  - reflexivity.
  - reflexivity.
  - reflexivity.
Qed.

(** ** pricing.go: the price targets *)

Lemma GetEnvFloat_eq (envVar : string) (defaultValue : float64) (w : World) :
  GetEnvFloat envVar defaultValue w = (Done (envFloat (w_env w) envVar defaultValue), w).
Proof.
  unfold GetEnvFloat, envFloat, bind, LookupEnv, ret.
  destruct (w_env w !! envVar) as [v|]; [|reflexivity].
  destruct (ParseFloat v); reflexivity.
Qed.

Lemma SetPriceTargets_eq (w : World) :
  SetPriceTargets w =
  match ParseGPUPriceMappings (default "" (w_env w !! "PRICE_TARGET_GPU_MAPPINGS")) with
  | Ok gpuMappings => (Done (targetsOf (w_env w) gpuMappings), w)
  | Err e => (Fatal ("Error parsing GPU mappings: " ++ e), w)
  end.
Proof.
  unfold SetPriceTargets, bind at 1, Getenv.
  destruct (ParseGPUPriceMappings _) as [gpuMappings|e]; [|reflexivity].
  unfold bind. rewrite !GetEnvFloat_eq. reflexivity.
Qed.

(** X18.  [SetPriceTargets] changes nothing; a target whose variable is not
    set, or holds no number, takes its default; and the process ends, with
    a message, exactly when [PRICE_TARGET_GPU_MAPPINGS] has a segment that
    is neither empty nor of the form key=number. *)
Theorem SetPriceTargets_outcome (w : World) :
  let mappingStr := default "" (w_env w !! "PRICE_TARGET_GPU_MAPPINGS") in
  SetPriceTargets w =
  match ParseGPUPriceMappings mappingStr with
  | Ok gpuMappings => (Done (targetsOf (w_env w) gpuMappings), w)
  | Err e => (Fatal ("Error parsing GPU mappings: " ++ e), w)
  end /\
  ((exists msg, fst (SetPriceTargets w) = Fatal msg) <->
   exists seg, In seg (Split mappingStr ",") /\ seg <> "" /\ ~ wellFormedPair seg).
Proof.
  intros mappingStr.
  assert (E : SetPriceTargets w =
              match ParseGPUPriceMappings mappingStr with
              | Ok gpuMappings => (Done (targetsOf (w_env w) gpuMappings), w)
              | Err e => (Fatal ("Error parsing GPU mappings: " ++ e), w)
              end).
  { apply SetPriceTargets_eq. }
  split; [exact E|]. rewrite E.
  rewrite <- (parsePairs_error_iff (Split mappingStr ",") ∅).
  rewrite <- ParseGPUPriceMappings_parsePairs.
  destruct (ParseGPUPriceMappings mappingStr) as [gpuMappings|e]; simpl.
  - split; [intros [msg H]; discriminate H | discriminate].
  - split; [reflexivity | eauto].
Qed.

End BlockRates.

(** ** pricing.go: what [RequestToBidPrice] returns *)

Section Bid_facts.
Context {lib : GoLib}.

Lemma requestPrice_nil (request : Request) :
  GSpec request = None -> requestPrice request = ("", mkDec 0).
Proof. unfold requestPrice. now intros ->. Qed.

(** X19.  [RequestToBidPrice] returns one of four errors: no owner, the
    whitelist, the price feed, or a first unit without denomination or with
    a ceiling of 0.  Its test for a request without group specification
    can never fire, such a request having no denomination; and no error is
    about the denomination or about a ceiling that is too low. *)
Theorem RequestToBidPrice_returned_errors (request : Request) (w : World) :
  match fst (RequestToBidPrice request w) with
  | Done (Err e) => returnedError e
  | _ => True
  end /\
  fst (RequestToBidPrice request w) <> Done (Err "GroupSpec is nil in the request") /\
  (forall text, fst (RequestToBidPrice request w)
                <> Done (Err ("requested rate is too low. min expected " ++ text))) /\
  (forall text, fst (RequestToBidPrice request w)
                <> Done (Err ("denom is not supported: " ++ text))).
Proof.
  assert (K : match fst (RequestToBidPrice request w) with
              | Done (Err e) => returnedError e
              | _ => True
              end).
  { unfold RequestToBidPrice, returnedError, bind at 1, emit.
    destruct (decide (Owner request = "")); [simpl; tauto|].
    destruct (requestPrice request) as [denom amount] eqn:RP.
    destruct (SpecialPricing (Owner request)); [exact I|].
    unfold bind at 1. destruct (CheckWhitelist (Owner request) _) as [[[[]|e0]|msg] w0];
      [|simpl; eauto|exact I].
    unfold bind at 1. destruct (GetAKTPrice w0) as [[[usdPerAkt|e1]|msg] w1];
      [|simpl; eauto 6|exact I].
    destruct (bool_decide (denom = "") || Dec_IsZero amount)%bool eqn:Missing;
      [simpl; tauto|].
    destruct (GSpec request) as [gSpec|] eqn:G.
    - unfold bind at 1. destruct (SetPriceTargets w1) as [[priceTargets|msg] w2];
        [|exact I].
      destruct (CalculateBlockRates _ _ _) as [[r1 r2] finalRateStr]. exact I.
    - rewrite (requestPrice_nil request G) in RP. injection RP as <- <-.
      discriminate Missing. }
  split; [exact K|].
  destruct (fst (RequestToBidPrice request w)) as [[u|e]|msg];
    try (repeat split; intros; discriminate).
  assert (D : forall s : string, returnedError s ->
                let p := String.substring 0 8 s in
                p = "request " \/ p = "whitelis" \/ p = "error ge" \/ p = "price in").
  { intros s [-> | [[e' ->] | [[e' ->] | ->]]]; vm_compute; tauto. }
  specialize (D e K).
  repeat split; intros; intros [= ->]; vm_compute in D;
    destruct D as [D|[D|[D|D]]]; discriminate D.
Qed.

(** X20.  [HandleDenomLogic] refuses every denomination other than uakt and
    the two IBC denominations, whatever the rates and the ceiling are; for
    those three it accepts whenever the rate it compares or the ceiling is
    NaN, the comparison being false then. *)
Theorem HandleDenomLogic_edge_cases (denom : string)
    (ratePerBlockUakt ratePerBlockUsd : float64) (precision : Z) (amount : Dec) :
  (denom <> uaktDenom -> denom <> ibcDenom1 -> denom <> ibcDenom2 ->
   HandleDenomLogic denom ratePerBlockUakt ratePerBlockUsd precision amount
   = Err ("denom is not supported: " ++ denom)) /\
  (denom = uaktDenom \/ denom = ibcDenom1 \/ denom = ibcDenom2 ->
   is_nan (comparedRate denom ratePerBlockUakt ratePerBlockUsd) = true \/
   is_nan (MustFloat64 amount) = true ->
   HandleDenomLogic denom ratePerBlockUakt ratePerBlockUsd precision amount
   = Ok (FormatFloat precision (comparedRate denom ratePerBlockUakt ratePerBlockUsd))).
Proof.
  split.
  - intros N0 N1 N2. unfold HandleDenomLogic.
    destruct (decide (denom = uaktDenom)); [contradiction|].
    destruct (decide (denom = ibcDenom1 \/ denom = ibcDenom2)); [tauto | reflexivity].
  - intros D N. unfold HandleDenomLogic, comparedRate in *.
    assert (G : forall x y, is_nan x = true \/ is_nan y = true -> gtb x y = false).
    { intros x y [H|H]; destruct x as [?|?| |? ? ?]; try discriminate H;
        destruct y as [?|?| |? ? ?]; try discriminate H; reflexivity. }
    destruct (decide (denom = uaktDenom)).
    + now rewrite (G _ _ N).
    + destruct (decide (denom = ibcDenom1 \/ denom = ibcDenom2)); [|tauto].
      now rewrite (G _ _ N).
Qed.

End Bid_facts.

(** ** pricing.go: what [RequestToBidPrice] does not look at *)

Lemma visible_app (t1 t2 : list Event) :
  visible (t1 ++ t2) = (visible t1 ++ visible t2)%list.
Proof. unfold visible. apply List.filter_app. Qed.

Lemma sameOutside_emit (w1 w2 : World) (e : Event) :
  sameOutside w1 w2 -> sameOutside (snd (emit e w1)) (snd (emit e w2)).
Proof.
  intros (E1 & E2 & E3 & E4 & E5). unfold emit, sameOutside. simpl.
  rewrite !visible_app. repeat split; congruence.
Qed.

Lemma respects_ret {A} (a : A) : respects (ret a).
Proof. intros w1 w2 S. split; [reflexivity | exact S]. Qed.

Lemma respects_Fatalf {A} (msg : string) : respects (@Fatalf A msg).
Proof. intros w1 w2 S. split; [reflexivity | exact S]. Qed.

Lemma respects_emit (e : Event) : respects (emit e).
Proof. intros w1 w2 S. split; [reflexivity | now apply sameOutside_emit]. Qed.

Lemma respects_Println (line : string) : respects (Println line).
Proof. apply respects_emit. Qed.

Lemma respects_Getenv (name : string) : respects (Getenv name).
Proof.
  intros w1 w2 S. unfold Getenv. simpl. split; [|exact S].
  destruct S as (-> & _). reflexivity.
Qed.

Lemma respects_LookupEnv (name : string) : respects (LookupEnv name).
Proof.
  intros w1 w2 S. unfold LookupEnv. simpl. split; [|exact S].
  destruct S as (-> & _). reflexivity.
Qed.

Lemma respects_Stat (path : string) : respects (Stat path).
Proof.
  intros w1 w2 S. unfold Stat. simpl. split; [|exact S].
  destruct S as (_ & -> & _). reflexivity.
Qed.

Lemma respects_ReadFile (path : string) : respects (ReadFile path).
Proof.
  intros w1 w2 S. unfold ReadFile. simpl. split; [|exact S].
  destruct S as (_ & -> & _). reflexivity.
Qed.

Lemma respects_WriteFile (path data : string) : respects (WriteFile path data).
Proof.
  intros w1 w2 (E1 & E2 & E3 & E4 & E5). unfold WriteFile. rewrite E3.
  destruct (w_writeError w2 path); simpl.
  - split; [reflexivity|]. unfold sameOutside. tauto.
  - split; [reflexivity|]. unfold sameOutside. simpl.
    rewrite !visible_app. repeat split; congruence.
Qed.

Lemma respects_HttpGet (url : string) : respects (HttpGet url).
Proof.
  intros w1 w2 (E1 & E2 & E3 & E4 & E5). unfold HttpGet. simpl. rewrite E4.
  split; [reflexivity|]. unfold sameOutside. simpl.
  rewrite !visible_app. repeat split; congruence.
Qed.

Lemma agree_bind {A B} (m : M A) (k1 k2 : A -> M B) (w1 w2 : World) :
  respects m -> sameOutside w1 w2 ->
  (forall a w1' w2', sameOutside w1' w2' -> agree (k1 a w1') (k2 a w2')) ->
  agree (bind m k1 w1) (bind m k2 w2).
Proof.
  intros Hm S Hk. destruct (Hm w1 w2 S) as [E S']. unfold bind.
  destruct (m w1) as [[a|msg] w1'], (m w2) as [[a'|msg'] w2']; simpl in *;
    try discriminate E.
  - injection E as <-. now apply Hk.
  - injection E as <-. split; [reflexivity | exact S'].
Qed.

Lemma respects_bind {A B} (m : M A) (k : A -> M B) :
  respects m -> (forall a, respects (k a)) -> respects (bind m k).
Proof.
  intros Hm Hk w1 w2 S. apply (agree_bind m k k w1 w2 Hm S).
  intros a w1' w2' S'. exact (Hk a w1' w2' S').
Qed.

Ltac respects_step :=
  first
    [ apply respects_bind; [|intros ?]
    | apply respects_ret
    | apply respects_Fatalf
    | apply respects_Println
    | apply respects_emit
    | apply respects_Getenv
    | apply respects_LookupEnv
    | apply respects_Stat
    | apply respects_ReadFile
    | apply respects_WriteFile
    | apply respects_HttpGet
    | match goal with
      | |- respects (match ?x with _ => _ end) => destruct x
      | |- respects (if ?b then _ else _) => destruct b
      end ].

Lemma respects_fetchPriceFromAPI : respects fetchPriceFromAPI.
Proof. unfold fetchPriceFromAPI, fetchPriceFromURL. repeat respects_step. Qed.

Lemma respects_CheckWhitelist (owner : string) : respects (CheckWhitelist owner).
Proof.
  unfold CheckWhitelist, shouldFetchWhitelist, fetchWhitelist, verifyInWhitelist.
  repeat respects_step.
Qed.

Section Respects.
Context {lib : GoLib}.

Lemma respects_GetAKTPrice : respects GetAKTPrice.
Proof.
  unfold GetAKTPrice, readCachedPrice, cachePrice.
  repeat (respects_step || apply respects_fetchPriceFromAPI).
Qed.

Lemma respects_SetPriceTargets : respects SetPriceTargets.
Proof. unfold SetPriceTargets, GetEnvFloat. repeat respects_step. Qed.

Lemma bind_emit {A} (e : Event) (k : unit -> M A) (w : World) :
  bind (emit e) k w = k tt (traced w [e]).
Proof. reflexivity. Qed.

Lemma gpu_fold_resources (l1 l2 : list ResourceUnit) (gpuMappings : gmap string float64)
    (maxGPUPrice : float64) :
  map (fun ru => (ru_Resources ru, ru_Count ru)) l1
  = map (fun ru => (ru_Resources ru, ru_Count ru)) l2 ->
  forall name1 name2,
    CalculateTotalGPUPrice (mkGroupSpec name1 l1) gpuMappings maxGPUPrice
    = CalculateTotalGPUPrice (mkGroupSpec name2 l2) gpuMappings maxGPUPrice.
Proof.
  intros E name1 name2. unfold CalculateTotalGPUPrice. simpl gs_Resources.
  generalize zero. revert l2 E.
  induction l1 as [|a l1 IH]; intros [|b l2] E acc; try discriminate E; [reflexivity|].
  simpl in E. injection E as ER EC E. simpl.
  unfold gpuUnitPrice at 2 4. rewrite ER, EC. now apply IH.
Qed.

Lemma requested_fold_resources (l1 l2 : list ResourceUnit) :
  map (fun ru => (ru_Resources ru, ru_Count ru)) l1
  = map (fun ru => (ru_Resources ru, ru_Count ru)) l2 ->
  forall r, fold_left addResourceUnit l1 r = fold_left addResourceUnit l2 r.
Proof.
  revert l2.
  induction l1 as [|a l1 IH]; intros [|b l2] E r; try discriminate E; [reflexivity|].
  simpl in E. injection E as ER EC E. simpl.
  replace (addResourceUnit r a) with (addResourceUnit r b); [now apply IH|].
  unfold addResourceUnit, addMemory, addCPU. now rewrite ER, EC.
Qed.

(** X21.  The result of [RequestToBidPrice], and all it prints, sends and
    writes apart from the echo of the request, are the same for two
    requests of the same owner for the same resources and counts: the
    denomination and the ceiling offered (as long as the first unit has
    both, or lacks one, in both requests), the ceilings of the other
    units, the name of the group and the price precision have no
    influence. *)
Theorem RequestToBidPrice_ignores_offer (request1 request2 : Request) (w : World) :
  Owner request1 = Owner request2 ->
  resourcesOf request1 = resourcesOf request2 ->
  priceMissing request1 = priceMissing request2 ->
  fst (RequestToBidPrice request1 w) = fst (RequestToBidPrice request2 w) /\
  sameOutside (snd (RequestToBidPrice request1 w)) (snd (RequestToBidPrice request2 w)).
Proof.
  intros EO ER EM. change (agree (RequestToBidPrice request1 w) (RequestToBidPrice request2 w)).
  unfold RequestToBidPrice.
  rewrite (bind_emit (EvPrintRequest request1)), (bind_emit (EvPrintRequest request2)).
  assert (S0 : sameOutside (traced w [EvPrintRequest request1])
                           (traced w [EvPrintRequest request2])).
  { unfold traced, sameOutside. simpl. rewrite !visible_app. simpl.
    now rewrite !app_nil_r. }
  rewrite <- EO. destruct (decide (Owner request1 = "")).
  { split; [reflexivity | exact S0]. }
  unfold priceMissing in EM.
  destruct (requestPrice request1) as [denom1 amount1] eqn:RP1.
  destruct (requestPrice request2) as [denom2 amount2] eqn:RP2.
  simpl in EM.
  destruct (SpecialPricing (Owner request1)).
  { apply agree_bind; [apply respects_Println | exact S0 |].
    intros _ w1 w2 S. split; [reflexivity | exact S]. }
  apply agree_bind; [apply respects_CheckWhitelist | exact S0 |].
  intros [[]|e] w1 w2 S1; [|split; [reflexivity | exact S1]].
  apply agree_bind; [apply respects_GetAKTPrice | exact S1 |].
  intros [usdPerAkt|e] w3 w4 S2; [|split; [reflexivity | exact S2]].
  rewrite <- EM.
  destruct (bool_decide (denom1 = "") || Dec_IsZero amount1)%bool eqn:Missing.
  { apply agree_bind; [apply respects_Println | exact S2 |].
    intros _ w5 w6 S. split; [reflexivity | exact S]. }
  unfold resourcesOf in ER.
  destruct (GSpec request1) as [g1|] eqn:G1.
  2: { rewrite (requestPrice_nil request1 G1) in RP1. injection RP1 as <- <-.
       discriminate Missing. }
  destruct (GSpec request2) as [g2|] eqn:G2.
  2: { rewrite (requestPrice_nil request2 G2) in RP2. injection RP2 as <- <-.
       vm_compute in EM. discriminate EM. }
  apply agree_bind; [apply respects_SetPriceTargets | exact S2 |].
  intros priceTargets w5 w6 S3.
  destruct g1 as [name1 l1], g2 as [name2 l2]. simpl in ER.
  rewrite (gpu_fold_resources l1 l2 _ _ ER name1 name2).
  unfold CalculateRequestedResources. simpl gs_Resources.
  rewrite (requested_fold_resources l1 l2 ER).
  unfold CalculateBlockRates. cbv beta iota zeta.
  apply agree_bind; [apply respects_Println | exact S3 |].
  intros _ w7 w8 S4.
  apply agree_bind; [apply respects_Println | exact S4 |].
  intros _ w9 w10 S5. split; [reflexivity | exact S5].
Qed.

End Respects.

Lemma RequestToBidPrice_ignores_offer_witness :
  let lib := Concrete.lib in
  let w := Samples.cachedWorld (59 * Minute) Samples.offline in
  let request1 := Samples.request "akash1provider" "uakt" in
  let request2 :=
    mkRequest "akash1provider"
      (Some (mkGroupSpec "other"
               [mkResourceUnit (ru_Resources (Samples.smallUnit "uakt")) 1
                               (mkDecCoin "usd" (mkDec 1))])) 2 in
  fst (RequestToBidPrice request1 w) = fst (RequestToBidPrice request2 w) /\
  sameOutside (snd (RequestToBidPrice request1 w)) (snd (RequestToBidPrice request2 w)).
Proof.
  intros lib w request1 request2.
  apply (RequestToBidPrice_ignores_offer request1 request2 w); reflexivity.
Defined.

(** ** pricing.go: the accuracy of the rate per block *)

(** A third rounding, a quotient, after the two of [two_roundings]. *)
Lemma third_rounding (Y b t r : R) :
  (0 <= Y -> 0 < b ->
   Rabs (t - Y) <= 2.01 * eps * Y -> Rabs (r - t / b) <= eps * (t / b) ->
   Rabs (r - Y / b) <= 3.02 * eps * (Y / b))%R.
Proof.
  intros HY Hb Ht Hr. pose proof eps_small as [E0 E1].
  assert (Hi : (0 < / b)%R) by (apply Rinv_0_lt_compat; exact Hb).
  unfold Rdiv in *. set (i := (/ b)%R) in *.
  apply Rabs_bounds in Ht, Hr. apply Rabs_le.
  assert (Hy : (0 <= Y * i)%R) by nra.
  assert (U : (t * i <= (1 + 2.01 * eps) * (Y * i))%R) by nra.
  assert (L : ((1 - 2.01 * eps) * (Y * i) <= t * i)%R) by nra.
  assert (Q : (eps * (2.01 * eps) * (Y * i) <= 0.01 * eps * (Y * i))%R) by nra.
  split; nra.
Qed.

Lemma million_canonical : canonical (of_int 1000000) 8589934592000000 (-33).
Proof. split; reflexivity. Qed.

Lemma BlocksPerMonth_canonical : canonical BlocksPerMonth 7385790062078544 (-34).
Proof. split; vm_compute; reflexivity. Qed.

Lemma million_value : F2R (of_int 1000000) = 1000000%R.
Proof. destruct (of_int_spec 1000000 ltac:(lia)) as (m & e & _ & _ & V). exact V. Qed.

Section BlockRates_accuracy.
Context {lib : GoLib}.

(** X22.  For a monthly cost and an exchange rate that are positive normal
    numbers between 2^-98 and 2^203, the rate per block in uakt is within
    3.02 * 2^-52, relatively, of cost / exchange rate * 1000000 / blocks
    per month, and the rate in USD within 2^-52 of cost / blocks per month;
    the number of blocks per month the package uses is within 2^-52,
    relatively, of 2629756800 / 6117 (about 429909.56). *)
Theorem CalculateBlockRates_accurate (totalCostUsdTarget usdPerAkt : float64)
    (mc mu : positive) (ec eu precision : Z) :
  canonical totalCostUsdTarget mc ec -> canonical usdPerAkt mu eu ->
  -150 <= ec <= 150 -> -150 <= eu <= 150 ->
  let rates := fst (CalculateBlockRates totalCostUsdTarget usdPerAkt precision) in
  let exact := (F2R totalCostUsdTarget / F2R usdPerAkt * 1000000 / F2R BlocksPerMonth)%R in
  (Rabs (F2R (fst rates) - exact) <= 3.02 * eps * exact)%R /\
  (Rabs (F2R (snd rates) - F2R totalCostUsdTarget / F2R BlocksPerMonth)
   <= eps * (F2R totalCostUsdTarget / F2R BlocksPerMonth))%R /\
  (Rabs (F2R BlocksPerMonth - 2629756800 / 6117) <= eps * (2629756800 / 6117))%R.
Proof.
  intros Cc Cu Hec Heu rates exact. subst rates exact.
  unfold CalculateBlockRates. cbv beta iota zeta delta [fst snd].
  pose proof million_canonical as CM. pose proof BlocksPerMonth_canonical as CB.
  destruct (div_accurate _ _ _ _ _ _ Cc Cu ltac:(lia) ltac:(lia))
    as (mq & eq & Cq & Heq & Eq).
  destruct (mul_accurate _ _ _ _ _ _ Cq CM ltac:(lia) ltac:(lia))
    as (mt & et & Ct & Het & Et).
  destruct (div_accurate _ _ _ _ _ _ Ct CB ltac:(lia) ltac:(lia))
    as (mr & er & Cr & Her & Er).
  destruct (div_accurate _ _ _ _ _ _ Cc CB ltac:(lia) ltac:(lia))
    as (ms & es & Cs & Hes & Es).
  pose proof (canonical_positive _ _ _ Cc) as Pc.
  pose proof (canonical_positive _ _ _ Cu) as Pu.
  pose proof (canonical_positive _ _ _ CB) as PB.
  split; [|split].
  - rewrite million_value in Et.
    apply (third_rounding _ _ (F2R (mul (div totalCostUsdTarget usdPerAkt) (of_int 1000000)))).
    + assert (0 < F2R totalCostUsdTarget / F2R usdPerAkt)%R
        by (apply Rdiv_lt_0_compat; assumption). lra.
    + exact PB.
    + apply (two_roundings _ _ (F2R (div totalCostUsdTarget usdPerAkt))).
      * assert (0 < F2R totalCostUsdTarget / F2R usdPerAkt)%R
          by (apply Rdiv_lt_0_compat; assumption). lra.
      * lra.
      * exact Eq.
      * exact Et.
    + exact Er.
  - exact Es.
  - unfold BlocksPerMonth, of_ratio.
    destruct (of_int_spec 2629756800 ltac:(lia)) as (m1 & e1 & C1 & H1 & V1).
    destruct (of_int_spec 6117 ltac:(lia)) as (m2 & e2 & C2 & H2 & V2).
    destruct (div_accurate _ _ _ _ _ _ C1 C2 ltac:(lia) ltac:(lia))
      as (m3 & e3 & C3 & H3 & E3).
    rewrite V1, V2 in E3. exact E3.
Qed.

End BlockRates_accuracy.

Lemma CalculateBlockRates_accurate_witness :
  let lib := Concrete.lib in
  let cost := of_ratio 41 100 in
  let usd := of_ratio 5 2 in
  let rate := fst (fst (CalculateBlockRates cost usd 6)) in
  let exact := (F2R cost / F2R usd * 1000000 / F2R BlocksPerMonth)%R in
  (Rabs (F2R rate - exact) <= 3.02 * eps * exact)%R.
Proof.
  intros lib cost usd rate exact.
  assert (Cc : canonical cost 7385903388887613 (-54)) by (split; vm_compute; reflexivity).
  assert (Cu : canonical usd 5629499534213120 (-51)) by (split; vm_compute; reflexivity).
  pose proof (CalculateBlockRates_accurate (lib := lib) cost usd _ _ _ _ 6 Cc Cu
                ltac:(lia) ltac:(lia)) as (H & _).
  exact H.
Defined.

(** ** pricing.go: the memory total of [CalculateRequestedResources] *)

(** The term of one unit: [float64(memoryBytes) / (1024.0 * 1024.0 * 1024.0) * float64(count)]. *)
Lemma memoryTerm_accurate (memoryBytes count : Z) :
  0 < memoryBytes < 2 ^ 53 -> 0 < count < 2 ^ 53 ->
  exists (m : positive) (e : Z),
    canonical (mul (div (of_int memoryBytes) (of_int bytesPerGB)) (of_int count)) m e /\
    -200 <= e <= 200 /\
    (Rabs (F2R (mul (div (of_int memoryBytes) (of_int bytesPerGB)) (of_int count))
           - IZR (memoryBytes * count) / 1073741824)
     <= 2.01 * eps * (IZR (memoryBytes * count) / 1073741824))%R.
Proof.
  intros Hc Hn.
  destruct (of_int_spec memoryBytes Hc) as (mc & ec & Cc & Hec & Vc).
  destruct (of_int_spec bytesPerGB ltac:(vm_compute; split; reflexivity))
    as (mk & ek & Ck & Hek & Vk).
  change (IZR bytesPerGB) with 1073741824%R in Vk.
  destruct (of_int_spec count Hn) as (mn & en & Cn & Hen & Vn).
  destruct (div_accurate _ _ _ _ _ _ Cc Ck ltac:(lia) ltac:(lia)) as (mq & eqt & Cq & Heq & Eqt).
  destruct (mul_accurate _ _ _ _ _ _ Cq Cn ltac:(lia) ltac:(lia)) as (mt & et & Ct & Het & Et).
  exists mt, et. split; [exact Ct|]. split; [lia|].
  rewrite Vc, Vk in Eqt. rewrite Vn in Et.
  assert (0 < IZR memoryBytes)%R by (apply IZR_lt; lia).
  assert (0 < IZR count)%R by (apply IZR_lt; lia).
  replace (IZR (memoryBytes * count) / 1073741824)%R with (IZR memoryBytes / 1073741824 * IZR count)%R
    by (rewrite mult_IZR; field).
  apply (two_roundings _ _ (F2R (div (of_int memoryBytes) (of_int bytesPerGB)))); try lra.
  - exact Eqt.
  - exact Et.
Qed.

Lemma memoryTerm_zero (count : Z) :
  0 < count < 2 ^ 53 ->
  mul (div (of_int 0) (of_int bytesPerGB)) (of_int count) = zero.
Proof.
  intros Hn. destruct (of_int_spec count Hn) as (mn & en & [-> _] & _).
  reflexivity.
Qed.

Lemma memoryInvariant_next (B : R) (k s : Z) (acc : float64) :
  (0 <= B)%R -> 0 <= k -> 0 <= s ->
  memoryInvariant B k s acc -> memoryInvariant B (k + 1) s acc.
Proof.
  intros HB Hk Hs [Z0|(m & e & C & He & Hpos & Err)]; [now left | right].
  exists m, e. repeat split; try assumption; try apply C.
  eapply Rle_trans; [exact Err|]. pose proof eps_small as [E0 _].
  apply Rmult_le_compat_l; [lra|]. rewrite plus_IZR.
  assert (0 <= IZR k)%R by (apply IZR_le; lia). nra.
Qed.

Lemma memoryStep_invariant (Btot k s : Z) (acc : float64) (ru : ResourceUnit) :
  wellFormedMemory ru -> 0 <= k -> (0 < s + bytesOf ru -> k < 10 ^ 10 - 1) -> 0 <= s ->
  s + bytesOf ru <= Btot -> Btot <= 4724464025600000 ->
  memoryInvariant (IZR Btot / 1073741824) k s acc ->
  memoryInvariant (IZR Btot / 1073741824) (k + 1) (s + bytesOf ru) (memoryStep acc ru).
Proof.
  intros [Hcount Hmem] Hk Hkb Hs Hle HB Inv.
  assert (HB0 : (0 <= IZR Btot / 1073741824)%R).
  { assert (0 <= IZR Btot)%R; [apply IZR_le|lra].
    unfold bytesOf in Hle. destruct (res_Memory _) as [c|]; [|lia].
    specialize (Hmem c eq_refl). nia. }
  unfold memoryStep, addMemory, bytesOf in *.
  destruct (res_Memory (ru_Resources ru)) as [c|]; cbv beta iota delta [MemoryRequested].
  2: { rewrite Z.add_0_r. apply memoryInvariant_next; [assumption | lia | assumption..]. }
  specialize (Hmem c eq_refl).
  destruct (Z.eq_dec (mem_Quantity c) 0) as [Z0|NZ].
  { rewrite Z0, Z.mul_0_l, Z.add_0_r, memoryTerm_zero by lia.
    apply memoryInvariant_next; [assumption | lia | assumption |].
    destruct Inv as [[-> ->]|(m & e & [-> D] & R)].
    - left. split; reflexivity.
    - right. exists m, e. split; [split; [reflexivity | assumption] | exact R]. }
  assert (Hprod : 0 < mem_Quantity c * ru_Count ru) by nia.
  specialize (Hkb ltac:(lia)).
  assert (Hc53 : 0 < mem_Quantity c < 2 ^ 53) by nia.
  destruct (memoryTerm_accurate (mem_Quantity c) (ru_Count ru) Hc53 ltac:(lia))
    as (mt & et & Ct & Het & Et).
  set (term := mul (div (of_int (mem_Quantity c)) (of_int bytesPerGB)) (of_int (ru_Count ru))) in *.
  pose proof (canonical_positive _ _ _ Ct) as Tpos.
  pose proof eps_small as [E0 E1].
  assert (HX : (0 < IZR (mem_Quantity c * ru_Count ru) / 1073741824)%R).
  { assert (0 < IZR (mem_Quantity c * ru_Count ru))%R by (apply IZR_lt; lia). lra. }
  assert (Hk' : (0 <= IZR k <= 10 ^ 10)%R).
  { split; [apply IZR_le; lia|].
    apply Rle_trans with (IZR 10000000000); [apply IZR_le; lia | lra]. }
  assert (HBR : (IZR Btot / 1073741824 <= 4400000)%R).
  { assert (IZR Btot <= IZR 4724464025600000)%R by (apply IZR_le; lia). lra. }
  destruct Inv as [[-> ->]|(ma & ea & Ca & Hea & Hspos & Ea)].
  - (* the first term that is not zero *)
    right. exists mt, et.
    replace (add zero term) with term by (destruct Ct as [-> _]; reflexivity).
    split; [exact Ct|]. split; [lia|]. split; [lia|].
    rewrite Z.add_0_l. eapply Rle_trans; [exact Et|].
    rewrite plus_IZR.
    assert (0 <= eps * (IZR (mem_Quantity c * ru_Count ru) / 1073741824))%R by nra.
    assert (0 <= (IZR k + 1) * (IZR Btot / 1073741824))%R by nra.
    assert (0 <= eps * ((IZR k + 1) * (IZR Btot / 1073741824)))%R by nra.
    lra.
  - pose proof (canonical_positive _ _ _ Ca) as Apos.
    assert (HS : (0 < IZR s / 1073741824 <= IZR Btot / 1073741824)%R).
    { assert (0 < IZR s)%R by (apply IZR_lt; lia).
      assert (IZR s <= IZR Btot)%R by (apply IZR_le; lia). lra. }
    assert (Hea' : ea <= 400).
    { pose proof (canonical_value_bounds _ _ _ Ca) as [L _].
      apply Rabs_bounds in Ea.
      assert (F2R acc < pow2 24)%R.
      { rewrite (pow2_IZR 24) by lia. change (2 ^ 24) with 16777216.
        assert (IZR k * (IZR Btot / 1073741824) <= 10 ^ 10 * (IZR Btot / 1073741824))%R
          by (apply Rmult_le_compat_r; lra).
        assert (2.1 * (IZR s / 1073741824) + 1.01 * IZR k * (IZR Btot / 1073741824)
                <= 10 ^ 11 * (IZR Btot / 1073741824))%R by lra.
        assert (eps * (2.1 * (IZR s / 1073741824) + 1.01 * IZR k * (IZR Btot / 1073741824))
                <= eps * (10 ^ 11 * (IZR Btot / 1073741824)))%R
          by (apply Rmult_le_compat_l; lra).
        assert (eps * (10 ^ 11 * (IZR Btot / 1073741824)) <= IZR Btot / 1073741824)%R by nra.
        lra. }
      assert (pow2 (ea + 52) < pow2 24)%R by lra.
      apply pow2_lt_inv in H0. lia. }
    destruct (add_accurate _ _ _ _ _ _ Ca Ct ltac:(lia) ltac:(lia))
      as (m' & e' & C' & He' & E').
    right. exists m', e'. split; [exact C'|]. split; [lia|]. split; [lia|].
    rewrite !plus_IZR.
    replace ((IZR s + IZR (mem_Quantity c * ru_Count ru)) / 1073741824)%R
      with (IZR s / 1073741824 + IZR (mem_Quantity c * ru_Count ru) / 1073741824)%R by field.
    assert (HSx : (IZR s / 1073741824 + IZR (mem_Quantity c * ru_Count ru) / 1073741824
                   <= IZR Btot / 1073741824)%R).
    { assert (IZR (s + mem_Quantity c * ru_Count ru) <= IZR Btot)%R by (apply IZR_le; lia).
      rewrite plus_IZR in H. lra. }
    apply (sum_step _ _ _ (F2R acc) (F2R term)); try lra; assumption.
Qed.

Lemma fold_addStorage_MemoryRequested (count : Z) (l : list Storage) :
  forall r, MemoryRequested (fold_left (addStorage count) l r) = MemoryRequested r.
Proof.
  induction l as [|s l IH]; intros r; simpl; [reflexivity|].
  rewrite IH. unfold addStorage. repeat (destruct (decide _)); reflexivity.
Qed.

Lemma fold_addEndpoint_MemoryRequested (count : Z) (l : list Endpoint) :
  forall r, MemoryRequested (fold_left (addEndpoint count) l r) = MemoryRequested r.
Proof.
  induction l as [|e l IH]; intros r; simpl; [reflexivity|]. now rewrite IH.
Qed.

Lemma MemoryRequested_addResourceUnit (r : ResourceRequests) (ru : ResourceUnit) :
  MemoryRequested (addResourceUnit r ru) = memoryStep (MemoryRequested r) ru.
Proof.
  unfold addResourceUnit.
  rewrite fold_addEndpoint_MemoryRequested, fold_addStorage_MemoryRequested.
  unfold addCPU, memoryStep, addMemory.
  destruct (res_Memory _), (res_CPU _); reflexivity.
Qed.

Lemma MemoryRequested_fold (l : list ResourceUnit) :
  forall r,
    MemoryRequested (fold_left addResourceUnit l r) = fold_left memoryStep l (MemoryRequested r).
Proof.
  induction l as [|ru l IH]; intros r; simpl; [reflexivity|].
  now rewrite IH, MemoryRequested_addResourceUnit.
Qed.

Lemma bytesOf_nonneg (ru : ResourceUnit) : wellFormedMemory ru -> 0 <= bytesOf ru.
Proof.
  intros [Hc Hu]. unfold bytesOf. destruct (res_Memory _) as [c|]; [|lia].
  specialize (Hu c eq_refl). nia.
Qed.

Lemma sum_bytesOf_nonneg (l : list ResourceUnit) :
  Forall wellFormedMemory l -> 0 <= sumZ (map bytesOf l).
Proof.
  induction 1 as [|ru l Hru _ IH]; simpl; [lia|].
  pose proof (bytesOf_nonneg ru Hru). lia.
Qed.

Lemma memory_fold_invariant (Btot : Z) (l : list ResourceUnit) :
  forall (k s : Z) (acc : float64),
    Forall wellFormedMemory l -> 0 <= k -> 0 <= s ->
    (0 < s + sumZ (map bytesOf l) -> k + Z.of_nat (length l) < 10 ^ 10 - 1) ->
    s + sumZ (map bytesOf l) <= Btot -> Btot <= 4724464025600000 ->
    memoryInvariant (IZR Btot / 1073741824) k s acc ->
    memoryInvariant (IZR Btot / 1073741824) (k + Z.of_nat (length l)) (s + sumZ (map bytesOf l))
                 (fold_left memoryStep l acc).
Proof.
  induction l as [|ru l IH]; intros k s acc Hwf Hk Hs Hkb Hle HB Inv.
  - simpl. now rewrite !Z.add_0_r.
  - inversion Hwf as [|? ? Hru Hl]; subst.
    pose proof (bytesOf_nonneg ru Hru) as N1.
    pose proof (sum_bytesOf_nonneg l Hl) as N2.
    simpl map in *. simpl sumZ in *. simpl fold_left.
    replace (k + Z.of_nat (length (ru :: l))) with ((k + 1) + Z.of_nat (length l))
      in * by (simpl length; lia).
    replace (s + (bytesOf ru + sumZ (map bytesOf l)))
      with ((s + bytesOf ru) + sumZ (map bytesOf l)) in * by lia.
    apply IH; try assumption; try lia.
    apply memoryStep_invariant; try assumption; lia.
Qed.

(** X23.  For a request of fewer than 10^9 units whose units have a memory
    size that is not negative and a repetition count of at least 1, and for
    which the number of units plus 3, times the total of bytes times
    counts, is at most 4400000 * 2^30 (4.4 million GiB), the memory total
    is within 1e-9 of the sum of (bytes times count) divided by 2^30. *)
Theorem MemoryRequested_accurate (gSpec : GroupSpec) :
  Forall wellFormedMemory (gs_Resources gSpec) ->
  Z.of_nat (length (gs_Resources gSpec)) < 10 ^ 9 ->
  (Z.of_nat (length (gs_Resources gSpec)) + 3) * totalBytes gSpec <= 4724464025600000 ->
  (Rabs (F2R (MemoryRequested (CalculateRequestedResources gSpec))
         - IZR (totalBytes gSpec) / 1073741824) <= 1 / 10 ^ 9)%R.
Proof.
  intros Hwf Hlen Hsize. unfold CalculateRequestedResources, totalBytes in *.
  rewrite MemoryRequested_fold. simpl MemoryRequested.
  set (l := gs_Resources gSpec) in *. set (T := sumZ (map bytesOf l)) in *.
  set (n := Z.of_nat (length l)) in *.
  pose proof (sum_bytesOf_nonneg l Hwf) as HT. fold T in HT.
  assert (Hn : 0 <= n) by (unfold n; lia).
  pose proof (memory_fold_invariant T l 0 0 zero Hwf ltac:(lia) ltac:(lia)) as Inv.
  rewrite !Z.add_0_l in Inv. fold T n in Inv.
  specialize (Inv ltac:(lia) ltac:(lia) ltac:(nia) (or_introl (conj eq_refl eq_refl))).
  destruct Inv as [[E1 E2]|(m & e & C & _ & Tpos & Err)].
  - rewrite E1, E2. simpl F2R. apply Rabs_le. split; lra.
  - eapply Rle_trans; [exact Err|]. pose proof eps_small as [E0 _].
    assert (H1 : (0 < IZR T)%R) by (apply IZR_lt; lia).
    assert (H2 : (0 <= IZR n)%R) by (apply IZR_le; lia).
    assert (H3 : ((IZR n + 3) * IZR T <= 4724464025600000)%R).
    { rewrite <- (plus_IZR n 3), <- mult_IZR. apply IZR_le. lia. }
    replace (2.1 * (IZR T / 1073741824) + 1.01 * IZR n * (IZR T / 1073741824))%R
      with ((2.1 + 1.01 * IZR n) * IZR T / 1073741824)%R by field.
    assert (H4 : ((2.1 + 1.01 * IZR n) * IZR T / 1073741824 <= 4444000)%R) by nra.
    apply Rle_trans with (eps * 4444000)%R; [apply Rmult_le_compat_l; lra|].
    unfold eps. change (2 ^ 52) with 4503599627370496.
    apply (Rmult_le_reg_l 4503599627370496); [lra|].
    rewrite <- Rmult_assoc, Rinv_r by lra. lra.
Qed.

(** The bound holds for the unit of 256 MiB. *)
Lemma MemoryRequested_accurate_witness :
  let gSpec := mkGroupSpec "g" [Samples.smallUnit "uakt"] in
  Forall wellFormedMemory (gs_Resources gSpec) /\
  (Z.of_nat (length (gs_Resources gSpec)) + 3) * totalBytes gSpec = 2 ^ 30 /\
  (Rabs (F2R (MemoryRequested (CalculateRequestedResources gSpec))
         - IZR (totalBytes gSpec) / 1073741824) <= 1 / 10 ^ 9)%R.
Proof.
  intros gSpec.
  assert (Hwf : Forall wellFormedMemory (gs_Resources gSpec)).
  { repeat constructor; simpl; try lia. intros c E. inversion E. simpl. lia. }
  split; [exact Hwf|]. split; [reflexivity|].
  apply (MemoryRequested_accurate gSpec Hwf); vm_compute; [reflexivity | discriminate].
Defined.


(** ** pricing.go: when [RequestToBidPrice] ends the process *)












Section Fatal_facts.
Context {lib : GoLib}.



End Fatal_facts.
